(** * td: excited-state post-processing, verified against its description

    A shallow embedding of [td.py] (the single-file script), of the
    TURBOMOLE parsers [td/parser/turbomole.py] and [td/parser/ricc2.py]
    and of the sorting stage of [td/run.py].

    Numbers.  Python floats are idealised: the arithmetic of the model is
    exact.  Values that the code only adds, subtracts, multiplies, divides
    and compares are rationals ([Q]), so every definition over them
    evaluates; the two places that leave the rationals ([numpy.exp] in the
    spectrum and [abs] of a complex number in the resonance-Raman weight)
    are real-valued ([R]).  One computation keeps the rounding of the
    doubles, because a rounded last digit decides there how many values
    come out: [numpy.arange] ([binary64], [arange]).

    Regular expressions.  [re.findall] and [re.match] are taken as done: a
    parser of the model starts from what its patterns capture, already
    converted by [int] and [float] where the source converts it. *)

From Stdlib Require Import ZArith QArith Qabs Qround Qpower Qreals Reals Lia.
From Stdlib Require Lra Lqa.
From Stdlib Require Import String Ascii List Bool Permutation Sorted.
Import ListNotations.

(** ** Python values and exceptions *)

(** The exceptions the embedded code can raise. *)
Inductive exn : Set :=
| TypeError
| IndexError
| ValueError
| ZeroDivisionError
| AssertionError.

(** A computation either returns or raises. *)
Inductive result (A : Type) : Type :=
| Ok (a : A)
| Raise (e : exn).

Arguments Ok {A} a.
Arguments Raise {A} e.

Definition bind {A B : Type} (m : result A) (k : A -> result B) : result B :=
  match m with
  | Ok a => k a
  | Raise e => Raise e
  end.

Declare Scope py_scope.
Delimit Scope py_scope with py.
Notation "x <- m ;; k" := (bind m (fun x => k))
  (at level 61, m at next level, right associativity) : py_scope.

(** A loop body run over a list, left to right, stopping at the first
    exception. *)
Fixpoint mapM {A B : Type} (g : A -> result B) (xs : list A)
  : result (list B) :=
  match xs with
  | [] => Ok []
  | x :: xs' =>
      (y <- g x ;; ys <- mapM g xs' ;; Ok (y :: ys))%py
  end.

(** A field that holds a number under one parser and a string under
    another: [id] is an [int] after the Gaussian and escf parsers and the
    captured digits after ricc2; [ci_coeff] is a [float] after the Gaussian
    parser, the integer [-0] after escf and the raw column after ricc2;
    [s2] is a float or the string ["???"]. *)
Inductive pyval : Set :=
| PyNum (q : Q)
| PyStr (s : string).

(** [str.lower] on ASCII letters. *)
Definition lower_ascii (c : ascii) : ascii :=
  let n := nat_of_ascii c in
  if (65 <=? n)%nat && (n <=? 90)%nat then ascii_of_nat (n + 32) else c.

Fixpoint lower (s : string) : string :=
  match s with
  | EmptyString => EmptyString
  | String c s' => String (lower_ascii c) (lower s')
  end.

(** ** The excited-state model ([td.py], classes [MOTransition] and
    [ExcitedState]) *)

Record MOTransition : Type := mkMOTransition {
  start_mo : string;
  to_or_from : string;
  final_mo : string;
  ci_coeff : pyval;
  contrib : option Q;
  start_spin : string;
  final_spin : string;
  start_irrep : string;
  final_irrep : string
}.

Record ExcitedState : Type := mkExcitedState {
  es_id : pyval;
  spin : string;
  spat : string;
  dE : Q;
  es_l : Q;
  es_f : Q;
  s2 : pyval;
  rr_weight : option R;
  mo_transitions : list MOTransition
}.

(** [ExcitedState.__init__]. *)
Definition new_state (id : pyval) (spin spat : string) (dE l f : Q)
  (s2 : pyval) : ExcitedState :=
  mkExcitedState id spin spat dE l f s2 None [].

(** Field updates, as the in-place assignments of the source. *)
Definition set_contrib (t : MOTransition) (c : option Q) : MOTransition :=
  mkMOTransition (start_mo t) (to_or_from t) (final_mo t) (ci_coeff t) c
    (start_spin t) (final_spin t) (start_irrep t) (final_irrep t).

Definition set_mo_transitions (s : ExcitedState) (ts : list MOTransition)
  : ExcitedState :=
  mkExcitedState (es_id s) (spin s) (spat s) (dE s) (es_l s) (es_f s)
    (s2 s) (rr_weight s) ts.

Definition set_id (s : ExcitedState) (i : pyval) : ExcitedState :=
  mkExcitedState i (spin s) (spat s) (dE s) (es_l s) (es_f s)
    (s2 s) (rr_weight s) (mo_transitions s).

Definition set_rr_weight (s : ExcitedState) (w : option R) : ExcitedState :=
  mkExcitedState (es_id s) (spin s) (spat s) (dE s) (es_l s) (es_f s)
    (s2 s) w (mo_transitions s).

(** [ExcitedState.add_mo_transition]: an empty spin becomes ["alpha"], the
    new transition is appended. *)
Definition add_mo_transition (s : ExcitedState)
  (start_mo to_or_from final_mo : string) (ci_coeff : pyval)
  (start_spin final_spin : string) (contrib : option Q)
  (start_irrep final_irrep : string) : ExcitedState :=
  let start_spin := if String.eqb start_spin "" then "alpha"%string
                    else start_spin in
  let final_spin := if String.eqb final_spin "" then "alpha"%string
                    else final_spin in
  set_mo_transitions s
    (mo_transitions s ++
     [mkMOTransition start_mo to_or_from final_mo ci_coeff contrib
        start_spin final_spin start_irrep final_irrep]).

(** [ExcitedState.is_singlet]: [self.spin == "Singlet".lower()]. *)
Definition is_singlet (s : ExcitedState) : bool :=
  String.eqb (spin s) (lower "Singlet").

(** One pass of the loop body of [calculate_contributions]: a transition
    whose [contrib] is not [None] is skipped; otherwise
    [ci_coeff**2], doubled for a singlet ([**] on a string raises). *)
Definition calculate_contribution (singlet : bool) (t : MOTransition)
  : result MOTransition :=
  match contrib t with
  | Some _ => Ok t
  | None =>
      match ci_coeff t with
      | PyNum c =>
          let contrib := c ^ 2 in
          let contrib := if singlet then contrib * 2 else contrib in
          Ok (set_contrib t (Some contrib))
      | PyStr _ => Raise TypeError
      end
  end.

(** [ExcitedState.calculate_contributions]. *)
Definition calculate_contributions (s : ExcitedState) : result ExcitedState :=
  (ts <- mapM (calculate_contribution (is_singlet s)) (mo_transitions s) ;;
   Ok (set_mo_transitions s ts))%py.

(** Positions stand for object identity: the transitions of a state are
    distinct objects held in one list, and a reference to one of them is
    its position in that list. *)
Fixpoint find_index {A : Type} (p : A -> bool) (xs : list A) : option nat :=
  match xs with
  | [] => None
  | x :: xs' => if p x then Some O else option_map S (find_index p xs')
  end.

Fixpoint positions {A : Type} (p : A -> bool) (i : nat) (xs : list A)
  : list nat :=
  match xs with
  | [] => []
  | x :: xs' => if p x then i :: positions p (S i) xs'
                else positions p (S i) xs'
  end.

Fixpoint update_nth {A : Type} (n : nat) (y : A) (xs : list A) : list A :=
  match xs, n with
  | [], _ => []
  | _ :: xs', O => y :: xs'
  | x :: xs', S n' => x :: update_nth n' y xs'
  end.

Fixpoint foldM {A S : Type} (step : S -> A -> result S) (xs : list A) (s : S)
  : result S :=
  match xs with
  | [] => Ok s
  | x :: xs' => (s' <- step s x ;; foldM step xs' s')%py
  end.

Definition is_back (t : MOTransition) : bool :=
  String.eqb (to_or_from t) "<-".

(** The test of the list comprehension that looks for the transition to
    correct, with the two local names of the source. *)
Definition corresponds (bt t : MOTransition) : bool :=
  let final_mo' := start_mo bt in
  let start_mo' := final_mo bt in
  String.eqb (start_mo t) final_mo' && String.eqb (final_mo t) start_mo'.

(** The loop body of [correct_backexcitations] for the back-transition at
    position [i]: the first transition passing the test ([[0]], an
    [IndexError] when there is none) has the back-transition's contribution
    subtracted ([-=] on [None] raises). *)
Definition correct_backexcitation (ts : list MOTransition) (i : nat)
  : result (list MOTransition) :=
  match nth_error ts i with
  | None => Raise IndexError
  | Some bt =>
      match find_index (corresponds bt) ts with
      | None => Raise IndexError
      | Some j =>
          match nth_error ts j with
          | None => Raise IndexError
          | Some trans_to_correct =>
              match contrib trans_to_correct, contrib bt with
              | Some c, Some b =>
                  Ok (update_nth j (set_contrib trans_to_correct
                                      (Some (c - b))) ts)
              | _, _ => Raise TypeError
              end
          end
      end
  end.

(** [ExcitedState.correct_backexcitations]. *)
Definition correct_backexcitations (s : ExcitedState) : result ExcitedState :=
  let back_transitions := positions is_back 0 (mo_transitions s) in
  (ts <- foldM correct_backexcitation back_transitions (mo_transitions s) ;;
   Ok (set_mo_transitions s ts))%py.

(** [ExcitedState.print_mo_transitions]: the transitions whose line is
    printed, in order.  (The second line printed per transition when
    verbose names are given lists no further transition.) *)
Definition print_mo_transitions (s : ExcitedState) : list MOTransition :=
  filter (fun mo_trans => negb (is_back mo_trans)) (mo_transitions s).

(** Truth value of [mo_trans.contrib]: [None] and [0.0] are false. *)
Definition truthy (c : option Q) : bool :=
  match c with
  | Some q => negb (Qeq_bool q 0)
  | None => false
  end.

(** The first loop of [suppress_low_ci_coeffs]: is the transition appended
    to [to_del]?  [contrib_thresh] is the exact square, doubled; the double
    that the source compares with can differ from it in the last digit
    ([to_del_at] takes it as given). *)
Definition to_del (thresh : Q) (mo_trans : MOTransition) : result bool :=
  let contrib_thresh := thresh ^ 2 * 2 in
  match contrib mo_trans with
  | Some c =>
      if truthy (Some c) then Ok (Qle_bool c contrib_thresh)
      else match ci_coeff mo_trans with
           | PyNum ci => Ok (Qle_bool (Qabs ci) thresh)
           | PyStr _ => Raise TypeError
           end
  | None =>
      match ci_coeff mo_trans with
      | PyNum ci => Ok (Qle_bool (Qabs ci) thresh)
      | PyStr _ => Raise TypeError
      end
  end.

(** The second loop: every marked object is removed from the list. *)
Fixpoint remove_marked {A : Type} (xs : list A) (marks : list bool) : list A :=
  match xs, marks with
  | x :: xs', m :: marks' =>
      if m then remove_marked xs' marks' else x :: remove_marked xs' marks'
  | _, _ => xs
  end.

(** [ExcitedState.suppress_low_ci_coeffs]. *)
Definition suppress_low_ci_coeffs (thresh : Q) (s : ExcitedState)
  : result ExcitedState :=
  (marks <- mapM (to_del thresh) (mo_transitions s) ;;
   Ok (set_mo_transitions s (remove_marked (mo_transitions s) marks)))%py.

(** Complex numbers with rational parts, for [calc_rr_weight]. *)
Record complex : Set := mkComplex { re : Q; im : Q }.

Definition csub (a b : complex) : complex :=
  mkComplex (re a - re b) (im a - im b).

Definition cis_zero (a : complex) : bool :=
  Qeq_bool (re a) 0 && Qeq_bool (im a) 0.

(** Complex division; dividing by complex zero raises. *)
Definition cdiv (a b : complex) : result complex :=
  if cis_zero b then Raise ZeroDivisionError
  else
    let n := re b * re b + im b * im b in
    Ok (mkComplex ((re a * re b + im a * im b) / n)
                  ((im a * re b - re a * im b) / n)).

(** [abs] of a complex number. *)
Definition cabs (a : complex) : R :=
  sqrt (Q2R (re a * re a + im a * im a)).

(** Float division: a zero divisor raises. *)
Definition pydiv (a b : Q) : result Q :=
  if Qeq_bool b 0 then Raise ZeroDivisionError else Ok (a / b).

(** [ExcitedState.calc_rr_weight]. *)
Definition calc_rr_weight (rr_exc : Q) (s : ExcitedState)
  : result ExcitedState :=
  (l_in_cm <- pydiv (10 ^ 7) (es_l s) ;;
   rr_ex_in_cm <- pydiv (10 ^ 7) rr_exc ;;
   let G := mkComplex 0 1500 in
   q <- cdiv G (csub (mkComplex (l_in_cm - rr_ex_in_cm) 0) G) ;;
   Ok (set_rr_weight s (Some (Q2R (es_f s) * cabs q)%R)))%py.

(** ** The spectrum ([td.py], [gauss_uv_band] and [make_spectrum]) *)

Definition Rsum (ys : list R) : R := fold_right Rplus 0%R ys.

(** [numpy.ndarray.max]: an empty array raises. *)
Definition array_max (ys : list R) : result R :=
  match ys with
  | [] => Raise ValueError
  | y :: ys' => Ok (fold_left Rmax ys' y)
  end.

(** *** Doubles

    The floats of [numpy.arange] are IEEE 754 doubles: every operation
    returns the double nearest to the exact result, ties going to the even
    mantissa.  The exponent range is not bounded in the model (no overflow,
    no subnormal numbers). *)

(** The exponent [e] of a positive rational: [2^e <= a < 2^(e+1)]. *)
Definition exponent (a : Q) : Z :=
  let e0 := (Z.log2 (Qnum a) - Z.log2 (Zpos (Qden a)))%Z in
  if Qle_bool (2 ^ e0) a then e0 else (e0 - 1)%Z.

(** The nearest integer, a tie going to the even one. *)
Definition round_half_even (q : Q) : Z :=
  let f := Qfloor q in
  match (q - inject_Z f ?= 1 # 2)%Q with
  | Lt => f
  | Gt => (f + 1)%Z
  | Eq => if Z.even f then f else (f + 1)%Z
  end.

(** The double nearest to [q]: a mantissa of 53 bits. *)
Definition binary64 (q : Q) : Q :=
  if Qeq_bool q 0 then 0
  else
    let a := Qabs q in
    let ulp := 2 ^ (exponent a - 52) in
    let m := inject_Z (round_half_even (a / ulp)) in
    if Qle_bool 0 q then m * ulp else - (m * ulp).

(** [numpy.arange(start, stop, step)] on doubles.  The length is the
    ceiling of the quotient [(stop - start) / step] as the doubles give it;
    the first value is [start], the second [start + step], and the value
    at every later index [i] is [start + i*delta], where [delta] is the
    second value minus the first, each operation rounded.  [start], [stop]
    and [step] are the doubles passed in: the decimal [255.6] of a command
    line arrives as [binary64 (2556 # 10)]. *)
Definition arange (start stop step : Q) : list Q :=
  let length :=
    Z.to_nat (Qceiling (binary64 (binary64 (stop - start) / step))) in
  let next := binary64 (start + step) in
  let delta := binary64 (next - start) in
  map (fun i =>
         match i with
         | O => start
         | S O => next
         | _ => binary64 (start + binary64 (inject_Z (Z.of_nat i) * delta))
         end)
      (seq 0 length).

(** [gauss_uv_band(l, f, l_i)].  [l] is a numpy scalar: at [l = 0] numpy
    divides to infinity without raising and the exponential is [0.0];
    [l_i] is a Python float and [1. / l_i] raises at zero. *)
Definition gauss_uv_band (l f l_i : Q) : result R :=
  (inv_l_i <- pydiv 1 l_i ;;
   if Qeq_bool l 0 then Ok 0%R
   else
     Ok (Q2R (130629740 * f / (10000000 / (30996 # 10)))
         * exp (Q2R (- ((1 / l - inv_l_i) / (1 / (30996 # 10))) ^ 2)))%R)%py.

(** [make_spectrum]: the curve printed ([x], [y] pairs) and the impulses
    [(f, l)].  [start_l] and [end_l] are the doubles that [float] made of
    the arguments of [--spectrum].  Dividing by a maximum of zero does not
    raise in numpy (the curve is then not a number); the model divides in
    [R]. *)
Definition make_spectrum (excited_states : list ExcitedState)
  (start_l end_l : Q) (normalized e2f : bool)
  : result (list (Q * R) * list (Q * Q)) :=
  let fli := map (fun es => (es_f es, es_l es)) excited_states in
  let x := arange start_l end_l (1 # 2) in
  (spectrum <-
     mapM (fun l =>
             bands <- mapM (fun fl => gauss_uv_band l (fst fl) (snd fl)) fli ;;
             Ok (Rsum bands)) x ;;
   let spectrum :=
     if e2f
     then map (fun y => (y / Q2R (4049005867167 # 100000000))%R) spectrum
     else spectrum in
   spectrum <-
     (if normalized
      then (m <- array_max spectrum ;; Ok (map (fun y => (y / m)%R) spectrum))
      else Ok spectrum) ;;
   Ok (combine x spectrum, fli))%py.

(** ** Sorting ([td.py] and [td/run.py], main programs) *)

(** [sorted(xs, key=...)]: a stable sort, ascending in the key. *)
Fixpoint insert_by (key : ExcitedState -> Q) (x : ExcitedState)
  (ys : list ExcitedState) : list ExcitedState :=
  match ys with
  | [] => [x]
  | y :: ys' => if Qle_bool (key x) (key y) then x :: y :: ys'
                else y :: insert_by key x ys'
  end.

Definition sorted (key : ExcitedState -> Q) (xs : list ExcitedState)
  : list ExcitedState :=
  fold_right (insert_by key) [] xs.

(** [for i, es in enumerate(excited_states, 1): es.id = i]. *)
Fixpoint relabel (i : Z) (xs : list ExcitedState) : list ExcitedState :=
  match xs with
  | [] => []
  | es :: xs' => set_id es (PyNum (inject_Z i)) :: relabel (i + 1) xs'
  end.

(** The sorting stage of [td.py]: by oscillator strength with [--sf],
    otherwise by energy followed by the relabelling. *)
Definition td_sort (sf : bool) (excited_states : list ExcitedState)
  : list ExcitedState :=
  if sf then sorted (fun exc_state => - es_f exc_state) excited_states
  else relabel 1 (sorted (fun exc_state => dE exc_state) excited_states).

(** The sorting stage of [td/run.py]: two independent options, [--sf] and
    [--se]; the former default branch is inside a string literal there and
    does not run. *)
Definition run_sort (sf se : bool) (excited_states : list ExcitedState)
  : list ExcitedState :=
  let excited_states :=
    if sf then sorted (fun exc_state => - es_f exc_state) excited_states
    else excited_states in
  if se then sorted (fun es => - es_l es) excited_states
  else excited_states.

(** ** The parsers *)

(** Python's [zip] stops at the shortest argument. *)
Definition zip4 {A B C D : Type} (a : list A) (b : list B) (c : list C)
  (d : list D) : list (A * B * C * D) :=
  map (fun x => (fst x, fst (snd x), fst (snd (snd x)), snd (snd (snd x))))
      (combine a (combine b (combine c d))).

Definition zip6 {A B C D E F : Type} (a : list A) (b : list B) (c : list C)
  (d : list D) (e : list E) (f : list F) : list (A * B * C * D * E * F) :=
  map (fun x => (fst x, fst (snd x), fst (snd (snd x)),
                 fst (snd (snd (snd x))), fst (snd (snd (snd (snd x)))),
                 snd (snd (snd (snd (snd x))))))
      (combine a (combine b (combine c (combine d (combine e f))))).

(** A sequence slice [xs[:n]]. *)
Definition first_half {A : Type} (n : nat) (xs : list A) : list A :=
  firstn n xs.

(** [list.insert(i, x)]. *)
Definition list_insert {A : Type} (i : nat) (x : A) (xs : list A) : list A :=
  firstn i xs ++ x :: skipn i xs.

(** *** The Gaussian parser of [td.py], [get_excited_states] *)

(** A stripped line of the log, by what the two patterns capture on it
    (both are anchored at the start of the line and exclude each other):
    [EXC_LINE] with its groups converted by [conv(..., "issffff")],
    [TRS_LINE] with its groups converted by [conv(..., "sssf")], an empty
    line, or any other line. *)
Inductive log_line : Type :=
| ExcLine (id : Z) (spin spat : string) (dE l f s2 : Q)
| TrsLine (start_mo to_or_from final_mo : string) (ci_coeff : Q)
| BlankLine
| OtherLine.

(** One pass of the loop over the lines; the state is the list built so
    far and the flag [matched_exc_state].  A transition line reaches
    [add_mo_transition] with the four converted groups as its only
    arguments, two fewer than the method requires: a [TypeError]. *)
Definition get_excited_states_step
  (st : list ExcitedState * bool) (line : log_line)
  : result (list ExcitedState * bool) :=
  let (excited_states, matched_exc_state) := st in
  if matched_exc_state then
    match line with
    | TrsLine _ _ _ _ => Raise TypeError
    | BlankLine => Ok (excited_states, false)
    | _ => Ok (excited_states, true)
    end
  else
    match line with
    | ExcLine id spin spat dE l f s2 =>
        Ok (excited_states ++
            [new_state (PyNum (inject_Z id)) spin spat dE l f (PyNum s2)],
            true)
    | _ => Ok (excited_states, false)
    end.

(** [get_excited_states], from the lines of the log; of its two results
    the list of states is kept. *)
Definition get_excited_states (lines : list log_line)
  : result (list ExcitedState) :=
  (st <- foldM get_excited_states_step lines ([], false) ;; Ok (fst st))%py.

Section Parsers.

(** Python's builtin [float] on a captured string; it raises [ValueError]
    on a string that is no number. *)
Variable float : string -> result Q.

(** *** TURBOMOLE escf: [parse_escf] of [td/parser/turbomole.py] *)

(** The two conversion constants it imports from [td.constants]. *)
Variables HARTREE2EV HARTREE2NM : Q.

(** One match of the pattern [dc_str]: its nine groups. *)
Definition dc_groups : Type :=
  (string * string * string * string * string * string * string * string
   * string)%type.

(** The inner loop: one transition per match [d], with [d[0]], [d[1]],
    [d[2]], [d[4]], [d[5]], [d[6]] and [float(d[8]) / 100]. *)
Definition escf_add (exc_state : ExcitedState) (d : dc_groups)
  : result ExcitedState :=
  match d with
  | (d0, d1, d2, _, d4, d5, d6, _, d8) =>
      (percent <- float d8 ;;
       Ok (add_mo_transition exc_state d0 "->" d4 (PyNum 0) d2 d6
             (Some (percent / 100)) d1 d5))%py
  end.

(** The body of the loop over [zip(syms, ees, oscs, dcs_parsed)]. *)
Definition escf_state
  (x : (Z * string * string) * Q * Q * list dc_groups)
  : result ExcitedState :=
  match x with
  | ((id_, spin, spat), ee, osc, dc) =>
      let dE := ee * HARTREE2EV in
      (l <- pydiv HARTREE2NM ee ;;
       foldM escf_add dc
         (new_state (PyNum (inject_Z id_)) spin spat dE l osc
            (PyStr "???")))%py
  end.

(** [parse_escf], from the four collections its patterns extract. *)
Definition parse_escf (syms : list (Z * string * string)) (ees oscs : list Q)
  (dcs_parsed : list (list dc_groups)) : result (list ExcitedState) :=
  mapM escf_state (zip4 syms ees oscs dcs_parsed).

(** *** TURBOMOLE ricc2: [parse_ricc2] *)

Variable EV2NM : Q.

(** A line of a contribution block, split into columns; a line of eight
    columns gets the spin ["a"] inserted at positions 3 and 7. *)
Definition add_spins (sl : list string) : list string :=
  if Nat.eqb (length sl) 8 then list_insert 7 "a"%string
                                  (list_insert 3 "a"%string sl)
  else sl.

(** The inner loop: a line must unpack into ten names. *)
Definition ricc2_add (exc_state : ExcitedState) (sl : list string)
  : result ExcitedState :=
  match sl with
  | [start_mo; start_irrep; _; start_spin;
     final_mo; final_irrep; _; final_spin; coeff; percent] =>
      (p <- float percent ;;
       Ok (add_mo_transition exc_state start_mo "->" final_mo (PyStr coeff)
             start_spin final_spin (Some (p / 100))
             start_irrep final_irrep))%py
  | _ => Raise ValueError
  end.

(** The body of the loop over
    [zip(ids, spins, syms, ees, oscs, mo_contribs)]. *)
Definition ricc2_state
  (x : string * string * string * Q * Q * list (list string))
  : result ExcitedState :=
  match x with
  | (id, spin, sym, ee, osc, moc) =>
      (l <- pydiv EV2NM ee ;;
       foldM ricc2_add moc
         (new_state (PyStr id) spin sym ee l osc (PyStr "???")))%py
  end.

(** The matches transposed into [ids], [syms] and [spins]: no match at
    all leaves nothing to unpack. *)
Definition unzip3 (xs : list (string * string * string))
  : result (list string * list string * list string) :=
  match xs with
  | [] => Raise ValueError
  | _ => Ok (map (fun x => fst (fst x)) xs, map (fun x => snd (fst x)) xs,
             map (fun x => snd x) xs)
  end.

Definition py_assert (b : bool) : result unit :=
  if b then Ok tt else Raise AssertionError.

(** [parse_ricc2] of [td/parser/turbomole.py], from the captures of its
    three patterns and the split lines of the contribution blocks. *)
Definition turbomole_parse_ricc2
  (ids_syms_spins : list (string * string * string)) (ees oscs : list Q)
  (mo_contrib_blocks : list (list (list string)))
  : result (list ExcitedState) :=
  (u <- unzip3 ids_syms_spins ;;
   let ids := fst (fst u) in
   let syms := snd (fst u) in
   let spins := snd u in
   let mo_contribs := map (map add_spins) mo_contrib_blocks in
   _ <- py_assert (Nat.eqb (length syms) (length spins)
                   && Nat.eqb (length spins) (length ees)) ;;
   let halve := Nat.eqb (length syms) (2 * length oscs) in
   let syms' := if halve then first_half (length oscs) syms else syms in
   let spins' := if halve then first_half (length oscs) spins else spins in
   let ees' := if halve then first_half (length oscs) ees else ees in
   _ <- py_assert (Nat.eqb (length syms') (length spins')
                   && Nat.eqb (length spins') (length ees')
                   && Nat.eqb (length ees') (length oscs)
                   && Nat.eqb (length oscs) (length mo_contribs)) ;;
   mapM ricc2_state (zip6 ids spins' syms' ees' oscs mo_contribs))%py.

(** [parse_ricc2] of [td/parser/ricc2.py]: one assertion, no halving; its
    second result is the list of blocks. *)
Definition ricc2_parse_ricc2
  (ids_syms_spins : list (string * string * string)) (ees oscs : list Q)
  (mo_contrib_blocks : list (list (list string)))
  : result (list ExcitedState * list (list (list string))) :=
  (u <- unzip3 ids_syms_spins ;;
   let ids := fst (fst u) in
   let syms := snd (fst u) in
   let spins := snd u in
   let mo_contribs := map (map add_spins) mo_contrib_blocks in
   _ <- py_assert (Nat.eqb (length syms) (length spins)
                   && Nat.eqb (length spins) (length ees)
                   && Nat.eqb (length ees) (length oscs)
                   && Nat.eqb (length oscs) (length mo_contribs)) ;;
   excited_states <-
     mapM ricc2_state (zip6 ids spins syms ees oscs mo_contribs) ;;
   Ok (excited_states, mo_contribs))%py.

End Parsers.

(** [parse_escf] of [td.py]: the same function with the two constants
    written out (its second result, a list that stays empty, is left
    out). *)
Definition td_parse_escf (float : string -> result Q) :=
  parse_escf float (27211386 # 1000000) (4556335 # 100000).

(** ** Names for what the back-excitation loop does *)

(** The position of the transition the loop corrects for the
    back-transition at position [i]: the first one that passes the test. *)
Definition partner (ts : list MOTransition) (i : nat) : option nat :=
  match nth_error ts i with
  | Some bt => find_index (corresponds bt) ts
  | None => None
  end.

Definition is_partner (ts : list MOTransition) (i k : nat) : bool :=
  match partner ts i with
  | Some j => Nat.eqb j k
  | None => false
  end.

Definition contrib_at (ts : list MOTransition) (i : nat) : Q :=
  match nth_error ts i with
  | Some t => match contrib t with Some c => c | None => 0 end
  | None => 0
  end.

(** The contribution [c] of the transition at position [k] after every
    back-transition that has [k] for a partner was subtracted from it, in
    list order. *)
Definition net (ts : list MOTransition) (k : nat) (c : Q) : Q :=
  fold_left
    (fun acc i => if is_partner ts i k then acc - contrib_at ts i else acc)
    (positions is_back 0 ts) c.

(** A transition without its contribution. *)
Definition shape (t : MOTransition) : MOTransition := set_contrib t None.

(** What holds of the list [ts] between two passes of the loop started on
    [ts0]: only contributions have changed, every contribution is set, and
    the back-excitations are as they were. *)
Definition netting_inv (ts0 ts : list MOTransition) : Prop :=
  map shape ts = map shape ts0
  /\ (forall k t, nth_error ts k = Some t -> exists c, contrib t = Some c)
  /\ (forall i bt, nth_error ts i = Some bt -> is_back bt = true ->
                   nth_error ts0 i = Some bt).

(** ** The band of the description *)

(** The formula of the description, in its words, over the reals:
    [1.3062974e8 * f / (1e7/3099.6)
     * exp(-((1/l - 1/l_i) / (1/3099.6))^2)]. *)
Definition spec_band (l f l_i : R) : R :=
  (130629740 * f / (10000000 / (30996 / 10))
   * exp (- ((1 / l - 1 / l_i) / (1 / (30996 / 10))) ^ 2))%R.

(** The sum of the description over the states: [g 0 + ... + g (n-1)]. *)
Definition spec_sum (n : nat) (g : nat -> R) : R :=
  match n with
  | O => 0%R
  | S k => sum_f_R0 g k
  end.

(** The band of the state number [i] of a list at the wavelength [l]. *)
Definition spec_band_of (excited_states : list ExcitedState) (l : Q)
  (i : nat) : R :=
  match nth_error excited_states i with
  | Some es => spec_band (Q2R l) (Q2R (es_f es)) (Q2R (es_l es))
  | None => 0%R
  end.

(** [m] is the maximum of a curve: one of its values, and none is above. *)
Definition is_maximum (m : R) (ys : list R) : Prop :=
  In m ys /\ forall y, In y ys -> (y <= m)%R.

(** A wavelength that is a whole number of half nanometres (below [2^50]
    nm): on such bounds every double of [numpy.arange] is exact. *)
Definition half_nm (q : Q) : Prop :=
  exists j : Z, (Z.abs j <= 2 ^ 51)%Z /\ q == inject_Z j * (1 # 2).

(** The value [gauss_uv_band] returns when it returns. *)
Definition band_value (l f l_i : Q) : R :=
  if Qeq_bool l 0 then 0%R
  else (Q2R (130629740 * f / (10000000 / (30996 # 10)))
        * exp (Q2R (- ((1 / l - 1 / l_i) / (1 / (30996 # 10))) ^ 2)))%R.

(** ** Names for the order of a list of states *)

(** Every state is followed by one of no smaller key. *)
Definition ascending (key : ExcitedState -> Q) (xs : list ExcitedState)
  : Prop :=
  forall i a b, nth_error xs i = Some a -> nth_error xs (S i) = Some b ->
                key a <= key b.

(** A state without its label. *)
Definition unlabel (s : ExcitedState) : ExcitedState := set_id s (PyNum 0).

(** ** The quantity of the description's sum property *)

Definition is_forward (t : MOTransition) : bool :=
  String.eqb (to_or_from t) "->".

(** The sum of the description's property, in its words:
    [sum(contribution for FORWARD transitions)].  It has no value when a
    forward contribution is [None]. *)
Fixpoint forward_sum (ts : list MOTransition) : option Q :=
  match ts with
  | [] => Some 0
  | t :: ts' =>
      if is_forward t then
        match contrib t, forward_sum ts' with
        | Some c, Some a => Some (c + a)
        | _, _ => None
        end
      else forward_sum ts'
  end.

(** ** Sample inputs *)

(** A state as the Gaussian parser starts it from the line
    [Excited State 1: Singlet-A 3.0000 eV 413.28 nm f=0.1000 <S**2>=0.000],
    with one transition of coefficient 0.5 whose contribution is not set. *)
Definition gaussian_line : log_line :=
  ExcLine 1 "Singlet" "A" 3 (41328 # 100) (1 # 10) 0.

Definition gaussian_singlet : ExcitedState :=
  add_mo_transition
    (new_state (PyNum 1) "Singlet" "A" 3 (41328 # 100) (1 # 10) (PyNum 0))
    "89" "->" "90" (PyNum (1 # 2)) "" "" None "A" "A".

(** A triplet state as [parse_escf] builds it: the synthetic coefficient
    [-0] and a contribution of 6 percent read from the report. *)
Definition escf_triplet : ExcitedState :=
  add_mo_transition
    (new_state (PyNum 1) "triplet" "a" 3 (41328 # 100) (1 # 10)
       (PyStr "???"))
    "12" "->" "13" (PyNum 0) "" "" (Some (6 / 100)) "a" "a".

(** A state whose only transition has a known contribution of zero and a
    coefficient of 0.5. *)
Definition zero_contrib_state : ExcitedState :=
  add_mo_transition
    (new_state (PyNum 1) "triplet" "a" 3 (41328 # 100) (1 # 10)
       (PyStr "???"))
    "12" "->" "13" (PyNum (1 # 2)) "" "" (Some 0) "a" "a".

(** A state with the forward transitions 89 -> 90 (contribution 0.02) and
    88 -> 90 (0.5) and the back-excitation 89 <- 90 (0.05). *)
Definition netted_state : ExcitedState :=
  let s0 := new_state (PyNum 1) "Singlet" "A" 3 (41328 # 100) (1 # 10)
              (PyNum 0) in
  let s1 := add_mo_transition s0 "89" "->" "90" (PyNum (1 # 10)) "" ""
              (Some (2 # 100)) "A" "A" in
  let s2 := add_mo_transition s1 "88" "->" "90" (PyNum (1 # 2)) "" ""
              (Some (1 # 2)) "A" "A" in
  add_mo_transition s2 "89" "<-" "90" (PyNum (16 # 100)) "" ""
    (Some (5 # 100)) "A" "A".

(** A [float] for inputs without contribution lines: never called. *)
Definition no_float (s : string) : result Q := Raise ValueError.

(** Captures of an escf report with two states and one oscillator
    strength. *)
Definition escf_syms : list (Z * string * string) :=
  [(1%Z, "singlet"%string, "a"%string); (2%Z, "singlet"%string, "a"%string)].
Definition escf_ees : list Q := [1 # 10; 2 # 10].
Definition escf_oscs : list Q := [1 # 100].
Definition escf_dcs : list (list dc_groups) := [[]; []].

(** The pair of the description's example as the Gaussian log lists it
    (the excitation first, then the back-excitation with the same two
    orbitals); the same pair with the back-excitation first; and the pair
    with the orbitals of the back-excitation exchanged. *)
Definition fwd_89_90 : MOTransition :=
  mkMOTransition "89" "->" "90" (PyNum (4 # 10)) (Some (30 # 100))
    "alpha" "alpha" "A" "A".
Definition back_89_90 : MOTransition :=
  mkMOTransition "89" "<-" "90" (PyNum (16 # 100)) (Some (5 # 100))
    "alpha" "alpha" "A" "A".
Definition back_90_89 : MOTransition :=
  mkMOTransition "90" "<-" "89" (PyNum (16 # 100)) (Some (5 # 100))
    "alpha" "alpha" "A" "A".

Definition state_of (ts : list MOTransition) : ExcitedState :=
  set_mo_transitions
    (new_state (PyNum 1) "Singlet" "A" 3 (41328 # 100) (1 # 10) (PyNum 0))
    ts.

Definition paired_state : ExcitedState := state_of [fwd_89_90; back_89_90].
Definition back_first_state : ExcitedState :=
  state_of [back_89_90; fwd_89_90].
Definition exchanged_state : ExcitedState :=
  state_of [fwd_89_90; back_90_89].

(** Two states in the order of the report, the first of higher energy. *)
Definition state_3eV : ExcitedState :=
  new_state (PyNum 1) "Singlet" "A" 3 (41328 # 100) (1 # 10) (PyNum 0).
Definition state_2eV : ExcitedState :=
  new_state (PyNum 2) "Singlet" "A" 2 (61992 # 100) (2 # 10) (PyNum 0).
Definition two_states : list ExcitedState := [state_3eV; state_2eV].

(** Captures of a ricc2 report and of an escf report with one state and
    no contribution line. *)
Definition ricc2_one : list (string * string * string) :=
  [("1"%string, "a"%string, "1"%string)].
Definition escf_one : list (Z * string * string) :=
  [(1%Z, "singlet"%string, "a"%string)].

(** ** Names for what the suppression does *)

(** The mark of the first loop of [suppress_low_ci_coeffs] for a
    transition on which it does not raise. *)
Definition is_removed (thresh : Q) (t : MOTransition) : bool :=
  match to_del thresh t with
  | Ok b => b
  | Raise _ => false
  end.

(** [suppress_low_ci_coeffs] with the double that [thresh**2 * 2]
    evaluates to passed in as [cutoff].  The source compares the
    contribution with that double; [to_del] idealises it to the exact
    [thresh ^ 2 * 2], and [to_del thresh] is
    [to_del_at (thresh ^ 2 * 2) thresh]. *)
Definition to_del_at (cutoff thresh : Q) (mo_trans : MOTransition)
  : result bool :=
  let contrib_thresh := cutoff in
  match contrib mo_trans with
  | Some c =>
      if truthy (Some c) then Ok (Qle_bool c contrib_thresh)
      else match ci_coeff mo_trans with
           | PyNum ci => Ok (Qle_bool (Qabs ci) thresh)
           | PyStr _ => Raise TypeError
           end
  | None =>
      match ci_coeff mo_trans with
      | PyNum ci => Ok (Qle_bool (Qabs ci) thresh)
      | PyStr _ => Raise TypeError
      end
  end.

Definition suppress_low_ci_coeffs_at (cutoff thresh : Q) (s : ExcitedState)
  : result ExcitedState :=
  (marks <- mapM (to_del_at cutoff thresh) (mo_transitions s) ;;
   Ok (set_mo_transitions s (remove_marked (mo_transitions s) marks)))%py.



(** The first loop of [suppress_low_ci_coeffs] does not raise on the
    transition: a contribution that is unset or zero comes with a number
    for a coefficient. *)
Definition suppressible (t : MOTransition) : Prop :=
  truthy (contrib t) = false -> exists ci, ci_coeff t = PyNum ci.



(** A state as [parse_ricc2] builds it from a line whose percentage column
    reads zero: the coefficient is the column itself, a string. *)
Definition ricc2_zero_percent : ExcitedState :=
  add_mo_transition
    (new_state (PyStr "1") "1" "a" 5 (12398 # 50) (1 # 10) (PyStr "???"))
    "12" "->" "13" (PyStr "0.00312") "a" "a" (Some (0 / 100)) "a" "a".

(** ** Names for properties of transitions *)

(** The contribution is set. *)
Definition contrib_set (t : MOTransition) : Prop :=
  exists c, contrib t = Some c.

(** A transition as the TURBOMOLE parsers add it: an excitation whose
    contribution is set and whose two spins are not empty. *)
Definition turbomole_transition (t : MOTransition) : Prop :=
  to_or_from t = "->"%string /\ contrib_set t
  /\ start_spin t <> ""%string /\ final_spin t <> ""%string.

(** A [float] that reads every string as 12.5. *)
Definition float_12_5 (s : string) : result Q := Ok (125 # 10).

(** One match of the escf contribution pattern and one split line of a
    ricc2 contribution block, closed shell (eight columns). *)
Definition dc_sample : dc_groups :=
  ("12", "a", "", "-0.31", "13", "a", "", "0.05", "12.5")%string.
Definition ricc2_line8 : list string :=
  ["12"; "a"; "1"; "13"; "a"; "2"; "0.35355"; "12.5"]%string.

(** The fields of a state other than its transitions and its
    resonance-Raman weight. *)
Definition header (s : ExcitedState)
  : pyval * string * string * Q * Q * Q * pyval :=
  (es_id s, spin s, spat s, dE s, es_l s, es_f s, s2 s).

(** Captures of a ricc2 report that lists its two states twice, as a run
    with excited-state properties does. *)
Definition ricc2_doubled : list (string * string * string) :=
  [("1", "a", "1"); ("2", "a", "1"); ("1", "a", "1"); ("2", "a", "1")]%string.
Definition ricc2_doubled_ees : list Q := [5; 6; 5; 6].
Definition ricc2_doubled_oscs : list Q := [1 # 10; 2 # 10].
Definition ricc2_doubled_blocks : list (list (list string)) :=
  [[ricc2_line8]; []].

(** ** Names for the spectrum *)

(** The divisor of the [e2f] option. *)
Definition E2F : R := Q2R (4049005867167 # 100000000).

(** The unnormalised curve over the sample points, for states of nonzero
    wavelength. *)
Definition curve_values (excited_states : list ExcitedState)
  (start_l end_l : Q) : list R :=
  map (fun l => Rsum (map (fun es => band_value l (es_f es) (es_l es))
                        excited_states))
      (arange start_l end_l (1 # 2)).

(** A state of wavelength zero. *)
Definition state_0nm : ExcitedState :=
  new_state (PyNum 3) "Singlet" "A" 3 0 (1 # 10) (PyNum 0).

(** A state with a negative oscillator strength. *)
Definition state_negative : ExcitedState :=
  new_state (PyNum 1) "Singlet" "A" 3 (41328 # 100) (- (1 # 10)) (PyNum 0).

(** The doubles written [255.6] and [256.1]. *)
Definition l_255_6 : Q := Eval vm_compute in Qred (binary64 (2556 # 10)).
Definition l_256_1 : Q := Eval vm_compute in Qred (binary64 (2561 # 10)).

(** ** Queries on the transitions of a state ([td.py]) *)

(** [ExcitedState.get_start_mos] and [get_final_mos].  The source returns
    a set; the model lists its elements, with repetitions, which membership
    and minimum do not see. *)
Definition get_start_mos (s : ExcitedState) : list string :=
  map start_mo (mo_transitions s).

Definition get_final_mos (s : ExcitedState) : list string :=
  map final_mo (mo_transitions s).

(** [ExcitedState.has_mo_transition]: is the list of matching transitions
    non-empty? *)
Definition has_mo_transition (s : ExcitedState) (start_mo0 final_mo0 : string)
  : bool :=
  match filter (fun mo_exc => String.eqb start_mo0 (start_mo mo_exc)
                              && String.eqb final_mo0 (final_mo mo_exc))
               (mo_transitions s) with
  | [] => false
  | _ => true
  end.

(** ** [chunks] of [td/run.py] *)

(** [range(0, stop, step)] for [stop >= 0]: a step of zero raises, a
    negative step gives nothing. *)
Definition range0 (stop : nat) (step : Z) : result (list nat) :=
  if (step =? 0)%Z then Raise ValueError
  else if (step <? 0)%Z then Ok []
  else
    let n := Z.to_nat step in
    Ok (map (fun k => (k * n)%nat) (seq 0 ((stop + n - 1) / n))).

(** The slice [lst[i:j]] for [0 <= i <= j]. *)
Definition slice {A : Type} (lst : list A) (i j : nat) : list A :=
  firstn (j - i) (skipn i lst).

(** [chunks(lst, n)], the generator run to its end. *)
Definition chunks {A : Type} (lst : list A) (n : Z)
  : result (list (list A)) :=
  (idx <- range0 (length lst) n ;;
   Ok (map (fun i => slice lst i (i + Z.to_nat n)) idx))%py.

(** ** The main program of [td.py] after the parsing *)

(** How the main program ends when it does not reach its output: an
    exception of the embedded code that nothing catches, the plain
    [Exception] it raises itself, or [sys.exit]. *)
Inductive main_exn : Set :=
| Uncaught (e : exn)
| PlainException
| SystemExit.

Inductive main_result (A : Type) : Type :=
| Done (a : A)
| Stop (e : main_exn).

Arguments Done {A} a.
Arguments Stop {A} e.

Definition main_bind {A B : Type} (m : main_result A)
  (k : A -> main_result B) : main_result B :=
  match m with
  | Done a => k a
  | Stop e => Stop e
  end.

Definition lift {A : Type} (m : result A) : main_result A :=
  match m with
  | Ok a => Done a
  | Raise e => Stop (Uncaught e)
  end.

Declare Scope main_scope.
Delimit Scope main_scope with main.
Notation "x <- m ;; k" := (main_bind m (fun x => k))
  (at level 61, m at next level, right associativity) : main_scope.

(** The pairs of [--start-final-mos], in [td.py] and in [td/run.py]: an
    odd number of arguments ends the program; otherwise the pair
    [(sf_mos[i], sf_mos[i+1])] for every [i] in
    [range(len(sf_mos) / 2)].  Under Python 2 the quotient of two ints is
    an int; under Python 3 ([td/run.py] runs under it) it is a float, which
    [range] refuses with a [TypeError]. *)
Definition start_final_pairs (python3 : bool) (sf_mos : list string)
  : main_result (list (string * string)) :=
  if negb (Nat.eqb (length sf_mos mod 2) 0) then Stop SystemExit
  else if python3 then Stop (Uncaught TypeError)
  else
    lift (mapM (fun i =>
                  match nth_error sf_mos i, nth_error sf_mos (i + 1) with
                  | Some a, Some b => Ok (a, b)
                  | _, _ => Raise IndexError
                  end)
               (seq 0 (length sf_mos / 2))).

(** The filter of [--start-final-mos], under its guard
    [if args.start_final_mos:]: without arguments ([None] when the option
    is absent; the empty list stands for it) nothing is filtered.  The
    source collects the states in a set; the model lists the states of the
    set in the order of [excited_states]. *)
Definition start_final_filter (python3 : bool) (sf_mos : list string)
  (excited_states : list ExcitedState) : main_result (list ExcitedState) :=
  match sf_mos with
  | [] => Done excited_states
  | _ :: _ =>
      (pairs <- start_final_pairs python3 sf_mos ;;
       Done (filter (fun exc_state =>
                       existsb (fun p => has_mo_transition exc_state
                                           (fst p) (snd p)) pairs)
                    excited_states))%main
  end.

(** The filter of [--range]: no value or an absent option filters nothing,
    one value is a lower bound on the wavelength, two values are inclusive
    bounds, more values raise. *)
Definition range_filter (range : option (list Q))
  (excited_states : list ExcitedState) : main_result (list ExcitedState) :=
  match range with
  | None | Some [] => Done excited_states
  | Some [end_] =>
      Done (filter (fun exc_state => Qle_bool end_ (es_l exc_state))
              excited_states)
  | Some [start; end_] =>
      Done (filter (fun exc_state => Qle_bool start (es_l exc_state)
                                     && Qle_bool (es_l exc_state) end_)
              excited_states)
  | Some _ => Stop PlainException
  end.

(** The filter of [--fthresh]; a threshold of zero is false and filters
    nothing. *)
Definition fthresh_filter (fthresh : Q) (excited_states : list ExcitedState)
  : list ExcitedState :=
  if Qeq_bool fthresh 0 then excited_states
  else filter (fun exc_state => Qle_bool fthresh (es_f exc_state))
         excited_states.

(** The slice [xs[:n]]: [None] keeps all, a negative [n] counts from the
    end. *)
Definition slice_to {A : Type} (xs : list A) (n : option Z) : list A :=
  match n with
  | None => xs
  | Some n =>
      if (0 <=? n)%Z then firstn (Z.to_nat n) xs
      else firstn (length xs - Z.to_nat (- n)) xs
  end.

(** [min] and [max] of strings; an empty argument raises. *)
Definition py_min (xs : list string) : result string :=
  match xs with
  | [] => Raise ValueError
  | x :: xs' =>
      Ok (fold_left (fun m y => if String.ltb y m then y else m) xs' x)
  end.

Definition py_max (xs : list string) : result string :=
  match xs with
  | [] => Raise ValueError
  | x :: xs' =>
      Ok (fold_left (fun m y => if String.ltb m y then y else m) xs' x)
  end.

(** The states the table is made of: sorting, [--range], [--fthresh] and
    [--show]. *)
Definition td_selected (sf : bool) (range : option (list Q)) (fthresh : Q)
  (show : option Z) (excited_states : list ExcitedState)
  : main_result (list ExcitedState) :=
  (let excited_states := td_sort sf excited_states in
   excited_states <- range_filter range excited_states ;;
   let excited_states := fthresh_filter fthresh excited_states in
   Done (slice_to excited_states show))%main.

(** From the sorting to the last step before the output: the states
    selected, the lowest start orbital and the highest final orbital among
    them, and the resonance-Raman weights when [--exc] is given and not
    zero. *)
Definition td_tail (sf : bool) (range : option (list Q)) (fthresh : Q)
  (show : option Z) (exc : option Q) (excited_states : list ExcitedState)
  : main_result (list ExcitedState * string * string) :=
  (excited_states <- td_selected sf range fthresh show excited_states ;;
   min_mo <- lift (py_min (concat (map get_start_mos excited_states))) ;;
   max_mo <- lift (py_max (concat (map get_final_mos excited_states))) ;;
   excited_states <-
     match exc with
     | Some rr_exc =>
         if Qeq_bool rr_exc 0 then Done excited_states
         else lift (mapM (calc_rr_weight rr_exc) excited_states)
     | None => Done excited_states
     end ;;
   Done (excited_states, min_mo, max_mo))%main.

(** The number of a label. *)
Definition id_number (s : ExcitedState) : Z :=
  match es_id s with
  | PyNum q => Qfloor q
  | PyStr _ => 0
  end.

(** Three states with transitions, out of energy order. *)
Definition three_states : list ExcitedState :=
  [state_of [fwd_89_90; back_89_90];
   set_id (add_mo_transition state_2eV "88" "->" "91" (PyNum (1 # 2))
             "" "" (Some (1 # 2)) "A" "A") (PyNum 2);
   set_id (add_mo_transition state_2eV "9" "->" "10" (PyNum (1 # 2))
             "" "" (Some (1 # 2)) "A" "A") (PyNum 3)].

(** The order of the rows of the table: ascending energy and ascending
    label. *)
Definition table_order (a b : ExcitedState) : Prop :=
  dE a <= dE b /\ (id_number a < id_number b)%Z.

(** From a list of states to one it was cut from by filters and
    truncation: the elements kept are in their order. *)
Inductive kept_from {A : Type} : list A -> list A -> Prop :=
| kept_nil : kept_from [] []
| kept_cons x xs ys : kept_from xs ys -> kept_from (x :: xs) (x :: ys)
| kept_skip y xs ys : kept_from xs ys -> kept_from xs (y :: ys).

(** ** The three steps run on every parsed state *)

(** The body of the loop of the main programs over the parsed states:
    [calculate_contributions], [correct_backexcitations],
    [suppress_low_ci_coeffs(args.ci_coeff)]. *)
Definition post_process (ci_coeff_arg : Q) (exc_state : ExcitedState)
  : result ExcitedState :=
  (s1 <- calculate_contributions exc_state ;;
   s2 <- correct_backexcitations s1 ;;
   suppress_low_ci_coeffs ci_coeff_arg s2)%py.

(** The coefficient is a number. *)
Definition numeric_coeff (t : MOTransition) : Prop :=
  exists c, ci_coeff t = PyNum c.

(** * Properties *)

Local Open Scope py_scope.

(** Linear arithmetic over the rationals and over the reals. *)
Ltac qlra := Lqa.lra.
Ltac rlra := Lra.lra.

(** *** Contributions *)

Lemma mapM_length {A B} (g : A -> result B) xs ys :
  mapM g xs = Ok ys -> length ys = length xs.
Proof.
  revert ys; induction xs as [|x xs IH]; simpl; intros ys H.
  - now inversion H.
  - destruct (g x); simpl in H; try discriminate.
    destruct (mapM g xs); simpl in H; try discriminate.
    inversion H; subst; simpl; f_equal; auto.
Qed.

Lemma calculate_contribution_set b t t' :
  calculate_contribution b t = Ok t' -> exists c, contrib t' = Some c.
Proof.
  unfold calculate_contribution.
  destruct (contrib t) eqn:E.
  - intros H; inversion H; subst; eauto.
  - destruct (ci_coeff t); intros H; inversion H; subst; simpl; eauto.
Qed.

Lemma calculate_contribution_fixed b t c :
  contrib t = Some c -> calculate_contribution b t = Ok t.
Proof. unfold calculate_contribution; intros ->; reflexivity. Qed.

Lemma mapM_calculate_twice b ts ts' :
  mapM (calculate_contribution b) ts = Ok ts' ->
  mapM (calculate_contribution b) ts' = Ok ts'.
Proof.
  revert ts'; induction ts as [|t ts IH]; simpl; intros ts' H.
  - inversion H; reflexivity.
  - destruct (calculate_contribution b t) as [t1|] eqn:E1; simpl in H; try discriminate.
    destruct (mapM (calculate_contribution b) ts) as [ts1|] eqn:E2; simpl in H; try discriminate.
    inversion H; subst; simpl.
    destruct (calculate_contribution_set _ _ _ E1) as [c Hc].
    rewrite (calculate_contribution_fixed b _ _ Hc); simpl.
    rewrite (IH _ eq_refl); reflexivity.
Qed.

Lemma mapM_calculate_keeps b ts ts' :
  mapM (calculate_contribution b) ts = Ok ts' ->
  forall i t c, nth_error ts i = Some t -> contrib t = Some c ->
                nth_error ts' i = Some t.
Proof.
  revert ts'; induction ts as [|t0 ts IH]; simpl; intros ts' H i t c Hn Hc.
  - destruct i; discriminate.
  - destruct (calculate_contribution b t0) as [t1|] eqn:E1; simpl in H; try discriminate.
    destruct (mapM (calculate_contribution b) ts) as [ts1|] eqn:E2; simpl in H; try discriminate.
    inversion H; subst. destruct i as [|i]; simpl in *.
    + inversion Hn; subst. rewrite (calculate_contribution_fixed b _ _ Hc) in E1.
      congruence.
    + eapply IH; eauto.
Qed.

Lemma is_singlet_set_mo_transitions s ts :
  is_singlet (set_mo_transitions s ts) = is_singlet s.
Proof. reflexivity. Qed.

(** C9.  Two calls in a row give what one call gives, an exception
    included; and a call leaves the list as long as it was and every
    transition whose contribution is set, to zero or anything else,
    exactly as it was. *)
Theorem calculate_contributions_idempotent (s : ExcitedState) :
  (s' <- calculate_contributions s ;; calculate_contributions s')
  = calculate_contributions s
  /\ forall s', calculate_contributions s = Ok s' ->
       length (mo_transitions s') = length (mo_transitions s)
       /\ forall i t c, nth_error (mo_transitions s) i = Some t ->
                        contrib t = Some c ->
                        nth_error (mo_transitions s') i = Some t.
Proof.
  unfold calculate_contributions.
  destruct (mapM (calculate_contribution (is_singlet s)) (mo_transitions s))
    as [ts|e] eqn:E; cbn [bind].
  - split.
    + rewrite is_singlet_set_mo_transitions.
      change (mo_transitions (set_mo_transitions s ts)) with ts.
      rewrite (mapM_calculate_twice _ _ _ E); reflexivity.
    + intros s' H; inversion H; subst; simpl. split.
      * eapply mapM_length; eauto.
      * intros; eapply mapM_calculate_keeps; eauto.
  - split; [reflexivity | discriminate].
Qed.

Lemma calculate_contributions_idempotent_witness :
  (exists s',
      calculate_contributions gaussian_singlet = Ok s'
      /\ calculate_contributions s' = Ok s')
  /\ (exists s',
      calculate_contributions paired_state = Ok s'
      /\ length (mo_transitions s') = 2%nat
      /\ nth_error (mo_transitions s') 0 = Some fwd_89_90).
Proof.
  split.
  - eexists. split; [reflexivity|].
    exact (proj1 (calculate_contributions_idempotent gaussian_singlet)).
  - destruct (calculate_contributions_idempotent paired_state)
      as (_ & Hkeep).
    eexists. split; [reflexivity|].
    destruct (Hkeep _ eq_refl) as (Hlen & Hnth). split; [exact Hlen|].
    exact (Hnth 0%nat fwd_89_90 (30 # 100) eq_refl eq_refl).
Defined.

(** What a call does to a transition whose contribution is not set: the
    square of the coefficient, doubled exactly when [is_singlet] answers
    yes. *)
Lemma mapM_calculate_unset b ts ts' :
  mapM (calculate_contribution b) ts = Ok ts' ->
  forall i t, nth_error ts i = Some t -> contrib t = None ->
    exists c, ci_coeff t = PyNum c
              /\ nth_error ts' i
                 = Some (set_contrib t
                           (Some (if b then c ^ 2 * 2 else c ^ 2))).
Proof.
  revert ts'; induction ts as [|t0 ts IH]; simpl; intros ts' H i t Hn Hc.
  - destruct i; discriminate.
  - destruct (calculate_contribution b t0) as [t1|] eqn:E1; simpl in H;
      try discriminate.
    destruct (mapM (calculate_contribution b) ts) as [ts1|] eqn:E2;
      simpl in H; try discriminate.
    inversion H; subst. destruct i as [|i]; simpl in *.
    + inversion Hn; subst. unfold calculate_contribution in E1.
      rewrite Hc in E1. destruct (ci_coeff t) as [c|]; try discriminate.
      exists c; split; [reflexivity|]. inversion E1; subst.
      destruct b; reflexivity.
    + eapply IH; eauto.
Qed.

(** C2, evaluated where the code departs from it.  The Gaussian parser
    stores the captured token ["Singlet"]; [is_singlet] compares the field
    with the lower-cased literal, so it answers no, and the contribution of
    the transition with coefficient 0.5 is set to 0.25, not to 0.5. *)
Theorem calculate_contributions_gaussian_singlet :
  get_excited_states [gaussian_line]
  = Ok [new_state (PyNum 1) "Singlet" "A" 3 (41328 # 100) (1 # 10) (PyNum 0)]
  /\ spin gaussian_singlet = "Singlet"%string
  /\ map ci_coeff (mo_transitions gaussian_singlet) = [PyNum (1 # 2)]
  /\ map contrib (mo_transitions gaussian_singlet) = [None]
  /\ is_singlet gaussian_singlet = false
  /\ exists s' c,
       calculate_contributions gaussian_singlet = Ok s'
       /\ map contrib (mo_transitions s') = [Some c]
       /\ c == (1 # 2) ^ 2
       /\ ~ c == (1 # 2) ^ 2 * 2.
Proof.
  repeat split; try reflexivity.
  eexists; eexists; split; [reflexivity|].
  split; [reflexivity|]. split; [reflexivity|].
  intros H; vm_compute in H; discriminate.
Qed.

(** *** Low-coefficient suppression *)

Lemma mapM_to_del_total thresh ts :
  Forall (fun t => truthy (contrib t) = false ->
                   exists ci, ci_coeff t = PyNum ci) ts ->
  exists marks, mapM (to_del thresh) ts = Ok marks
                /\ length marks = length ts.
Proof.
  induction 1 as [|t ts Ht _ IH]; simpl.
  - exists []; auto.
  - destruct IH as (marks & -> & Hl).
    assert (exists m, to_del thresh t = Ok m) as [m ->].
    { unfold to_del. destruct (contrib t) as [c|] eqn:E.
      - destruct (truthy (Some c)) eqn:T; eauto.
        destruct (Ht eq_refl) as [ci ->]; eauto.
      - destruct (Ht eq_refl) as [ci ->]; eauto. }
    simpl. exists (m :: marks); simpl; auto.
Qed.

(** C3, evaluated where the code departs from it.  For a triplet state
    the doubling factor is 1, so with the threshold 0.2 a known
    contribution of 0.06 lies above 0.2^2 * 1 = 0.04 and is to be kept; the
    code compares with 0.2^2 * 2 = 0.08 whatever the multiplicity and
    removes the transition. *)
Theorem suppress_low_ci_coeffs_triplet :
  is_singlet escf_triplet = false
  /\ (exists c, map contrib (mo_transitions escf_triplet) = [Some c]
                /\ ~ c <= (1 # 5) ^ 2 * 1)
  /\ exists s', suppress_low_ci_coeffs (1 # 5) escf_triplet = Ok s'
                /\ mo_transitions s' = [].
Proof.
  split; [reflexivity|]. split.
  - eexists; split; [reflexivity|]. intros H; vm_compute in H. auto.
  - eexists; split; reflexivity.
Qed.

(** A contribution that is known and zero is tested like an unknown one:
    with the coefficient 0.5 above the threshold 0.2 the transition stays,
    although 0 <= 0.2^2 * k for either factor k. *)
Lemma suppress_low_ci_coeffs_zero_contrib :
  map contrib (mo_transitions zero_contrib_state) = [Some 0]
  /\ exists s', suppress_low_ci_coeffs (1 # 5) zero_contrib_state = Ok s'
                /\ length (mo_transitions s') = 1%nat.
Proof. split; [reflexivity|]. eexists; split; reflexivity. Qed.

Lemma forward_sum_remove_marked ts :
  Forall (fun t => is_forward t = true ->
                   exists c, contrib t = Some c /\ 0 <= c) ts ->
  forall marks, length marks = length ts ->
  exists a b, forward_sum ts = Some a
              /\ forward_sum (remove_marked ts marks) = Some b
              /\ b <= a /\ 0 <= b.
Proof.
  induction 1 as [|t ts Ht _ IH]; intros marks Hl.
  - exists 0, 0. destruct marks; simpl; repeat split; auto; apply Qle_refl.
  - destruct marks as [|m marks]; [discriminate|].
    injection Hl as Hl. destruct (IH marks Hl) as (a & b & Ha & Hb & Hab & H0).
    simpl. destruct (is_forward t) eqn:F.
    + destruct (Ht eq_refl) as (c & Hc & Hc0). rewrite Hc, Ha.
      destruct m; simpl; rewrite ?F, ?Hc, ?Hb.
      * exists (c + a), b. split; [reflexivity|]. split; [reflexivity|].
        split; qlra.
      * exists (c + a), (c + b). split; [reflexivity|].
        split; [reflexivity|]. split; qlra.
    + destruct m; simpl; rewrite ?F, ?Hb; exists a, b; auto.
Qed.

(** C4 as amended: when every forward transition carries a contribution
    that is set and not negative (and no transition with an unset or zero
    contribution has a string for a coefficient, so that the call returns),
    the call returns and the forward contributions left sum to no more than
    those before. *)
Theorem suppress_low_ci_coeffs_sum (thresh : Q) (s : ExcitedState) :
  Forall (fun t => is_forward t = true ->
                   exists c, contrib t = Some c /\ 0 <= c)
         (mo_transitions s) ->
  Forall (fun t => truthy (contrib t) = false ->
                   exists ci, ci_coeff t = PyNum ci)
         (mo_transitions s) ->
  exists s' a b,
    suppress_low_ci_coeffs thresh s = Ok s'
    /\ forward_sum (mo_transitions s) = Some a
    /\ forward_sum (mo_transitions s') = Some b
    /\ b <= a.
Proof.
  intros Hpos Hnum. unfold suppress_low_ci_coeffs.
  destruct (mapM_to_del_total thresh _ Hnum) as (marks & -> & Hl).
  destruct (forward_sum_remove_marked _ Hpos marks Hl)
    as (a & b & Ha & Hb & Hab & _).
  cbn [bind]. eexists; exists a, b. split; [reflexivity|]. simpl. auto.
Qed.

Lemma suppress_low_ci_coeffs_sum_witness :
  exists s' a b,
    suppress_low_ci_coeffs (1 # 5) escf_triplet = Ok s'
    /\ forward_sum (mo_transitions escf_triplet) = Some a
    /\ forward_sum (mo_transitions s') = Some b
    /\ b <= a.
Proof.
  apply (@suppress_low_ci_coeffs_sum (1 # 5) escf_triplet).
  - repeat constructor. intros _. eexists; split; [reflexivity|].
    vm_compute; discriminate.
  - repeat constructor. intros H; vm_compute in H; discriminate.
Defined.

(** C4 fails as stated: netting the back-excitation 89 <- 90 (0.05) against
    89 -> 90 (0.02) leaves the latter at -0.03; the suppression removes it,
    and the forward contributions sum to 0.5 after against 0.47 before. *)
Lemma suppress_low_ci_coeffs_sum_counterexample :
  exists s1 s2 a b,
    correct_backexcitations netted_state = Ok s1
    /\ suppress_low_ci_coeffs (1 # 5) s1 = Ok s2
    /\ forward_sum (mo_transitions s1) = Some a
    /\ forward_sum (mo_transitions s2) = Some b
    /\ a == 47 # 100 /\ b == 1 # 2 /\ ~ b <= a.
Proof.
  do 4 eexists. split; [reflexivity|]. split; [reflexivity|].
  split; [reflexivity|]. split; [reflexivity|].
  split; [reflexivity|]. split; [reflexivity|].
  intros H; vm_compute in H; auto.
Qed.

(** *** Parsers *)

Lemma mapM_In {A B} (g : A -> result B) xs ys :
  mapM g xs = Ok ys ->
  forall y, In y ys -> exists x, In x xs /\ g x = Ok y.
Proof.
  revert ys; induction xs as [|x xs IH]; simpl; intros ys H y Hy.
  - inversion H; subst; destruct Hy.
  - destruct (g x) as [y0|] eqn:E; simpl in H; try discriminate.
    destruct (mapM g xs) as [ys0|] eqn:E2; simpl in H; try discriminate.
    inversion H; subst. destruct Hy as [<-|Hy].
    + exists x; auto.
    + destruct (IH _ eq_refl _ Hy) as (x' & Hin & Hx'); eauto.
Qed.

(** The loops that add transitions leave the energy and the wavelength of
    the state alone. *)
Lemma foldM_fields {A} (step : ExcitedState -> A -> result ExcitedState) :
  (forall s a s', step s a = Ok s' -> dE s' = dE s /\ es_l s' = es_l s) ->
  forall xs s s', foldM step xs s = Ok s' ->
                  dE s' = dE s /\ es_l s' = es_l s.
Proof.
  intros Hstep; induction xs as [|x xs IH]; simpl; intros s s' H.
  - inversion H; auto.
  - destruct (step s x) as [s1|] eqn:E; simpl in H; try discriminate.
    destruct (Hstep _ _ _ E) as [H1 H2]. destruct (IH _ _ H) as [H3 H4].
    split; congruence.
Qed.

Lemma escf_add_fields float s d s' :
  escf_add float s d = Ok s' -> dE s' = dE s /\ es_l s' = es_l s.
Proof.
  unfold escf_add. destruct d as [[[[[[[[d0 d1] d2] d3] d4] d5] d6] d7] d8].
  destruct (float d8); simpl; intros H; inversion H; auto.
Qed.

Lemma ricc2_add_fields float s sl s' :
  ricc2_add float s sl = Ok s' -> dE s' = dE s /\ es_l s' = es_l s.
Proof.
  unfold ricc2_add.
  do 10 (destruct sl as [|? sl]; try discriminate).
  destruct sl; try discriminate.
  destruct (float _); simpl; intros H; inversion H; auto.
Qed.

Lemma pydiv_Ok a b q : pydiv a b = Ok q -> ~ b == 0 /\ q = a / b.
Proof.
  unfold pydiv. destruct (Qeq_bool b 0) eqn:E; intros H; inversion H.
  split; auto. now apply Qeq_bool_neq.
Qed.

Lemma escf_state_Ok float H2EV H2NM sym ee osc dc st :
  escf_state float H2EV H2NM (sym, ee, osc, dc) = Ok st ->
  ~ ee == 0 /\ dE st = ee * H2EV /\ es_l st = H2NM / ee.
Proof.
  unfold escf_state. destruct sym as [[id_ sp] spat].
  destruct (pydiv H2NM ee) as [l|] eqn:E; simpl; try discriminate.
  intros H. destruct (pydiv_Ok _ _ _ E) as [Hee ->].
  apply foldM_fields in H; [|intros; eapply escf_add_fields; eauto].
  destruct H as [-> ->]. auto.
Qed.

Lemma ricc2_state_Ok float EV2NM id sp sym ee osc moc st :
  ricc2_state float EV2NM (id, sp, sym, ee, osc, moc) = Ok st ->
  ~ dE st == 0 /\ es_l st = EV2NM / dE st.
Proof.
  unfold ricc2_state.
  destruct (pydiv EV2NM ee) as [l|] eqn:E; simpl; try discriminate.
  intros H. destruct (pydiv_Ok _ _ _ E) as [Hee ->].
  apply foldM_fields in H; [|intros; eapply ricc2_add_fields; eauto].
  destruct H as [-> ->]. auto.
Qed.

Lemma In_zip4 {A B C D} (a : list A) (b : list B) (c : list C) (d : list D)
  x y z w :
  In (x, y, z, w) (zip4 a b c d) -> In x a /\ In y b /\ In z c /\ In w d.
Proof.
  unfold zip4. rewrite in_map_iff. intros ([x' [y' [z' w']]] & E & H).
  simpl in E; inversion E; subst.
  apply in_combine_l in H as Hx. apply in_combine_r in H.
  apply in_combine_l in H as Hy. apply in_combine_r in H.
  apply in_combine_l in H as Hz. apply in_combine_r in H. auto.
Qed.

Lemma zip4_length {A B C D} (a : list A) (b : list B) (c : list C)
  (d : list D) :
  length (zip4 a b c d)
  = Nat.min (length a) (Nat.min (length b) (Nat.min (length c) (length d))).
Proof. unfold zip4. now rewrite length_map, !length_combine. Qed.

(** What [parse_escf] returns has as many states as the shortest of the
    four collections. *)
Lemma parse_escf_length float H2EV H2NM syms ees oscs dcs states :
  parse_escf float H2EV H2NM syms ees oscs dcs = Ok states ->
  length states
  = Nat.min (length syms)
      (Nat.min (length ees) (Nat.min (length oscs) (length dcs))).
Proof.
  unfold parse_escf; intros H.
  now rewrite (mapM_length _ _ _ H), zip4_length.
Qed.

Lemma py_assert_Ok b : py_assert b = Ok tt -> b = true.
Proof. destruct b; [reflexivity | discriminate]. Qed.

(** The sibling parser: [parse_ricc2] of [td/parser/turbomole.py] returns
    only when, after the halving of a doubled listing, the collections
    have one length. *)
Lemma turbomole_parse_ricc2_lengths float EV2NM iss ees oscs blocks states :
  turbomole_parse_ricc2 float EV2NM iss ees oscs blocks = Ok states ->
  length ees = length iss
  /\ length blocks = length oscs
  /\ (length iss = length oscs \/ length iss = (2 * length oscs)%nat)
  /\ length states = length oscs.
Proof.
  unfold turbomole_parse_ricc2, unzip3.
  destruct iss as [|i0 iss0] eqn:Ei; [discriminate|]. rewrite <- Ei.
  cbn [bind fst snd]. rewrite !length_map.
  destruct (py_assert _) as [[]|] eqn:A1; cbn [bind]; try discriminate.
  apply py_assert_Ok in A1. apply andb_true_iff in A1 as [_ A1].
  apply Nat.eqb_eq in A1.
  destruct (py_assert (_ && _ && _ && _)) as [[]|] eqn:A2; cbn [bind];
    try discriminate.
  apply py_assert_Ok in A2.
  repeat (apply andb_true_iff in A2 as [A2 ?]).
  repeat match goal with H : Nat.eqb _ _ = true |- _ =>
    apply Nat.eqb_eq in H end.
  intros Hm. apply mapM_length in Hm.
  unfold zip6 in Hm. rewrite length_map, !length_combine in Hm.
  destruct (Nat.eqb (length iss) (2 * length oscs)) eqn:Hh;
    [apply Nat.eqb_eq in Hh | apply Nat.eqb_neq in Hh];
    unfold first_half in *;
    repeat rewrite ?length_firstn, ?length_map in *; lia.
Qed.

Lemma ricc2_parse_ricc2_lengths float EV2NM iss ees oscs blocks states mc :
  ricc2_parse_ricc2 float EV2NM iss ees oscs blocks = Ok (states, mc) ->
  length ees = length iss /\ length oscs = length iss
  /\ length blocks = length iss /\ length states = length iss.
Proof.
  unfold ricc2_parse_ricc2, unzip3.
  destruct iss as [|i0 iss0] eqn:Ei; [discriminate|]. rewrite <- Ei.
  cbn [bind fst snd]. rewrite !length_map.
  destruct (py_assert _) as [[]|] eqn:A2; cbn [bind]; try discriminate.
  apply py_assert_Ok in A2.
  repeat (apply andb_true_iff in A2 as [A2 ?]).
  repeat match goal with H : Nat.eqb _ _ = true |- _ =>
    apply Nat.eqb_eq in H end.
  destruct (mapM _ _) as [sts|] eqn:Hm; cbn [bind]; try discriminate.
  intros H'; inversion H'; subst.
  apply mapM_length in Hm.
  unfold zip6 in Hm. rewrite length_map, !length_combine, !length_map in Hm.
  lia.
Qed.

(** C6, evaluated where the code departs from it.  With two symmetry
    tokens, two energies, one oscillator strength and two transition
    blocks [parse_escf] raises nothing: it returns the one state the
    shortest collection allows. *)
Theorem parse_escf_truncates (float : string -> result Q)
  (HARTREE2EV HARTREE2NM : Q) :
  length escf_syms = 2%nat /\ length escf_ees = 2%nat
  /\ length escf_oscs = 1%nat /\ length escf_dcs = 2%nat
  /\ (exists st,
        parse_escf float HARTREE2EV HARTREE2NM
          escf_syms escf_ees escf_oscs escf_dcs = Ok [st]
        /\ es_id st = PyNum 1 /\ es_f st = 1 # 100)
  /\ (exists st,
        td_parse_escf float escf_syms escf_ees escf_oscs escf_dcs = Ok [st]).
Proof.
  repeat split; try reflexivity.
  - eexists; repeat split; reflexivity.
  - eexists; reflexivity.
Qed.

(** Every state the Gaussian parser returns was started from a matched
    [EXC_LINE] and holds that line's groups. *)
Lemma get_excited_states_step_from_line lines :
  forall st st', foldM get_excited_states_step lines st = Ok st' ->
  forall s, In s (fst st') ->
    In s (fst st)
    \/ exists id sp spat e l f s2,
         In (ExcLine id sp spat e l f s2) lines
         /\ s = new_state (PyNum (inject_Z id)) sp spat e l f (PyNum s2).
Proof.
  induction lines as [|ln lines IH]; simpl; intros st st' H s Hs.
  - inversion H; subst; auto.
  - destruct (get_excited_states_step st ln) as [st1|] eqn:E; simpl in H;
      try discriminate.
    destruct (IH _ _ H _ Hs) as [Hin|(id & sp & spat & e & l & f & s2 & Hl & ->)].
    + destruct st as [acc [|]]; simpl in E.
      * destruct ln; inversion E; subst; auto.
      * destruct ln; inversion E; subst; auto.
        simpl in Hin. apply in_app_or in Hin as [Hin|[<-|[]]]; auto.
        right. do 7 eexists. split; [left; reflexivity | reflexivity].
    + right. do 7 eexists. split; [right; exact Hl | reflexivity].
Qed.

(** C7 as amended.  A ricc2 state has its wavelength computed as
    [EV2NM / ee] from the energy it stores; an escf state has energy
    [ee * HARTREE2EV] and wavelength [HARTREE2NM / ee] for a hartree energy
    [ee] that is not zero, so wavelength times energy is the product of
    the two constants, which for the constants written out in [td.py] is
    1239.8419043031; a Gaussian state holds the energy and the wavelength
    captured from its line. *)
Theorem wavelength_energy_relation (float : string -> result Q)
  (HARTREE2EV HARTREE2NM EV2NM : Q) :
  (forall iss ees oscs blocks states st,
      turbomole_parse_ricc2 float EV2NM iss ees oscs blocks = Ok states ->
      In st states -> ~ dE st == 0 /\ es_l st = EV2NM / dE st)
  /\ (forall iss ees oscs blocks states mc st,
      ricc2_parse_ricc2 float EV2NM iss ees oscs blocks = Ok (states, mc) ->
      In st states -> ~ dE st == 0 /\ es_l st = EV2NM / dE st)
  /\ (forall syms ees oscs dcs states st,
      parse_escf float HARTREE2EV HARTREE2NM syms ees oscs dcs = Ok states ->
      In st states ->
      exists ee, In ee ees /\ ~ ee == 0
                 /\ dE st = ee * HARTREE2EV /\ es_l st = HARTREE2NM / ee
                 /\ es_l st * dE st == HARTREE2NM * HARTREE2EV)
  /\ (forall syms ees oscs dcs states st,
      td_parse_escf float syms ees oscs dcs = Ok states ->
      In st states ->
      es_l st * dE st == 12398419043031 # 10000000000)
  /\ (forall lines states st,
      get_excited_states lines = Ok states ->
      In st states ->
      exists id sp spat e l f s2,
        In (ExcLine id sp spat e l f s2) lines
        /\ dE st = e /\ es_l st = l).
Proof.
  assert (Hescf : forall H2EV H2NM syms ees oscs dcs states st,
      parse_escf float H2EV H2NM syms ees oscs dcs = Ok states ->
      In st states ->
      exists ee, In ee ees /\ ~ ee == 0
                 /\ dE st = ee * H2EV /\ es_l st = H2NM / ee
                 /\ es_l st * dE st == H2NM * H2EV).
  { intros H2EV H2NM syms ees oscs dcs states st H Hin.
    destruct (mapM_In _ _ _ H _ Hin) as ([[[sym ee] osc] dc] & Hz & Hst).
    apply In_zip4 in Hz as (_ & Hee & _).
    apply escf_state_Ok in Hst as (Hne & HdE & Hl).
    exists ee. repeat split; auto. rewrite HdE, Hl. field. exact Hne. }
  repeat split.
  - unfold turbomole_parse_ricc2 in H.
    destruct (unzip3 iss) as [u|]; cbn [bind] in H; try discriminate.
    destruct (py_assert _); cbn [bind] in H; try discriminate.
    destruct (py_assert _); cbn [bind] in H; try discriminate.
    destruct (mapM_In _ _ _ H _ H0) as ([[[[[id sp] sym] ee] osc] moc] & _ & Hst).
    apply ricc2_state_Ok in Hst. tauto.
  - unfold turbomole_parse_ricc2 in H.
    destruct (unzip3 iss) as [u|]; cbn [bind] in H; try discriminate.
    destruct (py_assert _); cbn [bind] in H; try discriminate.
    destruct (py_assert _); cbn [bind] in H; try discriminate.
    destruct (mapM_In _ _ _ H _ H0) as ([[[[[id sp] sym] ee] osc] moc] & _ & Hst).
    apply ricc2_state_Ok in Hst. tauto.
  - unfold ricc2_parse_ricc2 in H.
    destruct (unzip3 iss) as [u|]; cbn [bind] in H; try discriminate.
    destruct (py_assert _); cbn [bind] in H; try discriminate.
    destruct (mapM _ _) as [sts|] eqn:Hm; cbn [bind] in H; try discriminate.
    inversion H; subst.
    destruct (mapM_In _ _ _ Hm _ H0) as ([[[[[id sp] sym] ee] osc] moc] & _ & Hst).
    apply ricc2_state_Ok in Hst. tauto.
  - unfold ricc2_parse_ricc2 in H.
    destruct (unzip3 iss) as [u|]; cbn [bind] in H; try discriminate.
    destruct (py_assert _); cbn [bind] in H; try discriminate.
    destruct (mapM _ _) as [sts|] eqn:Hm; cbn [bind] in H; try discriminate.
    inversion H; subst.
    destruct (mapM_In _ _ _ Hm _ H0) as ([[[[[id sp] sym] ee] osc] moc] & _ & Hst).
    apply ricc2_state_Ok in Hst. tauto.
  - eapply Hescf; eauto.
  - intros syms ees oscs dcs states st H Hin.
    destruct (Hescf _ _ _ _ _ _ _ _ H Hin) as (ee & _ & _ & _ & _ & ->).
    reflexivity.
  - intros lines states st H Hin. unfold get_excited_states in H.
    destruct (foldM _ _ _) as [st'|] eqn:E; cbn [bind] in H; try discriminate.
    inversion H; subst.
    destruct (get_excited_states_step_from_line _ _ _ E _ Hin)
      as [[]|(id & sp & spat & e & l & f & s2 & Hl & ->)].
    do 7 eexists. split; [exact Hl|]. split; reflexivity.
Qed.

(** *** Back-excitation correction *)

Lemma find_index_map {A B} (g : A -> B) (q : B -> bool) xs :
  find_index (fun x => q (g x)) xs = find_index q (map g xs).
Proof.
  induction xs as [|x xs IH]; simpl; auto.
  destruct (q (g x)); auto. now rewrite IH.
Qed.

Lemma find_index_Some {A} (p : A -> bool) xs j :
  find_index p xs = Some j -> exists x, nth_error xs j = Some x /\ p x = true.
Proof.
  revert j; induction xs as [|x xs IH]; simpl; intros j H; try discriminate.
  destruct (p x) eqn:E.
  - inversion H; subst; simpl; eauto.
  - destruct (find_index p xs) as [j'|]; simpl in H; try discriminate.
    inversion H; subst; simpl; eauto.
Qed.

Lemma nth_error_update_nth {A} j (y : A) xs k :
  nth_error (update_nth j y xs) k
  = if Nat.eqb k j
    then match nth_error xs j with Some _ => Some y | None => None end
    else nth_error xs k.
Proof.
  revert j k; induction xs as [|x xs IH]; intros j k; simpl.
  - destruct (Nat.eqb k j); destruct j, k; reflexivity.
  - destruct j, k; simpl; auto.
Qed.

Lemma map_update_nth {A B} (g : A -> B) j y x xs :
  nth_error xs j = Some x -> g y = g x ->
  map g (update_nth j y xs) = map g xs.
Proof.
  revert j; induction xs as [|x0 xs IH]; intros [|j]; simpl;
    try discriminate.
  - intros H E; inversion H; subst. now rewrite E.
  - intros H E. f_equal; auto.
Qed.

Lemma positions_In {A} (p : A -> bool) xs n i :
  In i (positions p n xs) ->
  exists t, nth_error xs (i - n) = Some t /\ p t = true /\ (n <= i)%nat.
Proof.
  revert n; induction xs as [|x xs IH]; simpl; intros n H; [destruct H|].
  destruct (p x) eqn:E.
  - destruct H as [<-|H].
    + exists x. rewrite Nat.sub_diag. auto.
    + destruct (IH _ H) as (t & Ht & Hp & Hle).
      exists t. replace (i - n)%nat with (S (i - S n)) by lia. simpl.
      repeat split; auto; lia.
  - destruct (IH _ H) as (t & Ht & Hp & Hle).
    exists t. replace (i - n)%nat with (S (i - S n)) by lia. simpl.
    repeat split; auto; lia.
Qed.

Lemma set_contrib_same t : set_contrib t (contrib t) = t.
Proof. destruct t; reflexivity. Qed.

Lemma shape_nth (ts ts0 : list MOTransition) i t0 :
  map shape ts = map shape ts0 -> nth_error ts0 i = Some t0 ->
  exists t, nth_error ts i = Some t /\ shape t = shape t0.
Proof.
  intros Hs H0.
  assert (H : nth_error (map shape ts) i = Some (shape t0))
    by (rewrite Hs; now apply map_nth_error).
  rewrite nth_error_map in H.
  destruct (nth_error ts i) as [t|]; simpl in H; [|discriminate].
  exists t; split; [reflexivity | congruence].
Qed.

Section Netting.

Variable ts0 : list MOTransition.

(** The first transition that carries the two orbitals of a
    back-excitation is not itself a back-excitation. *)
Hypothesis first_is_forward :
  forall i bt, nth_error ts0 i = Some bt -> is_back bt = true ->
    exists j t, find_index (corresponds bt) ts0 = Some j
                /\ nth_error ts0 j = Some t /\ is_back t = false.

Lemma correct_backexcitation_step ts i bt0 :
  netting_inv ts0 ts -> nth_error ts0 i = Some bt0 -> is_back bt0 = true ->
  exists ts1,
    correct_backexcitation ts i = Ok ts1 /\ netting_inv ts0 ts1
    /\ forall k t c, nth_error ts k = Some t -> contrib t = Some c ->
         nth_error ts1 k
         = Some (set_contrib t
                   (Some (if is_partner ts0 i k then c - contrib_at ts0 i
                          else c))).
Proof.
  intros (Hshape & Hset & Hback) Hi Hb.
  destruct (first_is_forward _ _ Hi Hb) as (j & t0 & Hfind & Hj & Hfwd).
  destruct (shape_nth _ _ _ _ Hshape Hi) as (bt & Hbt & Sbt).
  assert (Ebt : bt = bt0).
  { assert (is_back bt = true).
    { change (is_back (shape bt) = true). rewrite Sbt. exact Hb. }
    specialize (Hback _ _ Hbt H). congruence. }
  subst bt.
  destruct (shape_nth _ _ _ _ Hshape Hj) as (t & Ht & St).
  assert (Hfind' : find_index (corresponds bt0) ts = Some j).
  { change (find_index (fun x => corresponds bt0 (shape x)) ts = Some j).
    rewrite (find_index_map shape (corresponds bt0)), Hshape,
      <- (find_index_map shape (corresponds bt0)).
    exact Hfind. }
  destruct (Hset _ _ Ht) as (c & Hc).
  destruct (Hset _ _ Hbt) as (b & Hbc).
  unfold correct_backexcitation. rewrite Hbt, Hfind', Ht, Hc, Hbc.
  eexists; split; [reflexivity|].
  assert (Hpart : partner ts0 i = Some j)
    by (unfold partner; now rewrite Hi).
  assert (Hcb : contrib_at ts0 i = b)
    by (unfold contrib_at; now rewrite Hi, Hbc).
  split; [split; [|split]|].
  - rewrite <- Hshape. eapply map_update_nth; eauto.
  - intros k t1 H1. rewrite nth_error_update_nth, Ht in H1.
    destruct (Nat.eqb k j); [inversion H1; simpl; eauto | eauto].
  - intros i1 bt1 H1 Hb1. rewrite nth_error_update_nth, Ht in H1.
    destruct (Nat.eqb i1 j) eqn:E; [|eauto].
    inversion H1; subst bt1.
    assert (is_back t = true) by exact Hb1.
    assert (is_back t = false).
    { change (is_back (shape t) = false). rewrite St. exact Hfwd. }
    congruence.
  - intros k t1 c1 H1 Hc1. rewrite nth_error_update_nth, Ht.
    unfold is_partner. rewrite Hpart, Hcb, (Nat.eqb_sym j k).
    destruct (Nat.eqb k j) eqn:E.
    + apply Nat.eqb_eq in E; subst k.
      assert (t1 = t) by congruence. subst t1.
      assert (c1 = c) by congruence. subst c1. reflexivity.
    + rewrite H1. f_equal. rewrite <- Hc1. symmetry. apply set_contrib_same.
Qed.

Lemma correct_backexcitation_loop idxs :
  forall ts,
    netting_inv ts0 ts ->
    (forall i, In i idxs ->
       exists bt0, nth_error ts0 i = Some bt0 /\ is_back bt0 = true) ->
    exists ts',
      foldM correct_backexcitation idxs ts = Ok ts' /\ netting_inv ts0 ts'
      /\ forall k t c, nth_error ts k = Some t -> contrib t = Some c ->
           nth_error ts' k
           = Some (set_contrib t
                     (Some (fold_left
                              (fun acc i =>
                                 if is_partner ts0 i k
                                 then acc - contrib_at ts0 i else acc)
                              idxs c))).
Proof.
  induction idxs as [|i idxs IH]; intros ts Hinv Hidx.
  - exists ts. split; [reflexivity|]. split; [exact Hinv|].
    intros k t c Hk Hc. simpl. rewrite Hk. f_equal.
    rewrite <- Hc. symmetry. apply set_contrib_same.
  - destruct (Hidx i (or_introl eq_refl)) as (bt0 & Hi & Hb).
    destruct (correct_backexcitation_step _ _ _ Hinv Hi Hb)
      as (ts1 & Hstep & Hinv1 & Hk1).
    destruct (IH ts1 Hinv1) as (ts' & Hloop & Hinv' & Hk').
    { intros i' Hi'. apply Hidx. now right. }
    exists ts'. simpl. rewrite Hstep. cbn [bind].
    split; [exact Hloop|]. split; [exact Hinv'|].
    intros k t c Hk Hc.
    rewrite (Hk' k _ _ (Hk1 k t c Hk Hc) eq_refl). reflexivity.
Qed.

End Netting.

(** The description's example: the excitation 89 -> 90 (0.30) listed
    before the back-excitation 89 <- 90 (0.05) ends at 0.25, and only the
    excitation is listed. *)
Lemma correct_backexcitations_example :
  exists s' cf cb,
    correct_backexcitations paired_state = Ok s'
    /\ map contrib (mo_transitions s') = [Some cf; Some cb]
    /\ cf == 25 # 100 /\ cb == 5 # 100
    /\ map to_or_from (print_mo_transitions s') = ["->"%string].
Proof.
  do 3 eexists. split; [reflexivity|]. repeat split; reflexivity.
Qed.

(** C1 fails as stated.  The loop corrects the first transition that
    carries the start and final orbital of the back-excitation, whatever
    its direction.  When the back-excitation 89 <- 90 comes before its
    excitation 89 -> 90, and when it is stored with the orbitals exchanged
    (90 <- 89), that first transition is the back-excitation itself: the
    excitation keeps 0.30. *)
Lemma correct_backexcitations_counterexample :
  (exists s' cb cf,
      correct_backexcitations back_first_state = Ok s'
      /\ map contrib (mo_transitions s') = [Some cb; Some cf]
      /\ cf == 30 # 100 /\ ~ cf == 25 # 100 /\ cb == 0)
  /\ (exists s' cf cb,
      correct_backexcitations exchanged_state = Ok s'
      /\ map contrib (mo_transitions s') = [Some cf; Some cb]
      /\ cf == 30 # 100 /\ ~ cf == 25 # 100 /\ cb == 0).
Proof.
  split; do 3 eexists; (split; [reflexivity|]);
    (split; [reflexivity|]); (split; [reflexivity|]);
    (split; [|reflexivity]); intros H; vm_compute in H; discriminate.
Qed.

Lemma print_mo_transitions_forward s :
  Forall (fun t => is_back t = false) (print_mo_transitions s).
Proof.
  unfold print_mo_transitions. apply Forall_forall. intros t Ht.
  apply filter_In in Ht as [_ Ht]. now apply negb_true_iff.
Qed.

(** C1 as amended.  When every contribution is set and, for every
    back-excitation, the first transition with its start and final orbital
    is not a back-excitation, the call returns; each transition keeps its
    place and all its fields but the contribution, which is the [net] one:
    the contributions of the back-excitations whose first match it is are
    subtracted from it; the back-excitations are left as they were, and
    [print_mo_transitions] lists none of them. *)
Theorem correct_backexcitations_nets (s : ExcitedState) :
  Forall (fun t => exists c, contrib t = Some c) (mo_transitions s) ->
  (forall i bt,
      nth_error (mo_transitions s) i = Some bt -> is_back bt = true ->
      exists j t,
        find_index (corresponds bt) (mo_transitions s) = Some j
        /\ nth_error (mo_transitions s) j = Some t /\ is_back t = false) ->
  exists s',
    correct_backexcitations s = Ok s'
    /\ length (mo_transitions s') = length (mo_transitions s)
    /\ (forall k t c,
          nth_error (mo_transitions s) k = Some t -> contrib t = Some c ->
          nth_error (mo_transitions s') k
          = Some (set_contrib t (Some (net (mo_transitions s) k c))))
    /\ (forall k t,
          nth_error (mo_transitions s) k = Some t -> is_back t = true ->
          nth_error (mo_transitions s') k = Some t)
    /\ Forall (fun t => is_back t = false) (print_mo_transitions s').
Proof.
  intros Hset Hfirst. set (ts0 := mo_transitions s) in *.
  assert (Hinv : netting_inv ts0 ts0).
  { split; [reflexivity|]. split; [|auto].
    intros k t Hk. rewrite Forall_forall in Hset.
    apply Hset. eapply nth_error_In; eauto. }
  destruct (correct_backexcitation_loop ts0 Hfirst (positions is_back 0 ts0)
              ts0 Hinv) as (ts' & Hloop & (Hshape & Hset' & Hback) & Hk).
  { intros i Hi. apply positions_In in Hi as (t & Ht & Hp & _).
    rewrite Nat.sub_0_r in Ht. eauto. }
  exists (set_mo_transitions s ts'). unfold correct_backexcitations.
  fold ts0. rewrite Hloop. cbn [bind]. split; [reflexivity|].
  change (mo_transitions (set_mo_transitions s ts')) with ts'.
  split; [|split; [|split]].
  - rewrite <- (length_map shape ts'), Hshape. apply length_map.
  - exact Hk.
  - intros k t Ht Hb.
    destruct (shape_nth _ _ _ _ Hshape Ht) as (t' & Ht' & St).
    assert (Hb' : is_back t' = true).
    { change (is_back (shape t') = true). rewrite St. exact Hb. }
    specialize (Hback _ _ Ht' Hb'). congruence.
  - apply print_mo_transitions_forward.
Qed.

Lemma correct_backexcitations_nets_witness :
  exists s',
    correct_backexcitations paired_state = Ok s'
    /\ length (mo_transitions s') = 2%nat
    /\ nth_error (mo_transitions s') 0
       = Some (set_contrib fwd_89_90
                 (Some (net (mo_transitions paired_state) 0 (30 # 100))))
    /\ nth_error (mo_transitions s') 1 = Some back_89_90.
Proof.
  destruct (correct_backexcitations_nets paired_state)
    as (s' & Hs' & Hlen & Hnet & Hback & _).
  - repeat constructor; eexists; reflexivity.
  - intros [|[|i]] bt H Hb; simpl in H; inversion H; subst.
    + discriminate.
    + exists 0%nat, fwd_89_90. repeat split; reflexivity.
    + destruct i; discriminate.
  - exists s'. split; [exact Hs'|]. split; [exact Hlen|]. split.
    + apply (Hnet 0%nat fwd_89_90); reflexivity.
    + apply (Hback 1%nat back_89_90); reflexivity.
Defined.

(** C7 fails as stated.  [parse_escf] of [td.py] on a state of 0.1 hartree
    stores 2.7211386 eV and 455.6335 nm, whose product is 1239.8419043031;
    the Gaussian parser stores the 3.0000 eV and 413.28 nm printed in the
    log, whose product is 1239.84. *)
Lemma wavelength_energy_counterexample :
  (exists st,
      td_parse_escf no_float escf_one [1 # 10] [1 # 100] [[]] = Ok [st]
      /\ ~ es_l st == (123984193 # 100000) / dE st
      /\ ~ es_l st * dE st == 123984193 # 100000)
  /\ (exists st,
      get_excited_states [gaussian_line] = Ok [st]
      /\ ~ es_l st == (123984193 # 100000) / dE st).
Proof.
  split; eexists; (split; [reflexivity|]); repeat split;
    intros H; vm_compute in H; discriminate.
Qed.

Lemma wavelength_energy_relation_witness :
  (exists st,
      turbomole_parse_ricc2 no_float (123984193 # 100000)
        ricc2_one [5] [1 # 10] [[]] = Ok [st]
      /\ es_l st = (123984193 # 100000) / dE st)
  /\ (exists st,
      td_parse_escf no_float escf_one [1 # 10] [1 # 100] [[]] = Ok [st]
      /\ es_l st * dE st == 12398419043031 # 10000000000)
  /\ (exists st,
      get_excited_states [gaussian_line] = Ok [st]
      /\ dE st = 3 /\ es_l st = 41328 # 100).
Proof.
  destruct (wavelength_energy_relation no_float
              (27211386 # 1000000) (4556335 # 100000) (123984193 # 100000))
    as (W1 & _ & _ & W4 & W5).
  split; [|split].
  - eexists. split; [reflexivity|].
    exact (proj2 (W1 ricc2_one [5] [1 # 10] [[]] _ _ eq_refl
                     (or_introl eq_refl))).
  - eexists. split; [reflexivity|].
    exact (W4 escf_one [1 # 10] [1 # 100] [[]] _ _ eq_refl
              (or_introl eq_refl)).
  - eexists. split; [reflexivity|].
    destruct (W5 [gaussian_line] _ _ eq_refl (or_introl eq_refl))
      as (id & sp & spat & e & l & f & s2 & [Hl|[]] & He & Hl').
    inversion Hl; subst. split; reflexivity.
Defined.

(** *** Sorting *)

Lemma insert_by_perm key x ys : Permutation (insert_by key x ys) (x :: ys).
Proof.
  induction ys as [|y ys IH]; simpl; auto.
  destruct (Qle_bool (key x) (key y)); auto.
  rewrite IH. apply perm_swap.
Qed.

Lemma sorted_perm key xs : Permutation (sorted key xs) xs.
Proof.
  induction xs as [|x xs IH]; simpl; auto.
  rewrite insert_by_perm. now constructor.
Qed.

Lemma insert_by_Sorted key x ys :
  Sorted (fun a b => key a <= key b) ys ->
  Sorted (fun a b => key a <= key b) (insert_by key x ys).
Proof.
  induction 1 as [|y ys Hs IH Hd]; simpl.
  - repeat constructor.
  - destruct (Qle_bool (key x) (key y)) eqn:E.
    + apply Qle_bool_iff in E. repeat constructor; auto.
    + assert (Hyx : key y <= key x).
      { destruct (Qlt_le_dec (key y) (key x)) as [H|H].
        - now apply Qlt_le_weak.
        - apply Qle_bool_iff in H. congruence. }
      constructor; auto.
      destruct Hd as [|z ys Hz]; simpl.
      * repeat constructor; auto.
      * destruct (Qle_bool (key x) (key z)); constructor; auto.
Qed.

Lemma sorted_Sorted key xs :
  Sorted (fun a b => key a <= key b) (sorted key xs).
Proof.
  induction xs as [|x xs IH]; simpl; [constructor|].
  now apply insert_by_Sorted.
Qed.

Lemma Sorted_ascending key xs :
  Sorted (fun a b => key a <= key b) xs -> ascending key xs.
Proof.
  induction 1 as [|x xs Hs IH Hd]; intros i a b Ha Hb.
  - destruct i; discriminate.
  - destruct i as [|i]; simpl in *.
    + inversion Ha; subst. destruct Hd as [|y ys Hy]; [discriminate|].
      simpl in Hb. inversion Hb; subst. exact Hy.
    + eapply IH; eauto.
Qed.

Lemma sorted_ascending key xs : ascending key (sorted key xs).
Proof. apply Sorted_ascending, sorted_Sorted. Qed.

Lemma nth_error_relabel xs : forall i k,
  nth_error (relabel i xs) k
  = option_map (fun s => set_id s (PyNum (inject_Z (i + Z.of_nat k))))
      (nth_error xs k).
Proof.
  induction xs as [|x xs IH]; intros i k; simpl.
  - destruct k; reflexivity.
  - destruct k as [|k]; simpl.
    + now rewrite Z.add_0_r.
    + rewrite IH.
      replace (i + 1 + Z.of_nat k)%Z with (i + Z.of_nat (S k))%Z by lia.
      reflexivity.
Qed.

Lemma relabel_unlabel xs : forall i,
  map unlabel (relabel i xs) = map unlabel xs.
Proof. induction xs as [|x xs IH]; intros i; simpl; [|rewrite IH]; auto. Qed.

Lemma relabel_length xs : forall i, length (relabel i xs) = length xs.
Proof. induction xs as [|x xs IH]; intros i; simpl; auto. Qed.

(** C5 as amended.  In [td.py] the default sort leaves the states in
    ascending energy and numbers them 1..N in that order, changing nothing
    else; with [--sf] the states are only reordered, by descending
    oscillator strength.  In [td/run.py] nothing is sorted or renumbered by
    default; [--se] reorders by descending wavelength and [--sf] by
    descending oscillator strength, and both leave the ids as parsed. *)
Theorem sorting_stage (states : list ExcitedState) :
  (length (td_sort false states) = length states
   /\ ascending dE (td_sort false states)
   /\ (forall i a, nth_error (td_sort false states) i = Some a ->
                   es_id a = PyNum (inject_Z (Z.of_nat i + 1)))
   /\ Permutation (map unlabel (td_sort false states)) (map unlabel states))
  /\ (Permutation (td_sort true states) states
      /\ ascending (fun s => - es_f s) (td_sort true states))
  /\ run_sort false false states = states
  /\ (Permutation (run_sort false true states) states
      /\ ascending (fun s => - es_l s) (run_sort false true states))
  /\ (Permutation (run_sort true false states) states
      /\ ascending (fun s => - es_f s) (run_sort true false states)).
Proof.
  unfold td_sort, run_sort.
  split; [|split; [|split; [|split]]].
  - split; [|split; [|split]].
    + rewrite relabel_length.
      apply Permutation_length, sorted_perm.
    + intros i a b Ha Hb. rewrite nth_error_relabel in Ha, Hb.
      destruct (nth_error (sorted _ states) i) as [a0|] eqn:Ea;
        [|discriminate].
      destruct (nth_error (sorted _ states) (S i)) as [b0|] eqn:Eb;
        [|discriminate].
      inversion Ha; inversion Hb; subst; simpl.
      exact (sorted_ascending dE states i a0 b0 Ea Eb).
    + intros i a Ha. rewrite nth_error_relabel in Ha.
      destruct (nth_error _ i); inversion Ha; subst; simpl.
      now rewrite Z.add_comm.
    + rewrite relabel_unlabel. apply Permutation_map, sorted_perm.
  - split; [apply sorted_perm | apply sorted_ascending].
  - reflexivity.
  - split; [apply sorted_perm | apply sorted_ascending].
  - split; [apply sorted_perm | apply sorted_ascending].
Qed.

Lemma sorting_stage_witness :
  (exists a, nth_error (td_sort false two_states) 1 = Some a
             /\ es_id a = PyNum (inject_Z (Z.of_nat 1 + 1)))
  /\ (exists a b, nth_error (td_sort false two_states) 0 = Some a
                  /\ nth_error (td_sort false two_states) 1 = Some b
                  /\ dE a <= dE b).
Proof.
  destruct (sorting_stage two_states) as ((_ & Hasc & Hid & _) & _).
  split.
  - eexists. split; [reflexivity|]. apply Hid. reflexivity.
  - do 2 eexists. split; [reflexivity|]. split; [reflexivity|].
    apply (Hasc 0%nat); reflexivity.
Defined.

(** C5 fails as stated on [td/run.py]: by default the states stay in the
    order of the report, here 3 eV before 2 eV; with [--se] they are
    reordered and keep the ids they were parsed with, here 2 then 1. *)
Lemma sorting_stage_counterexample :
  run_sort false false two_states = two_states
  /\ map dE two_states = [3; 2] /\ ~ 3 <= 2
  /\ map dE (run_sort false true two_states) = [2; 3]
  /\ map es_id (run_sort false true two_states) = [PyNum 2; PyNum 1].
Proof.
  repeat split; try reflexivity. intros H; vm_compute in H; auto.
Qed.

(** *** Resonance-Raman weight *)

Lemma Qeq_bool_false x : ~ x == 0 -> Qeq_bool x 0 = false.
Proof.
  intros H. destruct (Qeq_bool x 0) eqn:E; auto.
  apply Qeq_bool_iff in E. contradiction.
Qed.

Lemma Q2R_2250000 : Q2R 2250000 = 2250000%R.
Proof. unfold Q2R; simpl. rlra. Qed.

(** The modulus of [G / (d - G)] for [G = 1500j]. *)
Lemma cabs_quotient (d : Q) :
  let n := (d - 0) * (d - 0) + (0 - 1500) * (0 - 1500) in
  cabs (mkComplex ((0 * (d - 0) + 1500 * (0 - 1500)) / n)
                  ((1500 * (d - 0) - 0 * (0 - 1500)) / n))
  = (1500 / sqrt (Q2R d * Q2R d + 2250000))%R.
Proof.
  intros n. unfold cabs; cbn [re im].
  assert (Hn : ~ d * d + 2250000 == 0).
  { intros H. assert (0 <= d * d) by Lqa.nra. qlra. }
  assert (HQ : (0 * (d - 0) + 1500 * (0 - 1500)) / n
               * ((0 * (d - 0) + 1500 * (0 - 1500)) / n)
               + (1500 * (d - 0) - 0 * (0 - 1500)) / n
                 * ((1500 * (d - 0) - 0 * (0 - 1500)) / n)
               == 2250000 / (d * d + 2250000)).
  { unfold n. field. exact Hn. }
  rewrite (Qeq_eqR _ _ HQ).
  unfold Qdiv. rewrite Q2R_mult, Q2R_inv by exact Hn.
  rewrite Q2R_plus, Q2R_mult, Q2R_2250000.
  set (D := Q2R d).
  assert (HX : (0 < D * D + 2250000)%R) by Lra.nra.
  change (2250000 * / (D * D + 2250000))%R
    with (2250000 / (D * D + 2250000))%R.
  rewrite sqrt_div_alt by exact HX.
  replace 2250000%R with (1500 * 1500)%R at 1 by rlra.
  rewrite sqrt_square by rlra. reflexivity.
Qed.

(** The call returns, with the weight in closed form. *)
Lemma calc_rr_weight_value (rr_exc : Q) (s : ExcitedState) :
  ~ es_l s == 0 -> ~ rr_exc == 0 ->
  calc_rr_weight rr_exc s
  = Ok (set_rr_weight s
          (Some (Q2R (es_f s)
                 * (1500 / sqrt (Q2R (10 ^ 7 / es_l s - 10 ^ 7 / rr_exc)
                                 * Q2R (10 ^ 7 / es_l s - 10 ^ 7 / rr_exc)
                                 + 2250000)))%R)).
Proof.
  intros Hl Hexc. unfold calc_rr_weight, pydiv.
  rewrite (Qeq_bool_false _ Hl), (Qeq_bool_false _ Hexc). cbn [bind].
  unfold cdiv, cis_zero, csub; cbn [re im].
  change (Qeq_bool (0 - 1500) 0) with false.
  rewrite andb_false_r. cbn [bind].
  now rewrite (cabs_quotient (10 ^ 7 / es_l s - 10 ^ 7 / rr_exc)).
Qed.

(** C10.  For a state of nonzero wavelength and a nonzero excitation
    wavelength [calc_rr_weight] returns: neither float division has a zero
    divisor, and the complex divisor has the imaginary part -1500 whatever
    the two wavelengths are.  The weight set is
    [f * 1500 / sqrt (d^2 + 1500^2)] for [d] the difference of the two
    wavenumbers, of absolute value at most that of [f]. *)
Theorem calc_rr_weight_total (rr_exc : Q) (s : ExcitedState) :
  ~ es_l s == 0 -> ~ rr_exc == 0 ->
  exists w,
    calc_rr_weight rr_exc s = Ok (set_rr_weight s (Some w))
    /\ w = (Q2R (es_f s)
            * (1500 / sqrt (Q2R (10 ^ 7 / es_l s - 10 ^ 7 / rr_exc)
                            * Q2R (10 ^ 7 / es_l s - 10 ^ 7 / rr_exc)
                            + 2250000)))%R
    /\ (Rabs w <= Rabs (Q2R (es_f s)))%R.
Proof.
  intros Hl Hexc. eexists.
  split; [exact (calc_rr_weight_value rr_exc s Hl Hexc)|].
  split; [reflexivity|].
  set (D := Q2R (10 ^ 7 / es_l s - 10 ^ 7 / rr_exc)).
  set (F := Q2R (es_f s)).
  assert (HX : (0 < D * D + 2250000)%R) by Lra.nra.
  assert (Hs : (1500 <= sqrt (D * D + 2250000))%R).
  { rewrite <- (sqrt_square 1500) at 1 by rlra.
    apply sqrt_le_1_alt. Lra.nra. }
  assert (Hq : (0 <= 1500 / sqrt (D * D + 2250000) <= 1)%R).
  { split.
    - apply Rle_mult_inv_pos; rlra.
    - apply Rmult_le_reg_r with (r := sqrt (D * D + 2250000)); [rlra|].
      unfold Rdiv. rewrite Rmult_assoc, Rinv_l by rlra. rlra. }
  rewrite Rabs_mult, (Rabs_pos_eq (1500 / _)) by tauto.
  pose proof (Rabs_pos F). Lra.nra.
Qed.

Lemma calc_rr_weight_total_witness :
  exists w,
    calc_rr_weight 400 state_3eV = Ok (set_rr_weight state_3eV (Some w))
    /\ (Rabs w <= Rabs (Q2R (es_f state_3eV)))%R.
Proof.
  destruct (calc_rr_weight_total 400 state_3eV) as (w & Hw & _ & Hb).
  - intros H; vm_compute in H; discriminate.
  - intros H; vm_compute in H; discriminate.
  - exists w; split; assumption.
Defined.

(** At exact resonance the weight is the oscillator strength itself. *)
Lemma calc_rr_weight_resonance (s : ExcitedState) :
  ~ es_l s == 0 ->
  calc_rr_weight (es_l s) s = Ok (set_rr_weight s (Some (Q2R (es_f s)))).
Proof.
  intros Hl.
  rewrite (calc_rr_weight_value (es_l s) s Hl Hl).
  assert (H0 : 10 ^ 7 / es_l s - 10 ^ 7 / es_l s == 0) by ring.
  rewrite (Qeq_eqR _ _ H0).
  replace (Q2R 0) with 0%R by (unfold Q2R; simpl; rlra).
  replace (0 * 0 + 2250000)%R with (1500 * 1500)%R by rlra.
  rewrite sqrt_square by rlra.
  do 3 f_equal. field.
Qed.

(** *** The spectrum *)

Lemma mapM_Ok_map {A B} (g : A -> result B) (h : A -> B) xs :
  (forall x, In x xs -> g x = Ok (h x)) -> mapM g xs = Ok (map h xs).
Proof.
  induction xs as [|x xs IH]; simpl; intros H; auto.
  rewrite (H x (or_introl eq_refl)), IH by auto. reflexivity.
Qed.

Lemma gauss_uv_band_Ok l f l_i :
  ~ l_i == 0 -> gauss_uv_band l f l_i = Ok (band_value l f l_i).
Proof.
  intros H. unfold gauss_uv_band, pydiv, band_value.
  rewrite (Qeq_bool_false _ H). cbn [bind].
  destruct (Qeq_bool l 0); reflexivity.
Qed.

Lemma Q2R_Z z : Q2R (inject_Z z) = IZR z.
Proof. unfold Q2R; simpl. now rewrite Rinv_1, Rmult_1_r. Qed.

(** Where the sample point is not zero the value is the band of the
    description. *)
Lemma band_value_spec l f l_i :
  ~ l == 0 -> ~ l_i == 0 ->
  band_value l f l_i = spec_band (Q2R l) (Q2R f) (Q2R l_i).
Proof.
  intros Hl Hli. unfold band_value, spec_band.
  rewrite (Qeq_bool_false _ Hl).
  assert (Hc : Q2R (30996 # 10) = (30996 / 10)%R) by reflexivity.
  assert (H1 : ~ 1 / (30996 # 10) == 0) by (intros H; vm_compute in H; discriminate).
  assert (H2 : ~ 10000000 / (30996 # 10) == 0)
    by (intros H; vm_compute in H; discriminate).
  assert (H3 : ~ (30996 # 10) == 0) by (intros H; vm_compute in H; discriminate).
  f_equal.
  - rewrite Q2R_div, Q2R_mult, Q2R_div by assumption.
    rewrite Hc. change 130629740 with (inject_Z 130629740).
    change 10000000 with (inject_Z 10000000). now rewrite !Q2R_Z.
  - f_equal. change (?x ^ 2) with (x * x). rewrite Q2R_opp, Q2R_mult.
    rewrite Q2R_div, Q2R_minus, !Q2R_div by assumption.
    rewrite Hc. change 1 with (inject_Z 1). rewrite !Q2R_Z. simpl. ring.
Qed.

Lemma band_value_nonneg l f l_i : 0 <= f -> (0 <= band_value l f l_i)%R.
Proof.
  intros Hf. unfold band_value. destruct (Qeq_bool l 0); [rlra|].
  apply Rmult_le_pos; [|left; apply exp_pos].
  replace 0%R with (Q2R 0) by (unfold Q2R; simpl; rlra).
  apply Qle_Rle.
  assert (H : 130629740 * f / (10000000 / (30996 # 10))
              == f * (130629740 * (30996 # 10) / 10000000)) by field.
  rewrite H. apply Qmult_le_0_compat; [exact Hf|].
  vm_compute; discriminate.
Qed.

Lemma Rsum_nonneg ys : Forall (fun y => (0 <= y)%R) ys -> (0 <= Rsum ys)%R.
Proof. induction 1; simpl; rlra. Qed.

(** *** Doubles and [numpy.arange] *)

Lemma exponent_le a : 0 < a -> 2 ^ exponent a <= a.
Proof.
  intros Ha. unfold exponent.
  set (ln := Z.log2 (Qnum a)). set (ld := Z.log2 (Z.pos (Qden a))).
  destruct (Qle_bool (2 ^ (ln - ld)) a) eqn:E; [now apply Qle_bool_iff|].
  assert (Hn : (0 < Qnum a)%Z).
  { destruct a as [n d]; unfold Qlt in Ha; simpl in *; lia. }
  destruct (Z.log2_spec _ Hn) as [Hn1 _]. fold ln in Hn1.
  destruct (Z.log2_spec (Z.pos (Qden a)) (Pos2Z.is_pos _)) as [_ Hd2].
  fold ld in Hd2.
  assert (Hln : (0 <= ln)%Z) by apply Z.log2_nonneg.
  assert (Hld : (0 <= ld)%Z) by apply Z.log2_nonneg.
  assert (HB : (0 < 2 ^ Z.succ ld)%Z) by (apply Z.pow_pos_nonneg; lia).
  assert (H2 : 2 ^ (ln - ld - 1)
               == inject_Z (2 ^ ln) / inject_Z (2 ^ Z.succ ld)).
  { rewrite !Zpower_Qpower by lia. change (inject_Z 2) with 2.
    replace (ln - ld - 1)%Z with (ln + - Z.succ ld)%Z by lia.
    rewrite Qpower_plus by (intros H; discriminate).
    rewrite Qpower_opp. reflexivity. }
  rewrite H2. apply Qle_shift_div_r.
  - change 0 with (inject_Z 0). rewrite <- Zlt_Qlt. exact HB.
  - destruct a as [n d]. unfold Qle, Qmult, inject_Z; simpl in *. nia.
Qed.

Lemma round_half_even_Z q z : q == inject_Z z -> round_half_even q = z.
Proof.
  intros H. unfold round_half_even.
  rewrite (Qfloor_comp _ _ H), Qfloor_Z.
  assert (H0 : q - inject_Z z == 0) by (rewrite H; ring).
  rewrite H0. reflexivity.
Qed.

Lemma round_half_even_pos q : 1 <= q -> (0 < round_half_even q)%Z.
Proof.
  intros H. unfold round_half_even.
  pose proof (Qlt_floor q) as Hf.
  assert (H1 : (1 < Qfloor q + 1)%Z).
  { rewrite Zlt_Qlt. eapply Qle_lt_trans; [exact H | exact Hf]. }
  destruct (q - inject_Z (Qfloor q) ?= 1 # 2); [|lia|lia].
  destruct (Z.even (Qfloor q)); lia.
Qed.

Lemma ulp_pos e : 0 < 2 ^ e.
Proof. apply Qpower_0_lt. reflexivity. Qed.

Lemma mantissa_pos a :
  0 < a -> (0 < round_half_even (a / 2 ^ (exponent a - 52)))%Z.
Proof.
  intros Ha. apply round_half_even_pos.
  apply Qle_shift_div_l; [apply ulp_pos|]. rewrite Qmult_1_l.
  eapply Qle_trans; [|exact (exponent_le a Ha)].
  apply Qpower_le_compat_l; [lia | discriminate].
Qed.

Lemma binary64_pos q : 0 < q -> 0 < binary64 q.
Proof.
  intros Hq. unfold binary64.
  destruct (Qeq_bool q 0) eqn:E0.
  { apply Qeq_bool_iff in E0. rewrite E0 in Hq. discriminate. }
  assert (Hle : Qle_bool 0 q = true) by (apply Qle_bool_iff, Qlt_le_weak, Hq).
  rewrite Hle.
  assert (Ha : 0 < Qabs q) by (rewrite Qabs_pos; [exact Hq | now apply Qlt_le_weak]).
  pose proof (mantissa_pos _ Ha) as Hm.
  apply Qmult_lt_0_compat; [|apply ulp_pos].
  change 0 with (inject_Z 0). now rewrite <- Zlt_Qlt.
Qed.

Lemma binary64_nonpos q : q <= 0 -> binary64 q <= 0.
Proof.
  intros Hq. unfold binary64.
  destruct (Qeq_bool q 0) eqn:E0; [apply Qle_refl|].
  assert (Hne : ~ q == 0).
  { intros H. apply Qeq_bool_iff in H. congruence. }
  assert (Hlt : q < 0).
  { apply Qle_lteq in Hq. destruct Hq; [assumption | contradiction]. }
  assert (Hle : Qle_bool 0 q = false).
  { destruct (Qle_bool 0 q) eqn:E; [|reflexivity].
    apply Qle_bool_iff in E. apply Qle_not_lt in E. contradiction. }
  rewrite Hle.
  assert (Ha : 0 < Qabs q).
  { rewrite Qabs_neg by exact Hq. qlra. }
  pose proof (mantissa_pos _ Ha) as Hm.
  assert (H : 0 < inject_Z (round_half_even (Qabs q / 2 ^ (exponent (Qabs q) - 52)))
                  * 2 ^ (exponent (Qabs q) - 52)).
  { apply Qmult_lt_0_compat; [|apply ulp_pos].
    change 0 with (inject_Z 0). now rewrite <- Zlt_Qlt. }
  qlra.
Qed.

(** A number with a mantissa of at most 53 bits is a double. *)
Lemma binary64_exact q j p :
  (Z.abs j < 2 ^ 53)%Z -> q == inject_Z j * 2 ^ p -> binary64 q == q.
Proof.
  intros Hj Hq. unfold binary64.
  destruct (Qeq_bool q 0) eqn:E0.
  { apply Qeq_bool_iff in E0. now rewrite E0. }
  assert (Hne : ~ q == 0).
  { intros H. apply Qeq_bool_iff in H. congruence. }
  set (a := Qabs q).
  assert (Ha : 0 < a).
  { unfold a. destruct (Qlt_le_dec 0 q) as [H|H].
    - rewrite Qabs_pos; [exact H | now apply Qlt_le_weak].
    - rewrite Qabs_neg by exact H.
      apply Qle_lteq in H. destruct H as [H|H]; [qlra | contradiction]. }
  assert (Haj : a == inject_Z (Z.abs j) * 2 ^ p).
  { unfold a. rewrite Hq, Qabs_Qmult.
    rewrite (Qabs_pos (2 ^ p)) by (apply Qlt_le_weak, ulp_pos).
    apply Qmult_comp; [|reflexivity].
    unfold Qabs, inject_Z; simpl. reflexivity. }
  set (e := exponent a).
  pose proof (exponent_le a Ha) as He. fold e in He.
  assert (Hlt : 2 ^ e < 2 ^ (53 + p)).
  { eapply Qle_lt_trans; [exact He|]. rewrite Haj.
    rewrite Qpower_plus by (intros H; discriminate).
    apply Qmult_lt_compat_r; [apply ulp_pos|].
    change (2 ^ 53) with (inject_Z (2 ^ 53)). now rewrite <- Zlt_Qlt. }
  apply Qpower_lt_compat_l_inv in Hlt; [|reflexivity].
  set (k := (p - (e - 52))%Z).
  assert (Hk : (0 <= k)%Z) by (unfold k; lia).
  assert (Hm : a / 2 ^ (e - 52) == inject_Z (Z.abs j * 2 ^ k)).
  { rewrite Haj, inject_Z_mult, Zpower_Qpower by exact Hk.
    change (inject_Z 2) with 2. unfold k.
    replace (p - (e - 52))%Z with (p + - (e - 52))%Z by lia.
    rewrite Qpower_plus by (intros H; discriminate).
    rewrite Qpower_opp. unfold Qdiv. ring. }
  rewrite (round_half_even_Z _ _ Hm).
  assert (Hback : inject_Z (Z.abs j * 2 ^ k) * 2 ^ (e - 52) == a).
  { rewrite <- Hm. field. intros H.
    pose proof (ulp_pos (e - 52)) as Hu. rewrite H in Hu. discriminate. }
  fold a. fold e.
  destruct (Qle_bool 0 q) eqn:El; rewrite Hback; unfold a.
  - apply Qle_bool_iff in El. now apply Qabs_pos.
  - assert (Hq0 : q <= 0).
    { destruct (Qlt_le_dec 0 q) as [H|H]; [|exact H].
      apply Qlt_le_weak, Qle_bool_iff in H. congruence. }
    rewrite Qabs_neg by exact Hq0. ring.
Qed.

(** Over bounds that are whole numbers of half nanometres the doubles of
    [numpy.arange] are exact. *)
Lemma arange_count start stop step :
  length (arange start stop step)
  = Z.to_nat (Qceiling (binary64 (binary64 (stop - start) / step))).
Proof. unfold arange. now rewrite length_map, length_seq. Qed.

Lemma arange_empty start stop :
  stop <= start -> arange start stop (1 # 2) = [].
Proof.
  intros H. apply length_zero_iff_nil. rewrite arange_count.
  assert (H1 : binary64 (stop - start) <= 0) by (apply binary64_nonpos; qlra).
  assert (H2 : binary64 (binary64 (stop - start) / (1 # 2)) <= 0).
  { apply binary64_nonpos.
    setoid_replace (binary64 (stop - start) / (1 # 2))
      with (2 * binary64 (stop - start)) by field. qlra. }
  pose proof (Qceiling_lt (binary64 (binary64 (stop - start) / (1 # 2)))) as Hc.
  assert (Hz : (Qceiling (binary64 (binary64 (stop - start) / (1 # 2))) - 1 < 0)%Z).
  { rewrite Zlt_Qlt. eapply Qlt_le_trans; [exact Hc | exact H2]. }
  lia.
Qed.

Lemma arange_first start stop :
  start < stop -> exists xs, arange start stop (1 # 2) = start :: xs.
Proof.
  intros H.
  assert (H1 : 0 < binary64 (stop - start)) by (apply binary64_pos; qlra).
  assert (H2 : 0 < binary64 (binary64 (stop - start) / (1 # 2))).
  { apply binary64_pos.
    setoid_replace (binary64 (stop - start) / (1 # 2))
      with (2 * binary64 (stop - start)) by field. qlra. }
  pose proof (Qle_ceiling (binary64 (binary64 (stop - start) / (1 # 2)))) as Hc.
  assert (Hz : (0 < Qceiling (binary64 (binary64 (stop - start) / (1 # 2))))%Z).
  { rewrite Zlt_Qlt. eapply Qlt_le_trans; [exact H2 | exact Hc]. }
  unfold arange.
  destruct (Z.to_nat _) as [|n] eqn:E; [lia|].
  simpl. eexists. reflexivity.
Qed.

Lemma half_exact j :
  (Z.abs j < 2 ^ 53)%Z -> forall q, q == inject_Z j * (1 # 2) -> binary64 q == q.
Proof. intros Hj q Hq. exact (binary64_exact q j (-1) Hj Hq). Qed.

Lemma arange_half_nm start stop :
  half_nm start -> half_nm stop ->
  (forall k : nat,
     (k < length (arange start stop (1 # 2)))%nat
     <-> start + inject_Z (Z.of_nat k) * (1 # 2) < stop)
  /\ (forall k x,
        nth_error (arange start stop (1 # 2)) k = Some x ->
        x == start + inject_Z (Z.of_nat k) * (1 # 2)).
Proof.
  intros (a & Ha & Hstart) (b & Hb & Hstop).
  assert (P51 : (2 ^ 51 = 2251799813685248)%Z) by reflexivity.
  assert (P53 : (2 ^ 53 = 9007199254740992)%Z) by reflexivity.
  assert (Hd : binary64 (stop - start) == stop - start).
  { apply (half_exact (b - a)); [lia|].
    rewrite Hstart, Hstop. unfold Zminus. rewrite inject_Z_plus, inject_Z_opp.
    ring. }
  assert (Hq : binary64 (binary64 (stop - start) / (1 # 2))
               == inject_Z (b - a)).
  { assert (E : binary64 (stop - start) / (1 # 2) == inject_Z (b - a) * 2 ^ 0).
    { rewrite Hd, Hstart, Hstop. unfold Zminus.
      rewrite inject_Z_plus, inject_Z_opp. simpl. field. }
    rewrite (binary64_exact _ (b - a) 0 ltac:(lia) E), E. simpl. ring. }
  assert (Hlen : length (arange start stop (1 # 2)) = Z.to_nat (b - a)).
  { rewrite arange_count, (Qceiling_comp _ _ Hq), Qceiling_Z. reflexivity. }
  assert (Hiff : forall k : nat,
            (k < Z.to_nat (b - a))%nat
            <-> start + inject_Z (Z.of_nat k) * (1 # 2) < stop).
  { intros k. rewrite Hstart, Hstop. split; intros H.
    - assert (Hz : (a + Z.of_nat k < b)%Z) by lia.
      rewrite Zlt_Qlt, inject_Z_plus in Hz. qlra.
    - assert (Hz : (a + Z.of_nat k < b)%Z).
      { rewrite Zlt_Qlt, inject_Z_plus. qlra. }
      lia. }
  split.
  - intros k. rewrite Hlen. apply Hiff.
  - intros k x Hk.
    assert (Hkl : (k < Z.to_nat (b - a))%nat).
    { rewrite <- Hlen. apply nth_error_Some. congruence. }
    unfold arange in Hk. rewrite nth_error_map in Hk.
    destruct (nth_error (seq 0 _) k) as [i|] eqn:Ei; [|discriminate].
    apply nth_error_In in Ei as Hin. apply in_seq in Hin.
    rewrite nth_error_seq in Ei.
    destruct (k <? _)%nat; [|discriminate].
    injection Ei as <-. simpl in Hk. injection Hk as <-.
    assert (Hnext : binary64 (start + (1 # 2)) == start + (1 # 2)).
    { apply (half_exact (a + 1)); [lia|].
      rewrite Hstart, inject_Z_plus. simpl. ring. }
    destruct k as [|[|k]].
    + simpl. ring.
    + rewrite Hnext. simpl. ring.
    + set (i := S (S k)) in *.
      assert (Hdelta : binary64 (binary64 (start + (1 # 2)) - start) == 1 # 2).
      { assert (E : binary64 (start + (1 # 2)) - start == inject_Z 1 * (1 # 2)).
        { rewrite Hnext. simpl. ring. }
        rewrite (half_exact 1 ltac:(lia) _ E), E. reflexivity. }
      assert (Hprod : binary64 (inject_Z (Z.of_nat i)
                                * binary64 (binary64 (start + (1 # 2)) - start))
                      == inject_Z (Z.of_nat i) * (1 # 2)).
      { assert (E : inject_Z (Z.of_nat i)
                    * binary64 (binary64 (start + (1 # 2)) - start)
                    == inject_Z (Z.of_nat i) * (1 # 2)).
        { now rewrite Hdelta. }
        rewrite (half_exact (Z.of_nat i) ltac:(lia) _ E), E. reflexivity. }
      assert (E : start + binary64 (inject_Z (Z.of_nat i)
                            * binary64 (binary64 (start + (1 # 2)) - start))
                  == inject_Z (a + Z.of_nat i) * (1 # 2)).
      { rewrite Hprod, Hstart, inject_Z_plus. ring. }
      rewrite (half_exact (a + Z.of_nat i) ltac:(lia) _ E), E.
      rewrite Hstart, inject_Z_plus. ring.
Qed.

Lemma fold_left_Rmax_ge ys : forall y0, (y0 <= fold_left Rmax ys y0)%R.
Proof.
  induction ys as [|y ys IH]; intros y0; simpl; [rlra|].
  eapply Rle_trans; [apply (Rmax_l y0 y) | apply IH].
Qed.

Lemma fold_left_Rmax_scale c ys : (0 <= c)%R -> forall y0,
  fold_left Rmax (map (fun y => (y * c)%R) ys) (y0 * c)%R
  = (fold_left Rmax ys y0 * c)%R.
Proof.
  intros Hc. induction ys as [|y ys IH]; intros y0; simpl; [reflexivity|].
  rewrite <- IH. f_equal.
  rewrite (Rmult_comm y0 c), (Rmult_comm y c), (Rmult_comm (Rmax y0 y) c).
  now apply RmaxRmult.
Qed.

(** Dividing a curve by its positive maximum leaves a maximum of one. *)
Lemma array_max_normalized ys m :
  array_max ys = Ok m -> (0 < m)%R ->
  array_max (map (fun y => (y / m)%R) ys) = Ok 1%R.
Proof.
  destruct ys as [|y0 ys]; simpl; [discriminate|].
  intros H Hm; injection H as Hmax.
  change (Ok (fold_left Rmax (map (fun y => (y * / m)%R) ys) (y0 * / m)%R)
          = Ok 1%R).
  rewrite fold_left_Rmax_scale, Hmax.
  - f_equal. field. rlra.
  - left. now apply Rinv_0_lt_compat.
Qed.

Lemma array_max_nonneg ys m :
  Forall (fun y => (0 <= y)%R) ys -> array_max ys = Ok m -> (0 <= m)%R.
Proof.
  destruct 1 as [|y0 ys H0 _]; simpl; [discriminate|].
  intros H; inversion H. eapply Rle_trans; [exact H0|].
  apply fold_left_Rmax_ge.
Qed.

Lemma fold_left_Rmax_upper ys : forall y0 y,
  y = y0 \/ In y ys -> (y <= fold_left Rmax ys y0)%R.
Proof.
  induction ys as [|y1 ys IH]; intros y0 y [ -> | Hin]; simpl.
  - rlra.
  - destruct Hin.
  - eapply Rle_trans; [apply (Rmax_l y0 y1) | apply fold_left_Rmax_ge].
  - destruct Hin as [->|Hin].
    + eapply Rle_trans; [apply (Rmax_r y0 y) | apply fold_left_Rmax_ge].
    + apply IH. now right.
Qed.

Lemma array_max_upper ys m y :
  array_max ys = Ok m -> In y ys -> (y <= m)%R.
Proof.
  destruct ys as [|y0 ys]; simpl; [discriminate|].
  intros H Hin; injection H as <-.
  apply fold_left_Rmax_upper. destruct Hin; auto.
Qed.

Lemma make_spectrum_values excited_states start_l end_l normalized e2f :
  Forall (fun es => ~ es_l es == 0) excited_states ->
  make_spectrum excited_states start_l end_l normalized e2f
  = (let ys := curve_values excited_states start_l end_l in
     let ys := if e2f then map (fun y => (y / E2F)%R) ys else ys in
     ys' <- (if normalized
             then (m <- array_max ys ;; Ok (map (fun y => (y / m)%R) ys))
             else Ok ys) ;;
     Ok (combine (arange start_l end_l (1 # 2)) ys',
         map (fun es => (es_f es, es_l es)) excited_states))%py.
Proof.
  intros Hl. unfold make_spectrum, curve_values.
  rewrite (mapM_Ok_map _
             (fun l => Rsum (map (fun es => band_value l (es_f es) (es_l es))
                               excited_states))).
  - reflexivity.
  - intros l _.
    rewrite (mapM_Ok_map _ (fun fl => band_value l (fst fl) (snd fl))).
    + cbn [bind]. now rewrite map_map.
    + intros fl Hin. apply gauss_uv_band_Ok.
      apply in_map_iff in Hin as (es & <- & Hes).
      rewrite Forall_forall in Hl. now apply Hl.
Qed.

Lemma Q2R_0 : Q2R 0 = 0%R.
Proof. unfold Q2R; simpl. rlra. Qed.

Lemma Rsum_spec_sum {A : Type} (g : A -> R) (xs : list A) :
  forall h : nat -> R,
    (forall i x, nth_error xs i = Some x -> g x = h i) ->
    Rsum (map g xs) = spec_sum (length xs) h.
Proof.
  induction xs as [|x xs IH]; intros h Hh; [reflexivity|].
  cbn [map Rsum fold_right]. rewrite (Hh 0%nat x eq_refl).
  change (fold_right Rplus 0%R (map g xs)) with (Rsum (map g xs)).
  rewrite (IH (fun i => h (S i))) by (intros i y Hy; exact (Hh (S i) y Hy)).
  destruct xs as [|x' xs]; cbn [length spec_sum].
  - cbn [sum_f_R0]. rlra.
  - rewrite (decomp_sum h (S (length xs))) by lia. reflexivity.
Qed.

Lemma fold_left_Rmax_In ys : forall y0,
  fold_left Rmax ys y0 = y0 \/ In (fold_left Rmax ys y0) ys.
Proof.
  induction ys as [|y ys IH]; intros y0; simpl; [now left|].
  destruct (IH (Rmax y0 y)) as [H|H]; [|now right; right].
  rewrite H. unfold Rmax. destruct (Rle_dec y0 y); auto.
Qed.

(** [numpy.ndarray.max] returns the maximum, and raises on no value. *)
Lemma array_max_is_maximum ys m : array_max ys = Ok m <-> is_maximum m ys.
Proof.
  split.
  - intros H. split; [|intros y Hy; exact (array_max_upper ys m y H Hy)].
    destruct ys as [|y0 ys]; [discriminate|].
    injection H as <-.
    destruct (fold_left_Rmax_In ys y0) as [-> | Hin]; [now left | now right].
  - intros [Hin Hup]. destruct ys as [|y0 ys]; [destruct Hin|].
    pose (m' := fold_left Rmax ys y0).
    assert (Hm' : array_max (y0 :: ys) = Ok m') by reflexivity.
    assert (Hin' : In m' (y0 :: ys)).
    { destruct (fold_left_Rmax_In ys y0) as [H | H];
        [left; symmetry; exact H | right; exact H]. }
    pose proof (array_max_upper _ _ _ Hm' Hin) as H1.
    pose proof (Hup m' Hin') as H2.
    rewrite Hm'. f_equal. rlra.
Qed.

(** C8.  For states of nonzero wavelength and bounds that are whole
    numbers of half nanometres, the unnormalised call returns the curve
    over the sample points [start + k/2], [k = 0, 1, ...], that lie below
    [end], in order; at each sample point other than zero the value is the
    sum over the states of the band of the description; and when no
    oscillator strength is negative and the maximum of that curve is not
    zero, the normalised call returns the curve divided by it, whose
    maximum is one. *)
Theorem make_spectrum_spec (excited_states : list ExcitedState)
  (start_l end_l : Q) :
  Forall (fun es => ~ es_l es == 0) excited_states ->
  half_nm start_l -> half_nm end_l ->
  exists xs ys,
    make_spectrum excited_states start_l end_l false false
    = Ok (combine xs ys,
          map (fun es => (es_f es, es_l es)) excited_states)
    /\ length ys = length xs
    /\ (forall k : nat,
          (k < length xs)%nat
          <-> start_l + inject_Z (Z.of_nat k) * (1 # 2) < end_l)
    /\ (forall k x,
          nth_error xs k = Some x ->
          x == start_l + inject_Z (Z.of_nat k) * (1 # 2))
    /\ (forall k x y,
          nth_error xs k = Some x -> nth_error ys k = Some y ->
          ~ x == 0 ->
          y = spec_sum (length excited_states)
                (spec_band_of excited_states x))
    /\ (Forall (fun es => 0 <= es_f es) excited_states ->
        forall m, is_maximum m ys -> m <> 0%R ->
          make_spectrum excited_states start_l end_l true false
          = Ok (combine xs (map (fun y => (y / m)%R) ys),
                map (fun es => (es_f es, es_l es)) excited_states)
          /\ is_maximum 1 (map (fun y => (y / m)%R) ys)).
Proof.
  intros Hl Hstart Hend.
  destruct (arange_half_nm start_l end_l Hstart Hend) as [Hcount Hpoint].
  set (xs := arange start_l end_l (1 # 2)) in *.
  set (val := fun l : Q =>
         Rsum (map (fun es => band_value l (es_f es) (es_l es))
                 excited_states)).
  assert (Hrun : forall normalized,
    make_spectrum excited_states start_l end_l normalized false
    = (ys' <- (if normalized
               then (m <- array_max (map val xs) ;;
                     Ok (map (fun y => (y / m)%R) (map val xs)))
               else Ok (map val xs)) ;;
       Ok (combine xs ys',
           map (fun es => (es_f es, es_l es)) excited_states))%py).
  { intros normalized. now rewrite make_spectrum_values by exact Hl. }
  exists xs, (map val xs).
  split; [|split; [|split; [|split; [|split]]]].
  - now rewrite Hrun.
  - apply length_map.
  - exact Hcount.
  - exact Hpoint.
  - intros k x y Hx Hy Hx0.
    rewrite nth_error_map, Hx in Hy. injection Hy as <-.
    unfold val. apply Rsum_spec_sum. intros i es Hes.
    unfold spec_band_of. rewrite Hes.
    apply band_value_spec; [exact Hx0|].
    rewrite Forall_forall in Hl. apply Hl.
    exact (nth_error_In excited_states i Hes).
  - intros Hf m Hmax Hm0.
    apply array_max_is_maximum in Hmax.
    assert (Hpos : Forall (fun y => (0 <= y)%R) (map val xs)).
    { apply Forall_forall. intros y Hy.
      apply in_map_iff in Hy as (l & <- & _). unfold val.
      apply Rsum_nonneg, Forall_forall. intros b Hb.
      apply in_map_iff in Hb as (es & <- & Hes).
      apply band_value_nonneg.
      rewrite Forall_forall in Hf. now apply Hf. }
    pose proof (array_max_nonneg _ _ Hpos Hmax) as Hm1.
    split.
    + rewrite Hrun. cbn [bind]. rewrite Hmax. reflexivity.
    + apply array_max_is_maximum.
      apply array_max_normalized; [exact Hmax | rlra].
Qed.

Lemma spec_band_pos l f l_i : (0 < f)%R -> (0 < spec_band l f l_i)%R.
Proof.
  intros Hf. unfold spec_band.
  apply Rmult_lt_0_compat; [|apply exp_pos].
  apply Rmult_lt_0_compat; [|apply Rinv_0_lt_compat]; rlra.
Qed.

(** The sample points over [413, 414): 413 and 413.5. *)
Lemma arange_413_414 :
  exists x1, arange 413 414 (1 # 2) = [413; x1] /\ x1 == 827 # 2.
Proof. eexists. split; [vm_compute; reflexivity | reflexivity]. Qed.

Lemma make_spectrum_spec_witness :
  exists xs ys m,
    make_spectrum [state_3eV] 413 414 false false
    = Ok (combine xs ys,
          map (fun es => (es_f es, es_l es)) [state_3eV])
    /\ length xs = 2%nat
    /\ is_maximum m ys /\ m <> 0%R
    /\ make_spectrum [state_3eV] 413 414 true false
       = Ok (combine xs (map (fun y => (y / m)%R) ys),
             map (fun es => (es_f es, es_l es)) [state_3eV])
    /\ is_maximum 1 (map (fun y => (y / m)%R) ys).
Proof.
  destruct (make_spectrum_spec [state_3eV] 413 414)
    as (xs & ys & Hrun & Hlen & Hcount & Hpoint & Hval & Hnorm).
  { repeat constructor. intros H; vm_compute in H; discriminate. }
  { exists 826%Z. split; [vm_compute; discriminate | reflexivity]. }
  { exists 828%Z. split; [vm_compute; discriminate | reflexivity]. }
  assert (H1 : (1 < length xs)%nat) by (apply Hcount; reflexivity).
  assert (H2 : ~ (2 < length xs)%nat).
  { intros H. apply Hcount in H. vm_compute in H. discriminate. }
  destruct xs as [|x0 [|x1 [|x2 xs]]]; simpl in H1, H2; try lia.
  destruct ys as [|y0 [|y1 [|y2 ys]]]; try discriminate.
  assert (Hx0 : x0 == 413) by (rewrite (Hpoint 0%nat x0 eq_refl); reflexivity).
  assert (Hy0 : (0 < y0)%R).
  { rewrite (Hval 0%nat x0 y0 eq_refl eq_refl).
    - simpl. apply spec_band_pos. unfold Q2R; simpl. rlra.
    - rewrite Hx0. intros H; vm_compute in H; discriminate. }
  assert (Hm : (0 < Rmax y0 y1)%R).
  { eapply Rlt_le_trans; [exact Hy0 | apply Rmax_l]. }
  assert (Hmax : is_maximum (Rmax y0 y1) [y0; y1]).
  { apply array_max_is_maximum. reflexivity. }
  exists [x0; x1], [y0; y1], (Rmax y0 y1).
  split; [exact Hrun|]. split; [reflexivity|]. split; [exact Hmax|].
  split; [rlra|].
  apply (Hnorm ltac:(repeat constructor; vm_compute; discriminate)
               (Rmax y0 y1) Hmax).
  rlra.
Defined.

(** A band of negative oscillator strength is negative, and the more so
    the larger its exponential. *)
Lemma band_value_negative l l' f l_i :
  ~ l == 0 -> ~ l' == 0 -> f < 0 ->
  - ((1 / l - 1 / l_i) / (1 / (30996 # 10))) ^ 2
  < - ((1 / l' - 1 / l_i) / (1 / (30996 # 10))) ^ 2 ->
  (band_value l' f l_i < band_value l f l_i < 0)%R.
Proof.
  intros Hl Hl' Hf Hlt. unfold band_value.
  rewrite (Qeq_bool_false l Hl), (Qeq_bool_false l' Hl').
  set (c := Q2R (130629740 * f / (10000000 / (30996 # 10)))).
  assert (Hc : (c < 0)%R).
  { unfold c. rewrite <- Q2R_0. apply Qlt_Rlt.
    setoid_replace (130629740 * f / (10000000 / (30996 # 10)))
      with (f * (130629740 * (30996 # 10) / 10000000)) by field.
    setoid_replace 0 with (0 * (130629740 * (30996 # 10) / 10000000))
      by ring.
    apply Qmult_lt_compat_r; [reflexivity | exact Hf]. }
  apply Qlt_Rlt, exp_increasing in Hlt.
  split.
  - apply Rmult_lt_gt_compat_neg_l; assumption.
  - pose proof (exp_pos
      (Q2R (- ((1 / l - 1 / l_i) / (1 / (30996 # 10))) ^ 2))) as He.
    Lra.nra.
Qed.

(** C8 fails as stated.  A state of wavelength zero makes the call raise;
    with a negative oscillator strength the normalised curve has a value
    above one; and between the doubles written [255.6] and [256.1] the
    rounded quotient [(256.1 - 255.6) / 0.5] is above one, so that
    [numpy.arange] gives a second sample point, [256.1] itself, which is
    not below the end of the interval: the curve has two points where
    [[255.6, 256.1)] holds one step. *)
Lemma make_spectrum_counterexample :
  make_spectrum [state_0nm] 413 414 false false = Raise ZeroDivisionError
  /\ (exists xs zs z,
        make_spectrum [state_negative] 413 414 true false
        = Ok (combine xs zs,
              map (fun es => (es_f es, es_l es)) [state_negative])
        /\ In z zs /\ (1 < z)%R)
  /\ (exists curve x y,
        make_spectrum [state_3eV] l_255_6 l_256_1 false false
        = Ok (curve, map (fun es => (es_f es, es_l es)) [state_3eV])
        /\ length curve = 2%nat
        /\ nth_error curve 1 = Some (x, y)
        /\ l_256_1 <= x).
Proof.
  split; [|split].
  - unfold make_spectrum. destruct arange_413_414 as (x1 & -> & _).
    reflexivity.
  - rewrite make_spectrum_values
      by (repeat constructor; intros H; vm_compute in H; discriminate).
    unfold curve_values. destruct arange_413_414 as (x1 & -> & Hx1).
    cbn [map Rsum fold_right es_f es_l state_negative new_state].
    set (y0 := (band_value 413 (- (1 # 10)) (41328 # 100) + 0)%R).
    set (y1 := (band_value x1 (- (1 # 10)) (41328 # 100) + 0)%R).
    assert (Hy : (y1 < y0 < 0)%R).
    { unfold y0, y1. rewrite !Rplus_0_r. apply band_value_negative.
      - intros H; vm_compute in H; discriminate.
      - rewrite Hx1. intros H; vm_compute in H; discriminate.
      - reflexivity.
      - rewrite Hx1. reflexivity. }
    assert (Hmax : array_max [y0; y1] = Ok y0).
    { simpl. f_equal. apply Rmax_left. rlra. }
    cbv zeta iota. rewrite Hmax. cbn [bind map].
    exists [413; x1], [(y0 / y0)%R; (y1 / y0)%R], (y1 / y0)%R.
    split; [reflexivity|]. split; [right; left; reflexivity|].
    assert (Hi : (/ y0 < 0)%R) by (apply Rinv_lt_0_compat; rlra).
    assert (Hone : (y0 * / y0 = 1)%R) by (apply Rinv_r; rlra).
    unfold Rdiv. Lra.nra.
  - rewrite make_spectrum_values
      by (repeat constructor; intros H; vm_compute in H; discriminate).
    unfold curve_values.
    assert (E : exists x1, arange l_255_6 l_256_1 (1 # 2) = [l_255_6; x1]
                           /\ l_256_1 <= x1).
    { eexists. split; [vm_compute; reflexivity|].
      intros H; vm_compute in H; discriminate. }
    destruct E as (x1 & -> & Hx1).
    cbv zeta iota. cbn [bind map combine].
    do 3 eexists. split; [reflexivity|]. split; [reflexivity|].
    split; [reflexivity | exact Hx1].
Qed.

(** * Further properties *)

(** *** Suppression as a filter *)

Lemma to_del_is_removed thresh t b :
  to_del thresh t = Ok b -> is_removed thresh t = b.
Proof. unfold is_removed. now intros ->. Qed.

Lemma to_del_suppressible thresh t :
  suppressible t -> to_del thresh t = Ok (is_removed thresh t).
Proof.
  intros H. unfold is_removed, to_del, suppressible in *.
  destruct (contrib t) as [c|].
  - destruct (truthy (Some c)); [reflexivity|].
    destruct (H eq_refl) as [ci ->]. reflexivity.
  - destruct (H eq_refl) as [ci ->]. reflexivity.
Qed.

Lemma to_del_Ok_suppressible thresh t b :
  to_del thresh t = Ok b -> suppressible t.
Proof.
  unfold to_del, suppressible. destruct (contrib t) as [c|].
  - destruct (truthy (Some c)); [discriminate|].
    destruct (ci_coeff t); [eauto | discriminate].
  - destruct (ci_coeff t); [eauto | discriminate].
Qed.

(** Whether the first loop raises does not depend on the threshold. *)
Lemma to_del_raise thresh thresh' t e :
  to_del thresh t = Raise e -> to_del thresh' t = Raise e.
Proof.
  unfold to_del. destruct (contrib t) as [c|].
  - destruct (truthy (Some c)); [discriminate|].
    destruct (ci_coeff t); [discriminate | auto].
  - destruct (ci_coeff t); [discriminate | auto].
Qed.

Lemma mapM_to_del_Ok thresh ts marks :
  mapM (to_del thresh) ts = Ok marks ->
  Forall suppressible ts
  /\ remove_marked ts marks
     = filter (fun t => negb (is_removed thresh t)) ts.
Proof.
  revert marks; induction ts as [|t ts IH]; simpl; intros marks H.
  - inversion H; subst. split; [constructor | reflexivity].
  - destruct (to_del thresh t) as [b|] eqn:E; simpl in H; try discriminate.
    destruct (mapM (to_del thresh) ts) as [ms|] eqn:E2; simpl in H;
      try discriminate.
    inversion H; subst. destruct (IH ms eq_refl) as [Hs Hf].
    split; [constructor; eauto using to_del_Ok_suppressible|].
    rewrite (to_del_is_removed _ _ _ E). simpl.
    destruct b; simpl; now rewrite Hf.
Qed.

Lemma mapM_to_del_suppressible thresh ts :
  Forall suppressible ts ->
  mapM (to_del thresh) ts = Ok (map (is_removed thresh) ts).
Proof.
  induction 1 as [|t ts Ht _ IH]; simpl; [reflexivity|].
  now rewrite (to_del_suppressible thresh t Ht), IH.
Qed.

Lemma mapM_to_del_raise thresh thresh' ts e :
  mapM (to_del thresh) ts = Raise e -> mapM (to_del thresh') ts = Raise e.
Proof.
  induction ts as [|t ts IH]; simpl; [discriminate|].
  destruct (to_del thresh t) as [b|e0] eqn:E; simpl.
  - rewrite (to_del_suppressible thresh' t (to_del_Ok_suppressible _ _ _ E)).
    simpl. destruct (mapM (to_del thresh) ts) as [ms|e1]; simpl;
      [discriminate|].
    intros H; inversion H; subst. now rewrite (IH eq_refl).
  - intros H; inversion H; subst.
    now rewrite (to_del_raise thresh thresh' t e E).
Qed.

Lemma suppress_low_ci_coeffs_filter thresh s :
  Forall suppressible (mo_transitions s) ->
  suppress_low_ci_coeffs thresh s
  = Ok (set_mo_transitions s
          (filter (fun t => negb (is_removed thresh t)) (mo_transitions s))).
Proof.
  intros H. unfold suppress_low_ci_coeffs.
  rewrite (mapM_to_del_suppressible thresh _ H). cbn [bind].
  destruct (mapM_to_del_Ok thresh _ _ (mapM_to_del_suppressible thresh _ H))
    as [_ ->]. reflexivity.
Qed.


(** In exact arithmetic the cutoff is [thresh ^ 2 * 2]. *)
Lemma suppress_low_ci_coeffs_at_exact thresh s :
  suppress_low_ci_coeffs_at (thresh ^ 2 * 2) thresh s
  = suppress_low_ci_coeffs thresh s.
Proof. reflexivity. Qed.





Lemma filter_filter_sub {A} (p q : A -> bool) xs :
  (forall x, In x xs -> q x = true -> p x = true) ->
  filter q (filter p xs) = filter q xs.
Proof.
  induction xs as [|x xs IH]; simpl; intros H; [reflexivity|].
  destruct (p x) eqn:Ep; simpl.
  - destruct (q x); rewrite IH; auto.
  - destruct (q x) eqn:Eq.
    + rewrite (H x (or_introl eq_refl) Eq) in Ep. discriminate.
    + apply IH; auto.
Qed.

Lemma Forall_filter {A} (P : A -> Prop) (p : A -> bool) xs :
  Forall P xs -> Forall P (filter p xs).
Proof.
  induction 1 as [|x xs Hx _ IH]; simpl; [constructor|].
  destruct (p x); [constructor|]; auto.
Qed.

Lemma suppress_twice thresh thresh' s :
  (forall t, In t (mo_transitions s) -> suppressible t ->
             is_removed thresh t = true -> is_removed thresh' t = true) ->
  (s1 <- suppress_low_ci_coeffs thresh s ;;
   suppress_low_ci_coeffs thresh' s1)
  = suppress_low_ci_coeffs thresh' s.
Proof.
  intros Hmono. unfold suppress_low_ci_coeffs at 1 3.
  destruct (mapM (to_del thresh) (mo_transitions s)) as [marks|e] eqn:E;
    cbn [bind].
  - destruct (mapM_to_del_Ok _ _ _ E) as [Hs Hf].
    rewrite (mapM_to_del_suppressible thresh' _ Hs). cbn [bind].
    destruct (mapM_to_del_Ok thresh' _ _
                (mapM_to_del_suppressible thresh' _ Hs)) as [_ ->].
    rewrite Hf.
    rewrite suppress_low_ci_coeffs_filter
      by (apply Forall_filter; exact Hs).
    unfold set_mo_transitions; simpl. do 2 f_equal.
    apply filter_filter_sub. intros t Ht Hq.
    rewrite Forall_forall in Hs.
    destruct (is_removed thresh t) eqn:Er; [|reflexivity].
    rewrite (Hmono t Ht (Hs t Ht) Er) in Hq. discriminate.
  - now rewrite (mapM_to_del_raise thresh thresh' _ e E).
Qed.

(** X2.  Suppressing twice with one threshold gives what suppressing once
    gives, an exception included. *)
Theorem suppress_low_ci_coeffs_idempotent (thresh : Q) (s : ExcitedState) :
  (s1 <- suppress_low_ci_coeffs thresh s ;;
   suppress_low_ci_coeffs thresh s1)
  = suppress_low_ci_coeffs thresh s.
Proof. apply suppress_twice. auto. Qed.

Lemma is_removed_mono thresh thresh' t :
  0 <= thresh -> thresh <= thresh' ->
  is_removed thresh t = true -> is_removed thresh' t = true.
Proof.
  intros H0 Hle. unfold is_removed, to_del.
  assert (Hsq : thresh ^ 2 * 2 <= thresh' ^ 2 * 2).
  { change (thresh * thresh * 2 <= thresh' * thresh' * 2). Lqa.nra. }
  destruct (contrib t) as [c|].
  - destruct (truthy (Some c)).
    + intros H. apply Qle_bool_iff in H. apply Qle_bool_iff.
      eapply Qle_trans; eauto.
    + destruct (ci_coeff t) as [ci|]; [|discriminate].
      intros H. apply Qle_bool_iff in H. apply Qle_bool_iff.
      eapply Qle_trans; eauto.
  - destruct (ci_coeff t) as [ci|]; [|discriminate].
    intros H. apply Qle_bool_iff in H. apply Qle_bool_iff.
    eapply Qle_trans; eauto.
Qed.

(** X3.  For thresholds [0 <= thresh <= thresh'], suppressing with the
    smaller and then with the larger gives what suppressing with the larger
    alone gives: raising the threshold only removes more. *)
Theorem suppress_low_ci_coeffs_monotone (thresh thresh' : Q)
  (s : ExcitedState) :
  0 <= thresh -> thresh <= thresh' ->
  (s1 <- suppress_low_ci_coeffs thresh s ;;
   suppress_low_ci_coeffs thresh' s1)
  = suppress_low_ci_coeffs thresh' s.
Proof.
  intros H0 Hle. apply suppress_twice.
  intros t _ _. now apply is_removed_mono.
Qed.

Lemma suppress_low_ci_coeffs_monotone_witness :
  (s1 <- suppress_low_ci_coeffs (1 # 10) paired_state ;;
   suppress_low_ci_coeffs (1 # 5) s1)
  = suppress_low_ci_coeffs (1 # 5) paired_state.
Proof.
  apply suppress_low_ci_coeffs_monotone.
  - vm_compute; discriminate.
  - vm_compute; discriminate.
Defined.

Lemma mapM_raise_all {A B} (g : A -> result B) e xs :
  (forall x b, In x xs -> g x = Raise b -> b = e) ->
  (exists x, In x xs /\ g x = Raise e) ->
  mapM g xs = Raise e.
Proof.
  induction xs as [|x xs IH]; intros Hall (x0 & Hin & Hx0); [destruct Hin|].
  simpl. destruct (g x) as [y|b] eqn:E; simpl.
  - destruct Hin as [->|Hin]; [congruence|].
    rewrite IH; [reflexivity | | exists x0; auto].
    intros x1 b Hx1 Hb. apply (Hall x1 b (or_intror Hx1) Hb).
  - f_equal. apply (Hall x b (or_introl eq_refl) E).
Qed.

(** X4.  A transition whose contribution is unset or zero and whose
    coefficient is a string, as [parse_ricc2] stores the coefficient
    column, makes the suppression raise a [TypeError] whatever the
    threshold. *)
Theorem suppress_low_ci_coeffs_string_coeff (thresh : Q) (s : ExcitedState)
  (t : MOTransition) (c : string) :
  In t (mo_transitions s) -> truthy (contrib t) = false ->
  ci_coeff t = PyStr c ->
  suppress_low_ci_coeffs thresh s = Raise TypeError.
Proof.
  intros Hin Hc Hs. unfold suppress_low_ci_coeffs.
  rewrite (mapM_raise_all (to_del thresh) TypeError); [reflexivity| |].
  - intros x b _. unfold to_del.
    destruct (contrib x) as [cx|].
    + destruct (truthy (Some cx)); [discriminate|].
      destruct (ci_coeff x); [discriminate | congruence].
    + destruct (ci_coeff x); [discriminate | congruence].
  - exists t. split; [exact Hin|]. unfold to_del.
    destruct (contrib t) as [ct|]; rewrite ?Hc, Hs; reflexivity.
Qed.

Lemma suppress_low_ci_coeffs_string_coeff_witness :
  suppress_low_ci_coeffs (1 # 5) ricc2_zero_percent = Raise TypeError.
Proof.
  eapply (suppress_low_ci_coeffs_string_coeff (1 # 5) ricc2_zero_percent).
  - left; reflexivity.
  - reflexivity.
  - reflexivity.
Defined.

(** *** The back-excitation loop never misses *)

Lemma find_index_exists {A} (p : A -> bool) xs i x :
  nth_error xs i = Some x -> p x = true ->
  exists j, find_index p xs = Some j.
Proof.
  revert i; induction xs as [|y ys IH]; intros [|i] H Hp; simpl in *;
    try discriminate.
  - inversion H; subst. rewrite Hp. eauto.
  - destruct (p y); eauto. destruct (IH i H Hp) as [j ->]. simpl. eauto.
Qed.

Lemma corresponds_refl bt : corresponds bt bt = true.
Proof. unfold corresponds. now rewrite !String.eqb_refl. Qed.

Lemma Forall_update_nth {A} (P : A -> Prop) j y xs :
  Forall P xs -> P y -> Forall P (update_nth j y xs).
Proof.
  intros H Hy; revert j; induction H as [|x xs Hx Hxs IH]; intros [|j];
    simpl; constructor; auto.
Qed.

Lemma correct_backexcitation_shape ts0 ts i bt0 :
  map shape ts = map shape ts0 -> nth_error ts0 i = Some bt0 ->
  match correct_backexcitation ts i with
  | Ok ts1 => map shape ts1 = map shape ts0
              /\ (Forall contrib_set ts -> Forall contrib_set ts1)
  | Raise e => e = TypeError /\ ~ Forall contrib_set ts
  end.
Proof.
  intros Hshape Hi.
  destruct (shape_nth _ _ _ _ Hshape Hi) as (bt & Hbt & _).
  destruct (find_index_exists (corresponds bt) ts i bt Hbt
              (corresponds_refl bt)) as (j & Hj).
  destruct (find_index_Some _ _ _ Hj) as (t & Ht & _).
  unfold correct_backexcitation. rewrite Hbt, Hj, Ht.
  destruct (contrib t) as [c|] eqn:Ec.
  - destruct (contrib bt) as [b|] eqn:Eb.
    + split.
      * rewrite <- Hshape. eapply map_update_nth; eauto.
      * intros H. apply Forall_update_nth; [exact H|].
        eexists; reflexivity.
    + split; [reflexivity|]. intros H. rewrite Forall_forall in H.
      destruct (H bt (nth_error_In _ _ Hbt)) as [c' Hc']. congruence.
  - split; [reflexivity|]. intros H. rewrite Forall_forall in H.
    destruct (H t (nth_error_In _ _ Ht)) as [c' Hc']. congruence.
Qed.

Lemma correct_backexcitation_loop_shape ts0 idxs :
  (forall i, In i idxs -> exists bt0, nth_error ts0 i = Some bt0) ->
  forall ts, map shape ts = map shape ts0 ->
  match foldM correct_backexcitation idxs ts with
  | Ok ts' => map shape ts' = map shape ts0
              /\ (Forall contrib_set ts -> Forall contrib_set ts')
  | Raise e => e = TypeError /\ ~ Forall contrib_set ts
  end.
Proof.
  induction idxs as [|i idxs IH]; intros Hidx ts Hshape; simpl.
  - auto.
  - destruct (Hidx i (or_introl eq_refl)) as (bt0 & Hi).
    pose proof (correct_backexcitation_shape ts0 ts i bt0 Hshape Hi) as Hs.
    destruct (correct_backexcitation ts i) as [ts1|e]; cbn [bind].
    + destruct Hs as [Hs1 Hset1].
      specialize (IH (fun i' H => Hidx i' (or_intror H)) ts1 Hs1).
      destruct (foldM correct_backexcitation idxs ts1) as [ts'|e].
      * destruct IH as [IH1 IH2]. auto.
      * destruct IH as [IH1 IH2]. split; [exact IH1|]. auto.
    + exact Hs.
Qed.

(** X5.  [correct_backexcitations] never raises the [IndexError] of an
    empty match list: a back-excitation passes its own test, so the list
    the loop indexes is never empty.  The only exception is the
    [TypeError] of a contribution that is not set; when every contribution
    is set the call returns, and the result has the same transitions in
    the same places with only contributions changed, all still set. *)
Theorem correct_backexcitations_never_misses (s : ExcitedState) :
  (forall e, correct_backexcitations s = Raise e ->
             e = TypeError /\ ~ Forall contrib_set (mo_transitions s))
  /\ (Forall contrib_set (mo_transitions s) ->
      exists s',
        correct_backexcitations s = Ok s'
        /\ map shape (mo_transitions s') = map shape (mo_transitions s)
        /\ Forall contrib_set (mo_transitions s')).
Proof.
  pose proof (correct_backexcitation_loop_shape (mo_transitions s)
                (positions is_back 0 (mo_transitions s))) as H.
  assert (Hidx : forall i, In i (positions is_back 0 (mo_transitions s)) ->
                 exists bt0, nth_error (mo_transitions s) i = Some bt0).
  { intros i Hi. apply positions_In in Hi as (t & Ht & _).
    rewrite Nat.sub_0_r in Ht. eauto. }
  specialize (H Hidx (mo_transitions s) eq_refl).
  unfold correct_backexcitations.
  destruct (foldM correct_backexcitation _ _) as [ts'|e0]; cbn [bind].
  - split; [discriminate|]. intros Hset. destruct H as [H1 H2].
    eexists; split; [reflexivity|]. simpl. auto.
  - split.
    + intros e He. inversion He; subst. exact H.
    + intros Hset. destruct H as [_ H]. contradiction.
Qed.

Lemma correct_backexcitations_never_misses_witness :
  exists s',
    correct_backexcitations exchanged_state = Ok s'
    /\ map shape (mo_transitions s')
       = map shape (mo_transitions exchanged_state).
Proof.
  destruct (proj2 (correct_backexcitations_never_misses exchanged_state))
    as (s' & Hs' & Hshape & _).
  - repeat constructor; eexists; reflexivity.
  - exists s'. split; assumption.
Defined.

(** *** What the TURBOMOLE parsers add *)

Lemma foldM_added {A} (step : ExcitedState -> A -> result ExcitedState)
  (P : MOTransition -> Prop) :
  (forall s a s', step s a = Ok s' ->
     exists t, mo_transitions s' = mo_transitions s ++ [t] /\ P t) ->
  forall xs s s', foldM step xs s = Ok s' ->
    exists new, mo_transitions s' = mo_transitions s ++ new
                /\ Forall P new /\ length new = length xs.
Proof.
  intros Hstep; induction xs as [|x xs IH]; simpl; intros s s' H.
  - inversion H; subst. exists []. rewrite app_nil_r. auto.
  - destruct (step s x) as [s1|] eqn:E; simpl in H; try discriminate.
    destruct (Hstep _ _ _ E) as (t & Ht & Pt).
    destruct (IH _ _ H) as (new & Hnew & Pnew & Hlen).
    exists (t :: new). rewrite Hnew, Ht, <- app_assoc. simpl.
    repeat split; auto.
Qed.

Lemma default_spin_nonempty sp :
  (if String.eqb sp "" then "alpha"%string else sp) <> ""%string.
Proof.
  destruct (String.eqb sp "") eqn:E; [discriminate|].
  now apply String.eqb_neq.
Qed.

Lemma escf_add_added float s d s' :
  escf_add float s d = Ok s' ->
  exists t, mo_transitions s' = mo_transitions s ++ [t]
            /\ (turbomole_transition t /\ ci_coeff t = PyNum 0).
Proof.
  unfold escf_add. destruct d as [[[[[[[[d0 d1] d2] d3] d4] d5] d6] d7] d8].
  destruct (float d8) as [p|]; simpl; intros H; inversion H; subst.
  eexists; split; [reflexivity|]. unfold turbomole_transition; simpl.
  repeat split; try apply default_spin_nonempty. eexists; reflexivity.
Qed.

Lemma ricc2_add_added float s sl s' :
  ricc2_add float s sl = Ok s' ->
  exists t, mo_transitions s' = mo_transitions s ++ [t]
            /\ (turbomole_transition t /\ exists c, ci_coeff t = PyStr c).
Proof.
  unfold ricc2_add.
  do 10 (destruct sl as [|? sl]; try discriminate).
  destruct sl; try discriminate.
  destruct (float _) as [p|]; simpl; intros H; inversion H; subst.
  eexists; split; [reflexivity|]. unfold turbomole_transition; simpl.
  repeat split; try apply default_spin_nonempty; eexists; reflexivity.
Qed.

Lemma escf_state_transitions float H2EV H2NM x st :
  escf_state float H2EV H2NM x = Ok st ->
  Forall (fun t => turbomole_transition t /\ ci_coeff t = PyNum 0)
         (mo_transitions st)
  /\ length (mo_transitions st) = length (snd x).
Proof.
  destruct x as [[[[[id_ sp] spat] ee] osc] dc]. unfold escf_state.
  destruct (pydiv H2NM ee) as [l|]; simpl; try discriminate.
  intros H. apply (foldM_added _ _ (escf_add_added float)) in H.
  destruct H as (new & Hnew & Pnew & Hlen). simpl in Hnew.
  rewrite Hnew. auto.
Qed.

Lemma ricc2_state_transitions float EV2NM x st :
  ricc2_state float EV2NM x = Ok st ->
  Forall (fun t => turbomole_transition t /\ exists c, ci_coeff t = PyStr c)
         (mo_transitions st)
  /\ length (mo_transitions st) = length (snd x).
Proof.
  destruct x as [[[[[id sp] sym] ee] osc] moc]. unfold ricc2_state.
  destruct (pydiv EV2NM ee) as [l|]; simpl; try discriminate.
  intros H. apply (foldM_added _ _ (ricc2_add_added float)) in H.
  destruct H as (new & Hnew & Pnew & Hlen). simpl in Hnew.
  rewrite Hnew. auto.
Qed.

Lemma turbomole_parse_ricc2_In float EV2NM iss ees oscs blocks states st :
  turbomole_parse_ricc2 float EV2NM iss ees oscs blocks = Ok states ->
  In st states -> exists x, ricc2_state float EV2NM x = Ok st.
Proof.
  unfold turbomole_parse_ricc2. intros H Hin.
  destruct (unzip3 iss) as [u|]; cbn [bind] in H; try discriminate.
  destruct (py_assert _); cbn [bind] in H; try discriminate.
  destruct (py_assert _); cbn [bind] in H; try discriminate.
  destruct (mapM_In _ _ _ H _ Hin) as (x & _ & Hx). eauto.
Qed.

(** X6.  Every transition of a state returned by [parse_escf] is an
    excitation with the coefficient 0 and a contribution that is set, and
    every transition of a state returned by [parse_ricc2] is an excitation
    whose contribution is set and whose coefficient is the string of the
    column; in both the two spins are never empty (an omitted spin reads
    ["alpha"]). *)
Theorem turbomole_transitions (float : string -> result Q)
  (HARTREE2EV HARTREE2NM EV2NM : Q) :
  (forall syms ees oscs dcs states st,
      parse_escf float HARTREE2EV HARTREE2NM syms ees oscs dcs = Ok states ->
      In st states ->
      Forall (fun t => turbomole_transition t /\ ci_coeff t = PyNum 0)
             (mo_transitions st))
  /\ (forall iss ees oscs blocks states st,
      turbomole_parse_ricc2 float EV2NM iss ees oscs blocks = Ok states ->
      In st states ->
      Forall (fun t => turbomole_transition t
                       /\ exists c, ci_coeff t = PyStr c)
             (mo_transitions st)).
Proof.
  split.
  - intros syms ees oscs dcs states st H Hin.
    destruct (mapM_In _ _ _ H _ Hin) as (x & _ & Hx).
    exact (proj1 (escf_state_transitions _ _ _ _ _ Hx)).
  - intros iss ees oscs blocks states st H Hin.
    destruct (turbomole_parse_ricc2_In _ _ _ _ _ _ _ _ H Hin) as (x & Hx).
    exact (proj1 (ricc2_state_transitions _ _ _ _ Hx)).
Qed.

Lemma turbomole_transitions_witness :
  (exists st,
      td_parse_escf float_12_5 escf_one [1 # 10] [1 # 100] [[dc_sample]]
      = Ok [st]
      /\ Forall (fun t => turbomole_transition t /\ ci_coeff t = PyNum 0)
                (mo_transitions st))
  /\ (exists st,
      turbomole_parse_ricc2 float_12_5 (123984193 # 100000)
        ricc2_one [5] [1 # 10] [[ricc2_line8]] = Ok [st]
      /\ Forall (fun t => turbomole_transition t
                          /\ exists c, ci_coeff t = PyStr c)
                (mo_transitions st)).
Proof.
  destruct (turbomole_transitions float_12_5 (27211386 # 1000000)
              (4556335 # 100000) (123984193 # 100000)) as (W1 & W2).
  split.
  - eexists. split; [reflexivity|].
    exact (W1 escf_one [1 # 10] [1 # 100] [[dc_sample]] _ _ eq_refl
              (or_introl eq_refl)).
  - eexists. split; [reflexivity|].
    exact (W2 ricc2_one [5] [1 # 10] [[ricc2_line8]] _ _ eq_refl
              (or_introl eq_refl)).
Defined.

Lemma mapM_calculate_set b ts :
  Forall contrib_set ts -> mapM (calculate_contribution b) ts = Ok ts.
Proof.
  induction 1 as [|t ts [c Hc] _ IH]; simpl; [reflexivity|].
  now rewrite (calculate_contribution_fixed b t c Hc), IH.
Qed.

Lemma positions_none {A} (p : A -> bool) xs :
  Forall (fun x => p x = false) xs -> forall i, positions p i xs = [].
Proof.
  induction 1 as [|x xs Hx _ IH]; intros i; simpl; [reflexivity|].
  now rewrite Hx.
Qed.

Lemma set_mo_transitions_same s : set_mo_transitions s (mo_transitions s) = s.
Proof. destruct s; reflexivity. Qed.

Lemma turbomole_transition_noop st :
  Forall turbomole_transition (mo_transitions st) ->
  calculate_contributions st = Ok st /\ correct_backexcitations st = Ok st.
Proof.
  intros H. split.
  - unfold calculate_contributions. rewrite mapM_calculate_set.
    + cbn [bind]. now rewrite set_mo_transitions_same.
    + eapply Forall_impl; [|exact H]. intros t Ht. apply Ht.
  - unfold correct_backexcitations. rewrite positions_none.
    + simpl. now rewrite set_mo_transitions_same.
    + eapply Forall_impl; [|exact H]. intros t (Hd & _).
      unfold is_back. now rewrite Hd.
Qed.

(** X7.  On a state returned by [parse_escf] or [parse_ricc2] the first
    two steps of the pipeline change nothing: [calculate_contributions]
    and [correct_backexcitations] both return the state as it is, so the
    percentages read from the report are never recomputed from the
    coefficients. *)
Theorem turbomole_pipeline_noop (float : string -> result Q)
  (HARTREE2EV HARTREE2NM EV2NM : Q) :
  (forall syms ees oscs dcs states st,
      parse_escf float HARTREE2EV HARTREE2NM syms ees oscs dcs = Ok states ->
      In st states ->
      calculate_contributions st = Ok st
      /\ correct_backexcitations st = Ok st)
  /\ (forall iss ees oscs blocks states st,
      turbomole_parse_ricc2 float EV2NM iss ees oscs blocks = Ok states ->
      In st states ->
      calculate_contributions st = Ok st
      /\ correct_backexcitations st = Ok st).
Proof.
  split.
  - intros syms ees oscs dcs states st H Hin.
    destruct (mapM_In _ _ _ H _ Hin) as (x & _ & Hx).
    apply turbomole_transition_noop.
    eapply Forall_impl;
      [|exact (proj1 (escf_state_transitions _ _ _ _ _ Hx))].
    intros t Ht; apply Ht.
  - intros iss ees oscs blocks states st H Hin.
    destruct (turbomole_parse_ricc2_In _ _ _ _ _ _ _ _ H Hin) as (x & Hx).
    apply turbomole_transition_noop.
    eapply Forall_impl;
      [|exact (proj1 (ricc2_state_transitions _ _ _ _ Hx))].
    intros t Ht; apply Ht.
Qed.

Lemma turbomole_pipeline_noop_witness :
  exists st,
    td_parse_escf float_12_5 escf_one [1 # 10] [1 # 100] [[dc_sample]]
    = Ok [st]
    /\ calculate_contributions st = Ok st
    /\ correct_backexcitations st = Ok st.
Proof.
  eexists. split; [reflexivity|].
  exact (proj1 (turbomole_pipeline_noop float_12_5 (27211386 # 1000000)
                  (4556335 # 100000) (123984193 # 100000))
           escf_one [1 # 10] [1 # 100] [[dc_sample]] _ _ eq_refl
           (or_introl eq_refl)).
Defined.

(** *** Lines and alignment in [parse_ricc2] *)

(** X8.  A contribution line of eight columns (closed shell) becomes the
    transition from its first to its fourth column with both spins ["a"],
    the irreps of its second and fifth column, its seventh column as the
    coefficient string and a hundredth of its eighth as the contribution;
    a line of neither eight nor ten columns raises a [ValueError]. *)
Theorem ricc2_line_columns (float : string -> result Q) (s : ExcitedState) :
  (forall c0 c1 c2 c3 c4 c5 c6 c7 p,
      float c7 = Ok p ->
      ricc2_add float s (add_spins [c0; c1; c2; c3; c4; c5; c6; c7])
      = Ok (add_mo_transition s c0 "->" c3 (PyStr c6) "a" "a"
              (Some (p / 100)) c1 c4))
  /\ (forall sl, length sl <> 8%nat -> length sl <> 10%nat ->
                 ricc2_add float s (add_spins sl) = Raise ValueError).
Proof.
  split.
  - intros c0 c1 c2 c3 c4 c5 c6 c7 p Hp.
    unfold add_spins, list_insert, ricc2_add; simpl. now rewrite Hp.
  - intros sl H8 H10. unfold add_spins.
    apply Nat.eqb_neq in H8. rewrite H8. unfold ricc2_add.
    do 10 (destruct sl as [|? sl]; [reflexivity|]).
    destruct sl; [|reflexivity]. simpl in H10. congruence.
Qed.

Lemma ricc2_line_columns_witness :
  ricc2_add float_12_5 state_3eV (add_spins ricc2_line8)
  = Ok (add_mo_transition state_3eV "12" "->" "13" (PyStr "0.35355")
          "a" "a" (Some ((125 # 10) / 100)) "a" "a")
  /\ ricc2_add float_12_5 state_3eV (add_spins ["12"; "a"]%string)
     = Raise ValueError.
Proof.
  destruct (ricc2_line_columns float_12_5 state_3eV) as (W1 & W2).
  split.
  - apply W1. reflexivity.
  - apply W2; simpl; lia.
Defined.

Lemma mapM_nth_error {A B} (g : A -> result B) xs ys :
  mapM g xs = Ok ys ->
  forall k y, nth_error ys k = Some y ->
              exists x, nth_error xs k = Some x /\ g x = Ok y.
Proof.
  revert ys; induction xs as [|x xs IH]; simpl; intros ys H k y Hy.
  - inversion H; subst. destruct k; discriminate.
  - destruct (g x) as [y0|] eqn:E; simpl in H; try discriminate.
    destruct (mapM g xs) as [ys0|] eqn:E2; simpl in H; try discriminate.
    inversion H; subst. destruct k as [|k]; simpl in *.
    + inversion Hy; subst. eauto.
    + eauto.
Qed.

Lemma nth_error_combine_Some {A B} (xs : list A) (ys : list B) k x y :
  nth_error (combine xs ys) k = Some (x, y) ->
  nth_error xs k = Some x /\ nth_error ys k = Some y.
Proof.
  revert ys k; induction xs as [|a xs IH]; intros [|b ys] [|k]; simpl;
    try discriminate.
  - intros H; inversion H; auto.
  - apply IH.
Qed.

Lemma nth_error_firstn_Some {A} n (xs : list A) k x :
  nth_error (firstn n xs) k = Some x -> nth_error xs k = Some x.
Proof.
  revert xs k; induction n as [|n IH]; intros [|a xs] [|k]; simpl;
    try discriminate; auto.
Qed.

Lemma foldM_header {A} (step : ExcitedState -> A -> result ExcitedState) :
  (forall s a s', step s a = Ok s' -> header s' = header s) ->
  forall xs s s', foldM step xs s = Ok s' -> header s' = header s.
Proof.
  intros Hstep; induction xs as [|x xs IH]; simpl; intros s s' H.
  - now inversion H.
  - destruct (step s x) as [s1|] eqn:E; simpl in H; try discriminate.
    rewrite (IH _ _ H). eauto.
Qed.

Lemma ricc2_add_header float s sl s' :
  ricc2_add float s sl = Ok s' -> header s' = header s.
Proof.
  unfold ricc2_add.
  do 10 (destruct sl as [|? sl]; try discriminate).
  destruct sl; try discriminate.
  destruct (float _); simpl; intros H; inversion H; reflexivity.
Qed.

Lemma ricc2_state_built float EV2NM id sp sym ee osc moc st :
  ricc2_state float EV2NM (id, sp, sym, ee, osc, moc) = Ok st ->
  es_id st = PyStr id /\ spin st = sp /\ spat st = sym /\ dE st = ee
  /\ es_f st = osc /\ length (mo_transitions st) = length moc.
Proof.
  intros H.
  pose proof (ricc2_state_transitions _ _ _ _ H) as [_ Hlen].
  unfold ricc2_state in H.
  destruct (pydiv EV2NM ee) as [l|]; simpl in H; try discriminate.
  apply (foldM_header _ (ricc2_add_header float)) in H.
  unfold header in H; simpl in H. inversion H. repeat split; auto.
Qed.

(** X9.  When [parse_ricc2] of [td/parser/turbomole.py] returns, its k-th
    state is built from the k-th match of the symmetry pattern (number,
    symmetry, multiplicity), the k-th energy, the k-th oscillator strength
    and the k-th contribution block, with one transition per line of the
    block; and when the report lists its states twice (twice as many
    symmetry matches as oscillator strengths) there are as many states as
    oscillator strengths, built from the first half of the listing. *)
Theorem turbomole_parse_ricc2_aligned (float : string -> result Q)
  (EV2NM : Q) iss ees oscs blocks states :
  turbomole_parse_ricc2 float EV2NM iss ees oscs blocks = Ok states ->
  length states = length oscs
  /\ forall k st, nth_error states k = Some st ->
       exists id sym mult block,
         nth_error iss k = Some (id, sym, mult)
         /\ es_id st = PyStr id /\ spat st = sym /\ spin st = mult
         /\ nth_error ees k = Some (dE st)
         /\ nth_error oscs k = Some (es_f st)
         /\ nth_error blocks k = Some block
         /\ length (mo_transitions st) = length block.
Proof.
  intros H.
  split; [apply (turbomole_parse_ricc2_lengths _ _ _ _ _ _ _ H)|].
  unfold turbomole_parse_ricc2 in H.
  destruct iss as [|i0 iss0] eqn:Ei; [discriminate|]. rewrite <- Ei in *.
  replace (unzip3 iss) with
    (Ok (map (fun x => fst (fst x)) iss, map (fun x => snd (fst x)) iss,
         map (fun x : string * string * string => snd x) iss)) in H
    by (rewrite Ei; reflexivity).
  cbn [bind fst snd] in H.
  destruct (py_assert _); cbn [bind] in H; try discriminate.
  destruct (py_assert _); cbn [bind] in H; try discriminate.
  intros k st Hk.
  destruct (mapM_nth_error _ _ _ H k st Hk)
    as ([[[[[id sp] sym] ee] osc] moc] & Hz & Hst).
  unfold zip6 in Hz. rewrite nth_error_map in Hz.
  destruct (nth_error (combine _ _) k)
    as [[u1 [u2 [u3 [u4 [u5 u6]]]]]|] eqn:Ec; simpl in Hz; [|discriminate].
  inversion Hz; subst u1 u2 u3 u4 u5 u6.
  apply nth_error_combine_Some in Ec as [Hid Ec].
  apply nth_error_combine_Some in Ec as [Hsp Ec].
  apply nth_error_combine_Some in Ec as [Hsym Ec].
  apply nth_error_combine_Some in Ec as [Hee Ec].
  apply nth_error_combine_Some in Ec as [Hosc Hmoc].
  assert (Hsp' : nth_error (map (fun x : string * string * string => snd x)
                              iss) k = Some sp).
  { destruct (Nat.eqb _ _); [eapply nth_error_firstn_Some|]; exact Hsp. }
  assert (Hsym' : nth_error (map (fun x : string * string * string =>
                                    snd (fst x)) iss) k = Some sym).
  { destruct (Nat.eqb _ _); [eapply nth_error_firstn_Some|]; exact Hsym. }
  assert (Hee' : nth_error ees k = Some ee).
  { destruct (Nat.eqb _ _); [eapply nth_error_firstn_Some|]; exact Hee. }
  rewrite nth_error_map in Hid, Hsp', Hsym', Hmoc.
  destruct (nth_error iss k) as [[[id' sym'] mult']|]; simpl in *;
    [|discriminate].
  inversion Hid; inversion Hsp'; inversion Hsym'; subst.
  destruct (nth_error blocks k) as [block|]; simpl in Hmoc; [|discriminate].
  inversion Hmoc; subst moc.
  destruct (ricc2_state_built _ _ _ _ _ _ _ _ _ Hst)
    as (H1 & H2 & H3 & H4 & H5 & H6).
  exists id, sym, sp, block. rewrite H4, H5, H6, length_map.
  repeat split; auto.
Qed.

Lemma turbomole_parse_ricc2_aligned_witness :
  exists st1 st2,
    turbomole_parse_ricc2 float_12_5 (123984193 # 100000)
      ricc2_doubled ricc2_doubled_ees ricc2_doubled_oscs ricc2_doubled_blocks
    = Ok [st1; st2]
    /\ nth_error ricc2_doubled_ees 1 = Some (dE st2)
    /\ nth_error ricc2_doubled_oscs 1 = Some (es_f st2).
Proof.
  do 2 eexists. split; [reflexivity|].
  destruct (proj2 (turbomole_parse_ricc2_aligned float_12_5
                     (123984193 # 100000) ricc2_doubled ricc2_doubled_ees
                     ricc2_doubled_oscs ricc2_doubled_blocks _ eq_refl)
              1%nat _ eq_refl)
    as (id & sym & mult & block & _ & _ & _ & _ & Hee & Hosc & _).
  split; assumption.
Defined.

(** X10.  [parse_ricc2] of [td/parser/ricc2.py] has no halving: a report
    that lists its states twice (twice as many symmetry matches as
    oscillator strengths, of which there is at least one) fails its
    assertion. *)
Theorem ricc2_parse_ricc2_doubled (float : string -> result Q) (EV2NM : Q)
  iss ees oscs blocks :
  length iss = (2 * length oscs)%nat -> oscs <> [] ->
  ricc2_parse_ricc2 float EV2NM iss ees oscs blocks = Raise AssertionError.
Proof.
  intros Hlen Hne. unfold ricc2_parse_ricc2.
  destruct iss as [|i0 iss0] eqn:Ei.
  - destruct oscs; [congruence | discriminate].
  - rewrite <- Ei in *.
    replace (unzip3 iss) with
      (Ok (map (fun x => fst (fst x)) iss, map (fun x => snd (fst x)) iss,
           map (fun x : string * string * string => snd x) iss))
      by (rewrite Ei; reflexivity).
    cbn [bind fst snd]. rewrite !length_map.
    destruct (_ && _ && _ && _) eqn:E; [|reflexivity].
    repeat (apply andb_true_iff in E as [E ?]).
    repeat match goal with H : Nat.eqb _ _ = true |- _ =>
      apply Nat.eqb_eq in H end.
    destruct oscs; [congruence|]. simpl in *. lia.
Qed.

Lemma ricc2_parse_ricc2_doubled_witness :
  ricc2_parse_ricc2 float_12_5 (123984193 # 100000)
    ricc2_doubled ricc2_doubled_ees ricc2_doubled_oscs ricc2_doubled_blocks
  = Raise AssertionError.
Proof.
  apply ricc2_parse_ricc2_doubled; [reflexivity | discriminate].
Defined.

Lemma combine_nil_r {A B} (xs : list A) : combine xs (@nil B) = [].
Proof. destruct xs; reflexivity. Qed.

(** X11.  A report in which one of the four escf patterns matches nothing
    gives [parse_escf] no state and no error; a report in which the
    symmetry pattern of ricc2 matches nothing makes both [parse_ricc2]
    raise a [ValueError], before any assertion. *)
Theorem parsers_without_match (float : string -> result Q)
  (HARTREE2EV HARTREE2NM EV2NM : Q) :
  (forall syms ees oscs dcs,
      syms = [] \/ ees = [] \/ oscs = [] \/ dcs = [] ->
      parse_escf float HARTREE2EV HARTREE2NM syms ees oscs dcs = Ok [])
  /\ (forall ees oscs blocks,
      turbomole_parse_ricc2 float EV2NM [] ees oscs blocks = Raise ValueError
      /\ ricc2_parse_ricc2 float EV2NM [] ees oscs blocks = Raise ValueError).
Proof.
  split; [|split; reflexivity].
  intros syms ees oscs dcs H. unfold parse_escf, zip4.
  destruct H as [ -> | [ -> | [ -> | -> ]]]; simpl;
    rewrite ?combine_nil_r; reflexivity.
Qed.

Lemma parsers_without_match_witness :
  td_parse_escf no_float escf_syms escf_ees [] escf_dcs = Ok [].
Proof.
  apply (proj1 (parsers_without_match no_float (27211386 # 1000000)
                  (4556335 # 100000) 0)).
  right; right; left; reflexivity.
Defined.

(** *** The Gaussian parser of [td.py] *)

Lemma foldM_app {A S} (step : S -> A -> result S) xs ys s :
  foldM step (xs ++ ys) s = (s' <- foldM step xs s ;; foldM step ys s').
Proof.
  revert s; induction xs as [|x xs IH]; intros s; simpl; [reflexivity|].
  destruct (step s x); simpl; auto.
Qed.

(** X12.  [get_excited_states] never returns a state with a transition:
    every state it returns has an empty transition list, and a line that
    matches the transition pattern inside the block of a state (after
    lines that leave the parser in that block) makes it raise a
    [TypeError], because [add_mo_transition] is called without the two
    spins it requires. *)
Theorem get_excited_states_no_transitions :
  (forall lines states,
      get_excited_states lines = Ok states ->
      Forall (fun s => mo_transitions s = []) states)
  /\ (forall pre acc start_mo to_or_from final_mo ci_coeff rest,
      foldM get_excited_states_step pre ([], false) = Ok (acc, true) ->
      get_excited_states
        (pre ++ TrsLine start_mo to_or_from final_mo ci_coeff :: rest)
      = Raise TypeError).
Proof.
  split.
  - intros lines states H. unfold get_excited_states in H.
    destruct (foldM _ _ _) as [st'|] eqn:E; cbn [bind] in H;
      try discriminate.
    inversion H; subst. apply Forall_forall. intros s Hs.
    destruct (get_excited_states_step_from_line _ _ _ E _ Hs)
      as [[]|(id & sp & spat & e & l & f & s2 & _ & ->)].
    reflexivity.
  - intros pre acc a b c d rest H. unfold get_excited_states.
    rewrite foldM_app, H. reflexivity.
Qed.

Lemma get_excited_states_no_transitions_witness :
  get_excited_states
    [OtherLine; gaussian_line; TrsLine "89" "->" "90" (1 # 2); BlankLine]
  = Raise TypeError
  /\ (exists st, get_excited_states [gaussian_line; BlankLine] = Ok [st]
                 /\ mo_transitions st = []).
Proof.
  destruct get_excited_states_no_transitions as (W1 & W2). split.
  - exact (W2 [OtherLine; gaussian_line] _ "89"%string "->"%string
              "90"%string (1 # 2) [BlankLine] eq_refl).
  - eexists. split; [reflexivity|].
    pose proof (W1 [gaussian_line; BlankLine] _ eq_refl) as H.
    inversion H; assumption.
Defined.

(** *** Sorting twice *)

Lemma sorted_of_Sorted key xs :
  Sorted (fun a b => key a <= key b) xs -> sorted key xs = xs.
Proof.
  induction 1 as [|x xs Hs IH Hd]; simpl; [reflexivity|].
  rewrite IH. destruct Hd as [|y ys Hy]; simpl; [reflexivity|].
  apply Qle_bool_iff in Hy. now rewrite Hy.
Qed.

Lemma relabel_Sorted key xs :
  (forall s i, key (set_id s i) = key s) ->
  Sorted (fun a b => key a <= key b) xs ->
  forall i, Sorted (fun a b => key a <= key b) (relabel i xs).
Proof.
  intros Hkey. induction 1 as [|x xs Hs IH Hd]; intros i; simpl;
    constructor; auto.
  destruct Hd as [|y ys Hy]; simpl; constructor.
  now rewrite !Hkey.
Qed.

Lemma relabel_relabel xs : forall i j,
  relabel i (relabel j xs) = relabel i xs.
Proof.
  induction xs as [|x xs IH]; intros i j; simpl; [reflexivity|].
  now rewrite IH.
Qed.

(** X13.  The sorting stage of [td.py] run on its own result changes
    nothing, with or without [--sf]: a list already in order keeps its
    order, and the relabelling gives the same numbers again. *)
Theorem td_sort_idempotent (sf : bool) (states : list ExcitedState) :
  td_sort sf (td_sort sf states) = td_sort sf states.
Proof.
  unfold td_sort. destruct sf.
  - apply sorted_of_Sorted, sorted_Sorted.
  - rewrite (sorted_of_Sorted dE).
    + apply relabel_relabel.
    + apply (relabel_Sorted dE); [reflexivity | apply sorted_Sorted].
Qed.

(** *** More on the spectrum *)

Lemma E2F_pos : (0 < E2F)%R.
Proof. unfold E2F, Q2R; simpl. rlra. Qed.

Lemma array_max_scale c ys m :
  (0 <= c)%R -> array_max ys = Ok m ->
  array_max (map (fun y => (y * c)%R) ys) = Ok (m * c)%R.
Proof.
  intros Hc. destruct ys as [|y0 ys]; simpl; [discriminate|].
  intros H; injection H as <-. now rewrite fold_left_Rmax_scale.
Qed.

(** X14.  With the normalisation the [e2f] option changes nothing: for
    states of nonzero wavelength whose unnormalised curve has a maximum
    other than zero, the normalised call returns the same curve with and
    without [e2f]. *)
Theorem make_spectrum_e2f_normalized (excited_states : list ExcitedState)
  (start_l end_l : Q) (m : R) :
  Forall (fun es => ~ es_l es == 0) excited_states ->
  array_max (curve_values excited_states start_l end_l) = Ok m ->
  m <> 0%R ->
  make_spectrum excited_states start_l end_l true true
  = make_spectrum excited_states start_l end_l true false.
Proof.
  intros Hl Hm Hm0. rewrite !make_spectrum_values by exact Hl.
  cbn zeta. cbv iota.
  pose proof E2F_pos as Hc.
  rewrite (map_ext (fun y => (y / E2F)%R) (fun y => (y * / E2F)%R))
    by reflexivity.
  rewrite (array_max_scale (/ E2F) _ m), Hm;
    [|left; now apply Rinv_0_lt_compat | exact Hm].
  cbn [bind]. do 3 f_equal. rewrite map_map.
  apply map_ext. intros y. field. split; [exact Hm0 | rlra].
Qed.

Lemma curve_values_pos_max :
  exists m, array_max (curve_values [state_3eV] 413 414) = Ok m
            /\ (0 < m)%R.
Proof.
  unfold curve_values.
  destruct arange_413_414 as (x1 & -> & _).
  simpl. eexists. split; [reflexivity|].
  eapply Rlt_le_trans; [|apply Rmax_l].
  rewrite Rplus_0_r, band_value_spec.
  - apply spec_band_pos. unfold Q2R; simpl. rlra.
  - intros H; vm_compute in H; discriminate.
  - intros H; vm_compute in H; discriminate.
Qed.

Lemma make_spectrum_e2f_normalized_witness :
  make_spectrum [state_3eV] 413 414 true true
  = make_spectrum [state_3eV] 413 414 true false.
Proof.
  destruct curve_values_pos_max as (m & Hm & Hpos).
  apply (make_spectrum_e2f_normalized [state_3eV] 413 414 m).
  - repeat constructor. intros H; vm_compute in H; discriminate.
  - exact Hm.
  - rlra.
Defined.

(** X15.  The edges of [make_spectrum].  Over an empty interval
    ([end <= start]) the unnormalised call returns an empty curve and the
    normalised call raises the [ValueError] of the maximum of an empty
    array; over a non-empty interval a state of wavelength zero makes every
    call raise a [ZeroDivisionError]. *)
Theorem make_spectrum_edges (excited_states : list ExcitedState)
  (start_l end_l : Q) (e2f : bool) :
  (end_l <= start_l ->
   make_spectrum excited_states start_l end_l false e2f
   = Ok ([], map (fun es => (es_f es, es_l es)) excited_states)
   /\ make_spectrum excited_states start_l end_l true e2f
      = Raise ValueError)
  /\ (start_l < end_l ->
      (exists es, In es excited_states /\ es_l es == 0) ->
      forall normalized,
        make_spectrum excited_states start_l end_l normalized e2f
        = Raise ZeroDivisionError).
Proof.
  split.
  - intros H. unfold make_spectrum. rewrite (arange_empty _ _ H). simpl.
    destruct e2f; split; reflexivity.
  - intros H (es & Hes & Hl0) normalized. unfold make_spectrum.
    destruct (arange_first _ _ H) as (xs & ->). simpl.
    rewrite (mapM_raise_all _ ZeroDivisionError); [reflexivity | |].
    + intros fl b _. unfold gauss_uv_band, pydiv.
      destruct (Qeq_bool (snd fl) 0); simpl; [congruence|].
      destruct (Qeq_bool _ 0); discriminate.
    + exists (es_f es, es_l es). split.
      * apply in_map_iff. eauto.
      * unfold gauss_uv_band, pydiv; simpl.
        apply Qeq_bool_iff in Hl0. now rewrite Hl0.
Qed.

Lemma make_spectrum_edges_witness :
  make_spectrum [state_3eV] 414 413 true false = Raise ValueError
  /\ make_spectrum [state_3eV; state_0nm] 413 414 false false
     = Raise ZeroDivisionError.
Proof.
  split.
  - apply (proj1 (make_spectrum_edges [state_3eV] 414 413 false)).
    vm_compute; discriminate.
  - apply (proj2 (make_spectrum_edges [state_3eV; state_0nm] 413 414 false)).
    + reflexivity.
    + exists state_0nm. split; [right; left; reflexivity | reflexivity].
Defined.

Lemma curve_values_nonneg excited_states start_l end_l :
  Forall (fun es => 0 <= es_f es) excited_states ->
  Forall (fun y => (0 <= y)%R) (curve_values excited_states start_l end_l).
Proof.
  intros Hf. apply Forall_forall. intros y Hy.
  apply in_map_iff in Hy as (l & <- & _).
  apply Rsum_nonneg, Forall_forall. intros b Hb.
  apply in_map_iff in Hb as (es & <- & Hes).
  apply band_value_nonneg. rewrite Forall_forall in Hf. now apply Hf.
Qed.

(** X16.  For states of nonzero wavelength and no negative oscillator
    strength whose unnormalised curve has a maximum other than zero, the
    normalised call returns a curve over the same sample points whose
    every value lies between 0 and 1. *)
Theorem make_spectrum_normalized_range (excited_states : list ExcitedState)
  (start_l end_l : Q) (m : R) :
  Forall (fun es => ~ es_l es == 0) excited_states ->
  Forall (fun es => 0 <= es_f es) excited_states ->
  array_max (curve_values excited_states start_l end_l) = Ok m ->
  m <> 0%R ->
  exists zs,
    make_spectrum excited_states start_l end_l true false
    = Ok (combine (arange start_l end_l (1 # 2)) zs,
          map (fun es => (es_f es, es_l es)) excited_states)
    /\ length zs = length (arange start_l end_l (1 # 2))
    /\ Forall (fun z => (0 <= z <= 1)%R) zs.
Proof.
  intros Hl Hf Hm Hm0.
  pose proof (curve_values_nonneg _ start_l end_l Hf) as Hpos.
  assert (Hmpos : (0 < m)%R).
  { pose proof (array_max_nonneg _ _ Hpos Hm). rlra. }
  exists (map (fun y => (y / m)%R) (curve_values excited_states start_l end_l)).
  split; [|split].
  - rewrite make_spectrum_values by exact Hl. cbn zeta. cbv iota.
    now rewrite Hm.
  - unfold curve_values. now rewrite !length_map.
  - apply Forall_forall. intros z Hz.
    apply in_map_iff in Hz as (y & <- & Hy).
    rewrite Forall_forall in Hpos. specialize (Hpos y Hy).
    pose proof (array_max_upper _ _ _ Hm Hy) as Hle.
    split.
    + apply Rle_mult_inv_pos; assumption.
    + apply Rmult_le_reg_r with (r := m); [exact Hmpos|].
      unfold Rdiv. rewrite Rmult_assoc, Rinv_l by rlra. rlra.
Qed.

Lemma make_spectrum_normalized_range_witness :
  exists zs,
    make_spectrum [state_3eV] 413 414 true false
    = Ok (combine (arange 413 414 (1 # 2)) zs,
          map (fun es => (es_f es, es_l es)) [state_3eV])
    /\ Forall (fun z => (0 <= z <= 1)%R) zs.
Proof.
  destruct curve_values_pos_max as (m & Hm & Hpos).
  destruct (make_spectrum_normalized_range [state_3eV] 413 414 m)
    as (zs & Hrun & _ & Hzs).
  - repeat constructor. intros H; vm_compute in H; discriminate.
  - repeat constructor. vm_compute; discriminate.
  - exact Hm.
  - rlra.
  - exists zs. split; assumption.
Defined.

Lemma exp_nonpos_le_1 x : (x <= 0)%R -> (exp x <= 1)%R.
Proof.
  intros [H | ->].
  - left. rewrite <- exp_0. now apply exp_increasing.
  - rewrite exp_0. rlra.
Qed.

(** X17.  A band is highest at the wavelength of its state: for an
    oscillator strength that is not negative and a state of nonzero
    wavelength [l_i], the value of [gauss_uv_band] at any sample point is
    at most its value at [l_i], which is
    [1.3062974e8 * f / (1e7 / 3099.6)]. *)
Theorem gauss_uv_band_peak (l f l_i : Q) :
  0 <= f -> ~ l_i == 0 ->
  exists y peak,
    gauss_uv_band l f l_i = Ok y
    /\ gauss_uv_band l_i f l_i = Ok peak
    /\ peak = Q2R (130629740 * f / (10000000 / (30996 # 10)))
    /\ (0 <= y <= peak)%R.
Proof.
  intros Hf Hli.
  exists (band_value l f l_i), (band_value l_i f l_i).
  split; [now apply gauss_uv_band_Ok|]. split; [now apply gauss_uv_band_Ok|].
  set (pref := Q2R (130629740 * f / (10000000 / (30996 # 10)))).
  assert (Hpref : (0 <= pref)%R).
  { pose proof (band_value_nonneg l_i f l_i Hf) as H.
    unfold band_value in H. rewrite (Qeq_bool_false _ Hli) in H.
    fold pref in H. pose proof (exp_pos (Q2R (- ((1 / l_i - 1 / l_i)
                                  / (1 / (30996 # 10))) ^ 2))) as He.
    destruct (Rle_or_lt 0 pref) as [Hp|Hp]; [exact Hp|].
    exfalso. Lra.nra. }
  assert (Hpeak : band_value l_i f l_i = pref).
  { unfold band_value. rewrite (Qeq_bool_false _ Hli). fold pref.
    assert (H0 : - ((1 / l_i - 1 / l_i) / (1 / (30996 # 10))) ^ 2 == 0).
    { change (?x ^ 2) with (x * x). field. exact Hli. }
    rewrite (Qeq_eqR _ _ H0), Q2R_0, exp_0. ring. }
  split; [exact Hpeak|]. rewrite Hpeak.
  split; [now apply band_value_nonneg|].
  unfold band_value. destruct (Qeq_bool l 0); [exact Hpref|]. fold pref.
  rewrite <- (Rmult_1_r pref) at 2.
  apply Rmult_le_compat_l; [exact Hpref|].
  apply exp_nonpos_le_1. rewrite <- Q2R_0. apply Qle_Rle.
  change (?x ^ 2) with (x * x).
  set (x := (1 / l - 1 / l_i) / (1 / (30996 # 10))).
  assert (0 <= x * x) by Lqa.nra. qlra.
Qed.

Lemma gauss_uv_band_peak_witness :
  exists y peak,
    gauss_uv_band 400 (1 # 10) (41328 # 100) = Ok y
    /\ gauss_uv_band (41328 # 100) (1 # 10) (41328 # 100) = Ok peak
    /\ (0 <= y <= peak)%R.
Proof.
  destruct (gauss_uv_band_peak 400 (1 # 10) (41328 # 100))
    as (y & peak & Hy & Hp & _ & Hle).
  - vm_compute; discriminate.
  - intros H; vm_compute in H; discriminate.
  - exists y, peak. auto.
Defined.

(** *** More on the resonance-Raman weight *)

(** X18.  [calc_rr_weight] raises exactly when the wavelength of the state
    or the excitation wavelength is zero, and then a
    [ZeroDivisionError]. *)
Theorem calc_rr_weight_raises (rr_exc : Q) (s : ExcitedState) (e : exn) :
  calc_rr_weight rr_exc s = Raise e
  <-> e = ZeroDivisionError /\ (es_l s == 0 \/ rr_exc == 0).
Proof.
  split.
  - intros H.
    destruct (Qeq_bool (es_l s) 0) eqn:El.
    + unfold calc_rr_weight, pydiv in H. rewrite El in H.
      inversion H. split; [reflexivity|]. left. now apply Qeq_bool_iff.
    + destruct (Qeq_bool rr_exc 0) eqn:Er.
      * unfold calc_rr_weight, pydiv in H. rewrite El, Er in H.
        inversion H. split; [reflexivity|]. right. now apply Qeq_bool_iff.
      * rewrite calc_rr_weight_value in H; [discriminate| |];
          intros H0; apply Qeq_bool_iff in H0; congruence.
  - intros (-> & [H|H]); unfold calc_rr_weight, pydiv.
    + apply Qeq_bool_iff in H. now rewrite H.
    + apply Qeq_bool_iff in H. rewrite H.
      destruct (Qeq_bool (es_l s) 0); reflexivity.
Qed.

Lemma calc_rr_weight_raises_witness :
  calc_rr_weight 400 state_0nm = Raise ZeroDivisionError
  /\ calc_rr_weight 0 state_3eV = Raise ZeroDivisionError.
Proof.
  split.
  - apply (proj2 (calc_rr_weight_raises 400 state_0nm ZeroDivisionError)).
    split; [reflexivity | left; reflexivity].
  - apply (proj2 (calc_rr_weight_raises 0 state_3eV ZeroDivisionError)).
    split; [reflexivity | right; reflexivity].
Defined.

(** X19.  The weight peaks at resonance: when the excitation wavelength
    equals the (nonzero) wavelength of the state the weight set is the
    oscillator strength itself, and at any other nonzero excitation
    wavelength it is strictly smaller in absolute value, unless the
    oscillator strength is zero. *)
Theorem calc_rr_weight_peak (rr_exc : Q) (s : ExcitedState) :
  ~ es_l s == 0 -> ~ rr_exc == 0 ->
  exists w,
    calc_rr_weight rr_exc s = Ok (set_rr_weight s (Some w))
    /\ (rr_exc == es_l s -> w = Q2R (es_f s))
    /\ (~ rr_exc == es_l s -> ~ es_f s == 0 ->
        (Rabs w < Rabs (Q2R (es_f s)))%R).
Proof.
  intros Hl Hexc. eexists.
  split; [exact (calc_rr_weight_value rr_exc s Hl Hexc)|].
  set (d := 10 ^ 7 / es_l s - 10 ^ 7 / rr_exc).
  set (F := Q2R (es_f s)).
  split.
  - intros Heq.
    assert (H0 : d == 0) by (unfold d; rewrite Heq; ring).
    rewrite (Qeq_eqR _ _ H0), Q2R_0.
    replace (0 * 0 + 2250000)%R with (1500 * 1500)%R by rlra.
    rewrite sqrt_square by rlra. field.
  - intros Hne Hf.
    assert (Hd : ~ d == 0).
    { unfold d. intros H. apply Hne.
      assert (H1 : 10 ^ 7 / es_l s == 10 ^ 7 / rr_exc) by qlra.
      assert (H2 : 10 ^ 7 / es_l s * (es_l s * rr_exc) == 10 ^ 7 * rr_exc)
        by (field; exact Hl).
      assert (H3 : 10 ^ 7 / rr_exc * (es_l s * rr_exc) == 10 ^ 7 * es_l s)
        by (field; exact Hexc).
      rewrite H1, H3 in H2. change (10 ^ 7) with 10000000 in H2. qlra. }
    set (D := Q2R d).
    assert (HD : D <> 0%R).
    { intros H. apply Hd. apply eqR_Qeq. now rewrite Q2R_0. }
    assert (HF : F <> 0%R).
    { intros H. apply Hf. apply eqR_Qeq. now rewrite Q2R_0. }
    assert (Hs : (1500 < sqrt (D * D + 2250000))%R).
    { rewrite <- (sqrt_square 1500) at 1 by rlra.
      apply sqrt_lt_1_alt. split; [rlra|].
      assert (0 < D * D)%R by (apply Rsqr_pos_lt; exact HD). rlra. }
    assert (Hq : (0 <= 1500 / sqrt (D * D + 2250000) < 1)%R).
    { split.
      - apply Rle_mult_inv_pos; rlra.
      - apply Rmult_lt_reg_r with (r := sqrt (D * D + 2250000)); [rlra|].
        unfold Rdiv. rewrite Rmult_assoc, Rinv_l by rlra. rlra. }
    rewrite Rabs_mult, (Rabs_pos_eq (1500 / _)) by tauto.
    pose proof (Rabs_pos_lt F HF). Lra.nra.
Qed.

Lemma calc_rr_weight_peak_witness :
  (exists w,
      calc_rr_weight (41328 # 100) state_3eV
      = Ok (set_rr_weight state_3eV (Some w))
      /\ w = Q2R (es_f state_3eV))
  /\ (exists w,
      calc_rr_weight 400 state_3eV = Ok (set_rr_weight state_3eV (Some w))
      /\ (Rabs w < Rabs (Q2R (es_f state_3eV)))%R).
Proof.
  split.
  - destruct (calc_rr_weight_peak (41328 # 100) state_3eV)
      as (w & Hw & Heq & _).
    + intros H; vm_compute in H; discriminate.
    + intros H; vm_compute in H; discriminate.
    + exists w. split; [exact Hw|]. apply Heq. reflexivity.
  - destruct (calc_rr_weight_peak 400 state_3eV) as (w & Hw & _ & Hlt).
    + intros H; vm_compute in H; discriminate.
    + intros H; vm_compute in H; discriminate.
    + exists w. split; [exact Hw|]. apply Hlt.
      * intros H; vm_compute in H; discriminate.
      * intros H; vm_compute in H; discriminate.
Defined.

(** *** [chunks] *)

Lemma firstn_add_skipn {A} a b (l : list A) :
  firstn (a + b) l = firstn a l ++ firstn b (skipn a l).
Proof.
  revert l; induction a as [|a IH]; intros [|x l]; simpl;
    try reflexivity.
  - now rewrite firstn_nil.
  - now rewrite IH.
Qed.

Lemma concat_pieces {A} n (l : list A) m :
  concat (map (fun k => firstn n (skipn (k * n) l)) (seq 0 m))
  = firstn (m * n) l.
Proof.
  induction m as [|m IH]; [reflexivity|].
  rewrite seq_S, map_app, concat_app, IH. simpl.
  rewrite app_nil_r. symmetry. rewrite Nat.add_comm.
  apply firstn_add_skipn.
Qed.

Lemma pieces_count n len m :
  (0 < n)%nat -> m = ((len + n - 1) / n)%nat ->
  (len <= m * n)%nat
  /\ forall k, (k < m)%nat -> (k * n < len)%nat.
Proof.
  intros Hn Hm.
  pose proof (Nat.div_mod_eq (len + n - 1) n) as Hdm.
  pose proof (Nat.mod_upper_bound (len + n - 1) n ltac:(lia)) as Hr.
  rewrite <- Hm in Hdm. rewrite (Nat.mul_comm n m) in Hdm. split.
  - lia.
  - intros k Hk.
    assert (Hle : (k * n <= (m - 1) * n)%nat)
      by (apply Nat.mul_le_mono_r; lia).
    assert (Hm1 : ((m - 1) * n + n = m * n)%nat).
    { replace m with (S (m - 1)) at 2 by lia. simpl. lia. }
    lia.
Qed.

(** X20.  [chunks(lst, n)] for a positive [n] cuts the list into pieces
    that put together give the list back; no piece is empty, every piece
    but the last has exactly [n] elements and the last at most [n].  A
    zero [n] raises a [ValueError] and a negative [n] yields nothing. *)
Theorem chunks_pieces {A : Type} (lst : list A) (n : Z) :
  chunks lst 0 = Raise ValueError
  /\ ((n < 0)%Z -> chunks lst n = Ok [])
  /\ ((0 < n)%Z ->
      exists cs,
        chunks lst n = Ok cs
        /\ concat cs = lst
        /\ Forall (fun c => (0 < length c <= Z.to_nat n)%nat) cs
        /\ forall k c, nth_error cs k = Some c ->
                       (S k < length cs)%nat -> length c = Z.to_nat n).
Proof.
  split; [reflexivity|]. split.
  - intros Hn. unfold chunks, range0.
    destruct (n =? 0)%Z eqn:E0; [lia|].
    apply Z.ltb_lt in Hn. now rewrite Hn.
  - intros Hn. unfold chunks, range0.
    destruct (n =? 0)%Z eqn:E0; [lia|].
    destruct (n <? 0)%Z eqn:E1; [lia|]. cbn [bind].
    set (n' := Z.to_nat n). assert (Hn' : (0 < n')%nat) by lia.
    set (m := ((length lst + n' - 1) / n')%nat).
    destruct (pieces_count n' (length lst) m Hn' eq_refl) as [Hall Hk].
    assert (Hcs : map (fun i => slice lst i (i + n'))
                    (map (fun k => (k * n')%nat) (seq 0 m))
                  = map (fun k => firstn n' (skipn (k * n') lst)) (seq 0 m)).
    { rewrite map_map. apply map_ext. intros k. unfold slice.
      now replace (k * n' + n' - k * n')%nat with n' by lia. }
    rewrite Hcs. eexists. split; [reflexivity|]. split; [|split].
    + rewrite concat_pieces. apply firstn_all2. exact Hall.
    + apply Forall_forall. intros c Hc.
      apply in_map_iff in Hc as (k & <- & Hin). apply in_seq in Hin.
      rewrite length_firstn, length_skipn.
      specialize (Hk k ltac:(lia)). lia.
    + intros k c Hc Hlast. rewrite length_map, length_seq in Hlast.
      rewrite nth_error_map, nth_error_seq in Hc.
      destruct (k <? m)%nat eqn:E; simpl in Hc; [|discriminate].
      inversion Hc; subst c. simpl.
      rewrite length_firstn, length_skipn.
      specialize (Hk (S k) Hlast). simpl in Hk. lia.
Qed.

Lemma chunks_pieces_witness :
  exists cs, chunks three_states 2 = Ok cs /\ concat cs = three_states
             /\ length cs = 2%nat.
Proof.
  destruct (proj2 (proj2 (chunks_pieces three_states 2)))
    as (cs & Hcs & Hcat & _).
  - lia.
  - exists cs. split; [exact Hcs|]. split; [exact Hcat|].
    vm_compute in Hcs. inversion Hcs. reflexivity.
Defined.

(** *** Queries on transitions *)

Lemma has_mo_transition_iff s a b :
  has_mo_transition s a b = true
  <-> exists t, In t (mo_transitions s) /\ start_mo t = a /\ final_mo t = b.
Proof.
  unfold has_mo_transition.
  set (p := fun mo_exc => (a =? start_mo mo_exc)%string
                          && (b =? final_mo mo_exc)%string).
  split.
  - destruct (filter p (mo_transitions s)) as [|t ts] eqn:E;
      [discriminate|].
    intros _. assert (Hin : In t (filter p (mo_transitions s)))
      by (rewrite E; now left).
    apply filter_In in Hin as [Hin Hp]. unfold p in Hp.
    apply andb_true_iff in Hp as [Ha Hb].
    apply String.eqb_eq in Ha, Hb. eauto.
  - intros (t & Hin & Ha & Hb).
    assert (Hf : In t (filter p (mo_transitions s))).
    { apply filter_In. split; [exact Hin|]. unfold p.
      now rewrite <- Ha, <- Hb, !String.eqb_refl. }
    destruct (filter p (mo_transitions s)); [destruct Hf | reflexivity].
Qed.

(** X21.  The suppression creates no match for the filters that follow
    it: after it a state has a transition between two orbitals, a start
    orbital or a final orbital only if it had it before; and
    [has_mo_transition] does not look at the direction, so a
    back-excitation counts as a transition between its two orbitals. *)
Theorem suppress_low_ci_coeffs_queries (thresh : Q) (s s' : ExcitedState) :
  suppress_low_ci_coeffs thresh s = Ok s' ->
  (forall a b, has_mo_transition s' a b = true ->
               has_mo_transition s a b = true)
  /\ (forall a, In a (get_start_mos s') -> In a (get_start_mos s))
  /\ (forall b, In b (get_final_mos s') -> In b (get_final_mos s))
  /\ (forall t, In t (mo_transitions s) ->
                has_mo_transition s (start_mo t) (final_mo t) = true).
Proof.
  intros H. unfold suppress_low_ci_coeffs in H.
  destruct (mapM (to_del thresh) (mo_transitions s)) as [marks|] eqn:E;
    cbn [bind] in H; [|discriminate].
  inversion H; subst s'; clear H.
  destruct (mapM_to_del_Ok _ _ _ E) as [_ Hf].
  assert (Hsub : forall t, In t (remove_marked (mo_transitions s) marks) ->
                           In t (mo_transitions s)).
  { intros t Ht. rewrite Hf in Ht. now apply filter_In in Ht. }
  split; [|split; [|split]].
  - intros a b Hab. apply has_mo_transition_iff in Hab as (t & Ht & Hab).
    apply has_mo_transition_iff. exists t. split; [apply Hsub; exact Ht|].
    exact Hab.
  - intros a Ha. unfold get_start_mos in *.
    apply in_map_iff in Ha as (t & <- & Ht). apply in_map, Hsub, Ht.
  - intros b Hb. unfold get_final_mos in *.
    apply in_map_iff in Hb as (t & <- & Ht). apply in_map, Hsub, Ht.
  - intros t Ht. apply has_mo_transition_iff. eauto.
Qed.

Lemma suppress_low_ci_coeffs_queries_witness :
  exists s',
    suppress_low_ci_coeffs (1 # 5) paired_state = Ok s'
    /\ has_mo_transition s' "89" "90" = true
    /\ has_mo_transition paired_state "89" "90" = true.
Proof.
  eexists. split; [reflexivity|]. split; [reflexivity|].
  apply (proj1 (suppress_low_ci_coeffs_queries (1 # 5) paired_state _
                  eq_refl)).
  reflexivity.
Defined.

(** *** The pairs of [--start-final-mos] *)

Lemma start_final_pairs_even sf_mos :
  (length sf_mos mod 2 = 0)%nat ->
  start_final_pairs false sf_mos
  = Done (map (fun i => (nth i sf_mos ""%string,
                         nth (i + 1) sf_mos ""%string))
            (seq 0 (length sf_mos / 2))).
Proof.
  intros Hev. unfold start_final_pairs. rewrite Hev.
  change (negb (0 =? 0)%nat) with false. cbv iota.
  rewrite (mapM_Ok_map _ (fun i => (nth i sf_mos ""%string,
                                    nth (i + 1) sf_mos ""%string)));
    [reflexivity|].
  intros i Hi. apply in_seq in Hi.
  pose proof (Nat.div_mod_eq (length sf_mos) 2) as Hdm.
  assert (H1 : (i < length sf_mos)%nat) by lia.
  assert (H2 : (i + 1 < length sf_mos)%nat) by lia.
  rewrite (nth_error_nth' sf_mos ""%string H1).
  rewrite (nth_error_nth' sf_mos ""%string H2). reflexivity.
Qed.

Lemma start_final_filter_given python3 sf_mos excited_states :
  sf_mos <> [] ->
  start_final_filter python3 sf_mos excited_states
  = (pairs <- start_final_pairs python3 sf_mos ;;
     Done (filter (fun exc_state =>
                     existsb (fun p => has_mo_transition exc_state
                                         (fst p) (snd p)) pairs)
                  excited_states))%main.
Proof. destruct sf_mos; [contradiction | reflexivity]. Qed.

(** X22.  Without arguments [--start-final-mos] filters nothing; with an
    odd number of arguments it ends the program.  With an even number of
    arguments, at least two, under Python 3 the filter raises a
    [TypeError]; under Python 2 it keeps exactly the states that have a
    transition (of either direction) from the argument at some position
    [i] to the argument at position [i+1], for [i] below half the number
    of arguments: the pairs are taken at the positions (0,1), (1,2), ...,
    not (0,1), (2,3), ...; with two arguments that is the one pair
    given. *)
Theorem start_final_filter_selection (sf_mos : list string)
  (excited_states : list ExcitedState) :
  (sf_mos = [] ->
   forall python3,
     start_final_filter python3 sf_mos excited_states = Done excited_states)
  /\ ((length sf_mos mod 2 <> 0)%nat ->
      forall python3,
        start_final_filter python3 sf_mos excited_states = Stop SystemExit)
  /\ (sf_mos <> [] -> (length sf_mos mod 2 = 0)%nat ->
      start_final_filter true sf_mos excited_states
      = Stop (Uncaught TypeError)
      /\ exists selected,
           start_final_filter false sf_mos excited_states = Done selected
           /\ forall es,
                In es selected
                <-> In es excited_states
                    /\ exists i a b,
                         (i < length sf_mos / 2)%nat
                         /\ nth_error sf_mos i = Some a
                         /\ nth_error sf_mos (S i) = Some b
                         /\ has_mo_transition es a b = true).
Proof.
  split; [|split].
  - intros -> python3. reflexivity.
  - intros Hodd python3.
    rewrite start_final_filter_given by (intros ->; now apply Hodd).
    unfold start_final_pairs.
    apply Nat.eqb_neq in Hodd. now rewrite Hodd.
  - intros Hne Hev. rewrite !start_final_filter_given by exact Hne. split.
    { unfold start_final_pairs. now rewrite Hev. }
    rewrite (start_final_pairs_even _ Hev). cbn [main_bind].
    eexists. split; [reflexivity|].
    pose proof (Nat.div_mod_eq (length sf_mos) 2) as Hdm.
    intros es. rewrite filter_In, existsb_exists. split.
    + intros (Hin & p & Hp & Hhas). split; [exact Hin|].
      apply in_map_iff in Hp as (i & <- & Hi). apply in_seq in Hi.
      simpl in Hhas. exists i, (nth i sf_mos ""%string),
        (nth (i + 1) sf_mos ""%string).
      split; [lia|]. split; [apply nth_error_nth'; lia|].
      split; [|exact Hhas].
      replace (S i) with (i + 1)%nat by lia. apply nth_error_nth'. lia.
    + intros (Hin & i & a & b & Hi & Ha & Hb & Hhas). split; [exact Hin|].
      exists (a, b). split; [|exact Hhas].
      apply in_map_iff. exists i. split.
      * replace (i + 1)%nat with (S i) by lia.
        now rewrite (nth_error_nth _ _ _ Ha), (nth_error_nth _ _ _ Hb).
      * apply in_seq. lia.
Qed.

Lemma start_final_filter_selection_witness :
  start_final_filter false [] three_states = Done three_states
  /\ exists selected,
       start_final_filter false ["89"; "90"; "88"; "91"]%string three_states
       = Done selected
       /\ In (state_of [fwd_89_90; back_89_90]) selected
       /\ ~ In (set_id (add_mo_transition state_2eV "88" "->" "91"
                          (PyNum (1 # 2)) "" "" (Some (1 # 2)) "A" "A")
                  (PyNum 2)) selected.
Proof.
  split.
  { exact (proj1 (start_final_filter_selection [] three_states)
             eq_refl false). }
  destruct (proj2 (proj2 (proj2 (start_final_filter_selection
                     ["89"; "90"; "88"; "91"]%string three_states))
                     ltac:(discriminate) eq_refl))
    as (selected & Hrun & Hsel).
  exists selected. split; [exact Hrun|]. split.
  - apply Hsel. split; [left; reflexivity|].
    exists 0%nat, "89"%string, "90"%string.
    repeat split; try reflexivity. simpl; lia.
  - intros Hin. apply Hsel in Hin as (_ & i & a & b & Hi & Ha & Hb & Hhas).
    simpl in Hi. destruct i as [|[|i]]; [| |lia];
      simpl in Ha, Hb; inversion Ha; inversion Hb; subst;
      vm_compute in Hhas; discriminate.
Defined.

(** *** The rows of the table *)

Lemma kept_from_refl {A} (xs : list A) : kept_from xs xs.
Proof. induction xs; constructor; auto. Qed.

Lemma kept_from_nil {A} (ys : list A) : kept_from [] ys.
Proof. induction ys; constructor; auto. Qed.

Lemma kept_from_trans {A} (xs ys zs : list A) :
  kept_from xs ys -> kept_from ys zs -> kept_from xs zs.
Proof.
  intros H1 H2; revert xs H1.
  induction H2 as [|z ys zs H IH|z ys zs H IH]; intros xs H1.
  - exact H1.
  - inversion H1; subst; constructor; auto.
  - constructor; auto.
Qed.

Lemma kept_from_filter {A} (p : A -> bool) xs : kept_from (filter p xs) xs.
Proof.
  induction xs as [|x xs IH]; simpl; [constructor|].
  destruct (p x); constructor; auto.
Qed.

Lemma kept_from_firstn {A} n (xs : list A) : kept_from (firstn n xs) xs.
Proof.
  revert xs; induction n as [|n IH]; intros [|x xs]; simpl;
    try constructor; auto using kept_from_nil.
Qed.

Lemma kept_from_In {A} (xs ys : list A) :
  kept_from xs ys -> forall x, In x xs -> In x ys.
Proof.
  induction 1; intros z Hz; simpl in *; auto.
  destruct Hz; auto.
Qed.

Lemma kept_from_Forall {A} (P : A -> Prop) xs ys :
  kept_from xs ys -> Forall P ys -> Forall P xs.
Proof.
  intros Hk Hy. apply Forall_forall. intros x Hx.
  rewrite Forall_forall in Hy. eauto using kept_from_In.
Qed.

Lemma kept_from_StronglySorted {A} (R : A -> A -> Prop) xs ys :
  kept_from xs ys -> StronglySorted R ys -> StronglySorted R xs.
Proof.
  induction 1 as [|x xs ys H IH|y xs ys H IH]; intros Hs.
  - constructor.
  - apply StronglySorted_inv in Hs as [Hs Hall].
    constructor; [auto|]. eapply kept_from_Forall; eauto.
  - apply StronglySorted_inv in Hs as [Hs _]. auto.
Qed.

Lemma StronglySorted_adjacent {A} (R : A -> A -> Prop) xs :
  StronglySorted R xs ->
  forall i a b, nth_error xs i = Some a -> nth_error xs (S i) = Some b ->
                R a b.
Proof.
  induction 1 as [|x xs Hs IH Hall]; intros i a b Ha Hb.
  - destruct i; discriminate.
  - destruct i as [|i]; simpl in *.
    + inversion Ha; subst. rewrite Forall_forall in Hall.
      apply Hall. exact (nth_error_In xs 0 Hb).
    + eauto.
Qed.

Lemma relabel_In xs : forall j y,
  In y (relabel j xs) ->
  exists x k, In x xs /\ y = set_id x (PyNum (inject_Z k))
              /\ (j <= k < j + Z.of_nat (length xs))%Z.
Proof.
  induction xs as [|x xs IH]; intros j y Hy; simpl in *; [destruct Hy|].
  destruct Hy as [<-|Hy].
  - exists x, j. repeat split; auto; lia.
  - destruct (IH _ _ Hy) as (x' & k & Hx' & -> & Hk).
    exists x', k. repeat split; auto; lia.
Qed.

Lemma id_number_set_id x k : id_number (set_id x (PyNum (inject_Z k))) = k.
Proof. unfold id_number; simpl. apply Qfloor_Z. Qed.

Lemma relabel_table_order xs :
  StronglySorted (fun a b => dE a <= dE b) xs ->
  forall j, StronglySorted table_order (relabel j xs).
Proof.
  induction 1 as [|x xs Hs IH Hall]; intros j; simpl; constructor; auto.
  apply Forall_forall. intros y Hy.
  destruct (relabel_In _ _ _ Hy) as (x' & k & Hx' & -> & Hk).
  rewrite Forall_forall in Hall. split.
  - simpl. now apply Hall.
  - rewrite !id_number_set_id. lia.
Qed.

Lemma range_filter_kept range xs r :
  range_filter range xs = Done r ->
  kept_from r xs
  /\ (forall lo, range = Some [lo] -> Forall (fun s => lo <= es_l s) r)
  /\ (forall lo hi, range = Some [lo; hi] ->
                    Forall (fun s => lo <= es_l s <= hi) r).
Proof.
  unfold range_filter.
  destruct range as [[|a [|b [|c more]]]|]; intros H; inversion H; subst.
  - split; [apply kept_from_refl|]. split; intros; discriminate.
  - split; [apply kept_from_filter|]. split; [|intros; discriminate].
    intros lo Hlo; inversion Hlo; subst. apply Forall_forall.
    intros s Hs. apply filter_In in Hs as [_ Hs].
    now apply Qle_bool_iff.
  - split; [apply kept_from_filter|]. split; [intros; discriminate|].
    intros lo hi Hlo; inversion Hlo; subst. apply Forall_forall.
    intros s Hs. apply filter_In in Hs as [_ Hs].
    apply andb_true_iff in Hs as [H1 H2].
    split; now apply Qle_bool_iff.
  - split; [apply kept_from_refl|]. split; intros; discriminate.
Qed.

Lemma fthresh_filter_kept fthresh xs :
  kept_from (fthresh_filter fthresh xs) xs
  /\ Forall (fun s => ~ fthresh == 0 -> fthresh <= es_f s)
            (fthresh_filter fthresh xs).
Proof.
  unfold fthresh_filter. destruct (Qeq_bool fthresh 0) eqn:E.
  - split; [apply kept_from_refl|]. apply Forall_forall. intros s _ Hne.
    apply Qeq_bool_iff in E. contradiction.
  - split; [apply kept_from_filter|]. apply Forall_forall. intros s Hs _.
    apply filter_In in Hs as [_ Hs]. now apply Qle_bool_iff.
Qed.

Lemma slice_to_kept {A} (xs : list A) n :
  kept_from (slice_to xs n) xs
  /\ (forall k, n = Some k -> (0 <= k)%Z ->
                (length (slice_to xs n) <= Z.to_nat k)%nat).
Proof.
  unfold slice_to. destruct n as [k|].
  - destruct (0 <=? k)%Z eqn:E.
    + split; [apply kept_from_firstn|]. intros k' Hk _.
      inversion Hk; subst. apply firstn_le_length.
    + split; [apply kept_from_firstn|]. intros k' Hk Hpos.
      inversion Hk; subst. apply Z.leb_gt in E. lia.
  - split; [apply kept_from_refl|]. intros; discriminate.
Qed.

(** X23.  The rows of the default table of [td.py].  After the energy
    sort, [--range], [--fthresh] and [--show], the states left are in
    ascending energy with strictly increasing labels between 1 and the
    number of states sorted; each is a sorted state under a new label;
    each has passed the bounds of [--range] and, for a threshold other than
    zero, of [--fthresh]; and a [--show] that is not negative bounds their
    number. *)
Theorem td_selected_table (range : option (list Q)) (fthresh : Q)
  (show : option Z) (excited_states selected : list ExcitedState) :
  td_selected false range fthresh show excited_states = Done selected ->
  ascending dE selected
  /\ (forall i a b, nth_error selected i = Some a ->
                    nth_error selected (S i) = Some b ->
                    (id_number a < id_number b)%Z)
  /\ Forall (fun s => (1 <= id_number s <= Z.of_nat (length excited_states))%Z
                      /\ exists s0, In s0 excited_states
                                    /\ unlabel s = unlabel s0) selected
  /\ Forall (fun s => ~ fthresh == 0 -> fthresh <= es_f s) selected
  /\ (forall lo, range = Some [lo] ->
                 Forall (fun s => lo <= es_l s) selected)
  /\ (forall lo hi, range = Some [lo; hi] ->
                    Forall (fun s => lo <= es_l s <= hi) selected)
  /\ (forall n, show = Some n -> (0 <= n)%Z ->
                (length selected <= Z.to_nat n)%nat).
Proof.
  unfold td_selected, td_sort. intros H.
  set (base := relabel 1 (sorted (fun exc_state => dE exc_state)
                            excited_states)) in H.
  destruct (range_filter range base) as [r|] eqn:Er; cbn [main_bind] in H;
    [|discriminate].
  inversion H; subst selected; clear H.
  destruct (range_filter_kept _ _ _ Er) as (Kr & Hlo & Hlohi).
  destruct (fthresh_filter_kept fthresh r) as (Kf & Hf).
  destruct (slice_to_kept (fthresh_filter fthresh r) show) as (Ks & Hshow).
  assert (K : kept_from (slice_to (fthresh_filter fthresh r) show) base).
  { eapply kept_from_trans; [exact Ks|].
    eapply kept_from_trans; [exact Kf | exact Kr]. }
  assert (Kfr : kept_from (slice_to (fthresh_filter fthresh r) show) r).
  { eapply kept_from_trans; [exact Ks | exact Kf]. }
  assert (Hbase : StronglySorted table_order base).
  { apply relabel_table_order, Sorted_StronglySorted.
    - intros a b c. apply Qle_trans.
    - apply sorted_Sorted. }
  pose proof (kept_from_StronglySorted _ _ _ K Hbase) as Hsel.
  split; [|split; [|split; [|split; [|split; [|split]]]]].
  - intros i a b Ha Hb.
    exact (proj1 (StronglySorted_adjacent _ _ Hsel i a b Ha Hb)).
  - intros i a b Ha Hb.
    exact (proj2 (StronglySorted_adjacent _ _ Hsel i a b Ha Hb)).
  - eapply kept_from_Forall; [exact K|]. apply Forall_forall.
    intros y Hy. destruct (relabel_In _ _ _ Hy) as (x & k & Hx & -> & Hk).
    rewrite id_number_set_id.
    pose proof (Permutation_length
                  (sorted_perm (fun exc_state => dE exc_state)
                     excited_states)) as Hlen.
    split; [lia|]. exists x. split; [|reflexivity].
    eapply Permutation_in; [apply sorted_perm | exact Hx].
  - eapply kept_from_Forall; [exact Ks | exact Hf].
  - intros lo Hr. eapply kept_from_Forall; [exact Kfr | now apply Hlo].
  - intros lo hi Hr. eapply kept_from_Forall; [exact Kfr | now apply Hlohi].
  - exact Hshow.
Qed.

Lemma td_selected_table_witness :
  exists selected,
    td_selected false (Some [500]) (1 # 10) (Some 5%Z) three_states
    = Done selected
    /\ length selected = 2%nat
    /\ ascending dE selected
    /\ Forall (fun s => 500 <= es_l s) selected.
Proof.
  eexists. split; [reflexivity|]. split; [reflexivity|].
  destruct (td_selected_table (Some [500]) (1 # 10) (Some 5%Z)
              three_states _ eq_refl)
    as (Hasc & _ & _ & _ & Hlo & _).
  split; [exact Hasc | exact (Hlo 500 eq_refl)].
Defined.

(** *** The lowest and the highest orbital *)

Lemma ascii_compare_lt_trans a b c :
  Ascii.compare a b = Lt -> Ascii.compare b c = Lt -> Ascii.compare a c = Lt.
Proof.
  unfold Ascii.compare. rewrite !N.compare_lt_iff. apply N.lt_trans.
Qed.

Lemma string_compare_lt_trans s1 : forall s2 s3,
  String.compare s1 s2 = Lt -> String.compare s2 s3 = Lt ->
  String.compare s1 s3 = Lt.
Proof.
  induction s1 as [|a s1 IH]; intros [|b s2] [|c s3] H1 H2; simpl in *;
    try discriminate; auto.
  destruct (Ascii.compare a b) eqn:Eab; try discriminate.
  - apply Ascii.compare_eq_iff in Eab; subst b.
    destruct (Ascii.compare a c); try discriminate; eauto.
  - destruct (Ascii.compare b c) eqn:Ebc; try discriminate.
    + apply Ascii.compare_eq_iff in Ebc; subst c. now rewrite Eab.
    + now rewrite (ascii_compare_lt_trans a b c Eab Ebc).
Qed.

Lemma string_ltb_trans s1 s2 s3 :
  String.ltb s1 s2 = true -> String.ltb s2 s3 = true ->
  String.ltb s1 s3 = true.
Proof.
  unfold String.ltb. intros H1 H2.
  destruct (String.compare s1 s2) eqn:E1; try discriminate.
  destruct (String.compare s2 s3) eqn:E2; try discriminate.
  now rewrite (string_compare_lt_trans _ _ _ E1 E2).
Qed.

Lemma string_ltb_irrefl s : String.ltb s s = false.
Proof.
  unfold String.ltb. destruct (String.compare s s) eqn:E; auto.
  pose proof (String.compare_antisym s s) as H. rewrite E in H.
  discriminate.
Qed.

Lemma string_ltb_below y m m0 :
  String.ltb y m = true -> String.ltb m0 m = false ->
  String.ltb y m0 = true.
Proof.
  intros H1 H2. unfold String.ltb in H2.
  destruct (String.compare m0 m) eqn:C; try discriminate.
  - apply String.compare_eq_iff in C. now subst.
  - apply (string_ltb_trans y m m0 H1). unfold String.ltb.
    now rewrite (String.compare_antisym m m0), C.
Qed.

Lemma string_ltb_above y m m0 :
  String.ltb m y = true -> String.ltb m m0 = false ->
  String.ltb m0 y = true.
Proof.
  intros H1 H2. unfold String.ltb in H2.
  destruct (String.compare m m0) eqn:C; try discriminate.
  - apply String.compare_eq_iff in C. now subst.
  - apply (string_ltb_trans m0 m y); [|exact H1]. unfold String.ltb.
    now rewrite (String.compare_antisym m0 m), C.
Qed.

Lemma fold_min_least xs : forall m0,
  let m := fold_left (fun m y => if String.ltb y m then y else m) xs m0 in
  (m = m0 \/ In m xs)
  /\ String.ltb m0 m = false
  /\ forall x, In x xs -> String.ltb x m = false.
Proof.
  induction xs as [|y xs IH]; intros m0; simpl.
  - split; [auto|]. split; [apply string_ltb_irrefl | intros x []].
  - destruct (String.ltb y m0) eqn:E.
    + destruct (IH y) as (Hin & Hy & Hall).
      set (m := fold_left _ xs y) in *. split; [|split].
      * destruct Hin; auto.
      * destruct (String.ltb m0 m) eqn:E2; [|reflexivity].
        rewrite (string_ltb_trans _ _ _ E E2) in Hy. discriminate.
      * intros x [<-|Hx]; auto.
    + destruct (IH m0) as (Hin & Hm0 & Hall).
      set (m := fold_left _ xs m0) in *. split; [|split].
      * destruct Hin; auto.
      * exact Hm0.
      * intros x [<-|Hx]; [|auto].
        destruct (String.ltb y m) eqn:E2; [|reflexivity].
        rewrite (string_ltb_below _ _ _ E2 Hm0) in E. discriminate.
Qed.

Lemma py_min_least xs m :
  py_min xs = Ok m ->
  In m xs /\ forall x, In x xs -> String.ltb x m = false.
Proof.
  destruct xs as [|x0 xs]; simpl; [discriminate|].
  intros H; injection H as <-.
  destruct (fold_min_least xs x0) as (Hin & H0 & Hall).
  split; [destruct Hin; auto|]. intros x [<-|Hx]; auto.
Qed.

Lemma fold_max_greatest xs : forall m0,
  let m := fold_left (fun m y => if String.ltb m y then y else m) xs m0 in
  (m = m0 \/ In m xs)
  /\ String.ltb m m0 = false
  /\ forall x, In x xs -> String.ltb m x = false.
Proof.
  induction xs as [|y xs IH]; intros m0; simpl.
  - split; [auto|]. split; [apply string_ltb_irrefl | intros x []].
  - destruct (String.ltb m0 y) eqn:E.
    + destruct (IH y) as (Hin & Hy & Hall).
      set (m := fold_left _ xs y) in *. split; [|split].
      * destruct Hin; auto.
      * destruct (String.ltb m m0) eqn:E2; [|reflexivity].
        rewrite (string_ltb_trans _ _ _ E2 E) in Hy. discriminate.
      * intros x [<-|Hx]; auto.
    + destruct (IH m0) as (Hin & Hm0 & Hall).
      set (m := fold_left _ xs m0) in *. split; [|split].
      * destruct Hin; auto.
      * exact Hm0.
      * intros x [<-|Hx]; [|auto].
        destruct (String.ltb m y) eqn:E2; [|reflexivity].
        rewrite (string_ltb_above _ _ _ E2 Hm0) in E. discriminate.
Qed.

Lemma py_max_greatest xs m :
  py_max xs = Ok m ->
  In m xs /\ forall x, In x xs -> String.ltb m x = false.
Proof.
  destruct xs as [|x0 xs]; simpl; [discriminate|].
  intros H; injection H as <-.
  destruct (fold_max_greatest xs x0) as (Hin & H0 & Hall).
  split; [destruct Hin; auto|]. intros x [<-|Hx]; auto.
Qed.

Lemma concat_map_nil {A} (g : ExcitedState -> list A) xs :
  (forall s, g s = [] <-> mo_transitions s = []) ->
  (concat (map g xs) = [] <-> Forall (fun s => mo_transitions s = []) xs).
Proof.
  intros Hg. induction xs as [|x xs IH]; simpl.
  - split; constructor.
  - split.
    + intros H. apply app_eq_nil in H as [H1 H2].
      constructor; [now apply Hg | now apply IH].
    + intros H. inversion H; subst.
      rewrite (proj2 (Hg x)), (proj2 IH); auto.
Qed.

Lemma get_start_mos_nil s : get_start_mos s = [] <-> mo_transitions s = [].
Proof.
  unfold get_start_mos. destruct (mo_transitions s); simpl; split;
    auto; discriminate.
Qed.

Lemma get_final_mos_nil s : get_final_mos s = [] <-> mo_transitions s = [].
Proof.
  unfold get_final_mos. destruct (mo_transitions s); simpl; split;
    auto; discriminate.
Qed.

Lemma mapM_Raise_In {A B} (g : A -> result B) xs e :
  mapM g xs = Raise e -> exists x, In x xs /\ g x = Raise e.
Proof.
  induction xs as [|x xs IH]; simpl; [discriminate|].
  destruct (g x) as [y|e0] eqn:E; simpl.
  - destruct (mapM g xs) as [ys|e1]; simpl; [discriminate|].
    intros H; inversion H; subst.
    destruct (IH eq_refl) as (x' & Hin & Hx'). eauto.
  - intros H; inversion H; subst. eauto.
Qed.

Lemma calc_rr_weight_Raise rr_exc s e :
  calc_rr_weight rr_exc s = Raise e -> e = ZeroDivisionError.
Proof.
  destruct (Qeq_bool (es_l s) 0) eqn:El.
  - unfold calc_rr_weight, pydiv. rewrite El. intros H; now inversion H.
  - destruct (Qeq_bool rr_exc 0) eqn:Er.
    + unfold calc_rr_weight, pydiv. rewrite El, Er.
      intros H; now inversion H.
    + rewrite calc_rr_weight_value; [discriminate| |];
        intros H0; apply Qeq_bool_iff in H0; congruence.
Qed.

Lemma mapM_calc_rr_weight_rows rr_exc xs ys :
  mapM (calc_rr_weight rr_exc) xs = Ok ys ->
  map header ys = map header xs
  /\ map mo_transitions ys = map mo_transitions xs.
Proof.
  revert ys; induction xs as [|x xs IH]; simpl; intros ys H.
  - inversion H; auto.
  - destruct (calc_rr_weight rr_exc x) as [y|] eqn:E; simpl in H;
      try discriminate.
    destruct (mapM (calc_rr_weight rr_exc) xs) as [ys0|]; simpl in H;
      try discriminate.
    inversion H; subst. destruct (IH _ eq_refl) as [H1 H2].
    assert (Hy : header y = header x /\ mo_transitions y = mo_transitions x).
    { unfold calc_rr_weight in E.
      destruct (pydiv _ (es_l x)); simpl in E; try discriminate.
      destruct (pydiv _ rr_exc); simpl in E; try discriminate.
      destruct (cdiv _ _); simpl in E; try discriminate.
      inversion E; subst. split; reflexivity. }
    simpl. destruct Hy as [-> ->]. now rewrite H1, H2.
Qed.

(** X24.  When the selection leaves no transition at all (no state, or
    only states without transitions) the main program of [td.py] stops
    with the [ValueError] of [min] on an empty sequence, and that is the
    only way it raises a [ValueError] after the selection; more than two
    values for [--range] stop it with the plain [Exception]. *)
Theorem td_tail_stops (sf : bool) (range : option (list Q)) (fthresh : Q)
  (show : option Z) (exc : option Q) (excited_states : list ExcitedState) :
  (forall a b c more, range = Some (a :: b :: c :: more) ->
     td_tail sf range fthresh show exc excited_states = Stop PlainException)
  /\ (forall selected,
        td_selected sf range fthresh show excited_states = Done selected ->
        (td_tail sf range fthresh show exc excited_states
         = Stop (Uncaught ValueError)
         <-> Forall (fun s => mo_transitions s = []) selected)).
Proof.
  split.
  - intros a b c more ->. reflexivity.
  - intros selected Hsel. unfold td_tail. rewrite Hsel. cbn [main_bind].
    pose proof (concat_map_nil get_start_mos selected get_start_mos_nil)
      as Hs.
    pose proof (concat_map_nil get_final_mos selected get_final_mos_nil)
      as Hf.
    destruct (concat (map get_start_mos selected)) as [|x xs] eqn:Es.
    + simpl. split; [intros _; now apply Hs | reflexivity].
    + destruct (concat (map get_final_mos selected)) as [|y ys] eqn:Ef.
      * assert (H : x :: xs = []) by (apply Hs, Hf; reflexivity).
        discriminate.
      * cbn [py_min py_max lift main_bind]. split.
        -- intros H. exfalso.
           destruct exc as [rr|]; [|discriminate].
           destruct (Qeq_bool rr 0); [discriminate|].
           destruct (mapM (calc_rr_weight rr) selected) as [r|e] eqn:Em;
             [discriminate|].
           simpl in H. inversion H; subst e.
           destruct (mapM_Raise_In _ _ _ Em) as (s & _ & Hr).
           apply calc_rr_weight_Raise in Hr. discriminate.
        -- intros H. apply Hs in H. discriminate.
Qed.

Lemma td_tail_stops_witness :
  td_tail false (Some [1; 2; 3]) 0 None None three_states
  = Stop PlainException
  /\ td_tail false None 0 None None two_states = Stop (Uncaught ValueError)
  /\ td_tail false None 5 None None three_states
     = Stop (Uncaught ValueError).
Proof.
  split; [|split].
  - apply (proj1 (td_tail_stops false (Some [1; 2; 3]) 0 None None
                    three_states) 1 2 3 []). reflexivity.
  - apply (proj2 (td_tail_stops false None 0 None None two_states)
             _ eq_refl).
    repeat constructor.
  - apply (proj2 (td_tail_stops false None 5 None None three_states)
             _ eq_refl).
    constructor.
Defined.

(** X25.  When the main program of [td.py] reaches its output, the states
    it prints are the selected ones (with at most the resonance-Raman
    weight changed), the lowest orbital it reports is a start orbital of
    one of them than which no start orbital among them is smaller, and the
    highest is a final orbital than which none is greater, both in the
    order of strings, character by character, under which ["88"] comes
    before ["9"]. *)
Theorem td_tail_orbitals (sf : bool) (range : option (list Q)) (fthresh : Q)
  (show : option Z) (exc : option Q) (excited_states : list ExcitedState)
  (rows : list ExcitedState) (min_mo max_mo : string) :
  td_tail sf range fthresh show exc excited_states
  = Done (rows, min_mo, max_mo) ->
  exists selected,
    td_selected sf range fthresh show excited_states = Done selected
    /\ map header rows = map header selected
    /\ map mo_transitions rows = map mo_transitions selected
    /\ (exists s, In s selected /\ In min_mo (get_start_mos s))
    /\ (forall s x, In s selected -> In x (get_start_mos s) ->
                    String.ltb x min_mo = false)
    /\ (exists s, In s selected /\ In max_mo (get_final_mos s))
    /\ (forall s x, In s selected -> In x (get_final_mos s) ->
                    String.ltb max_mo x = false).
Proof.
  unfold td_tail. intros H.
  destruct (td_selected sf range fthresh show excited_states)
    as [selected|] eqn:Hsel; cbn [main_bind] in H; [|discriminate].
  exists selected. split; [reflexivity|].
  destruct (py_min _) as [mn|] eqn:Emin; cbn [lift main_bind] in H;
    [|discriminate].
  destruct (py_max _) as [mx|] eqn:Emax; cbn [lift main_bind] in H;
    [|discriminate].
  destruct (py_min_least _ _ Emin) as (Hmin_in & Hmin).
  destruct (py_max_greatest _ _ Emax) as (Hmax_in & Hmax).
  assert (Hrows : map header rows = map header selected
                  /\ map mo_transitions rows = map mo_transitions selected
                  /\ mn = min_mo /\ mx = max_mo).
  { destruct exc as [rr|].
    - destruct (Qeq_bool rr 0).
      + cbn [main_bind] in H. inversion H; subst. auto.
      + destruct (mapM (calc_rr_weight rr) selected) as [r|] eqn:Em;
          cbn [lift main_bind] in H; [|discriminate].
        inversion H; subst.
        destruct (mapM_calc_rr_weight_rows _ _ _ Em). auto.
    - cbn [main_bind] in H. inversion H; subst. auto. }
  destruct Hrows as (Hh & Ht & <- & <-).
  split; [exact Hh|]. split; [exact Ht|].
  split; [|split; [|split]].
  - apply in_concat in Hmin_in as (l & Hl & Hin).
    apply in_map_iff in Hl as (s & <- & Hs). eauto.
  - intros s x Hs Hx. apply Hmin. apply in_concat.
    exists (get_start_mos s). split; [now apply in_map | exact Hx].
  - apply in_concat in Hmax_in as (l & Hl & Hin).
    apply in_map_iff in Hl as (s & <- & Hs). eauto.
  - intros s x Hs Hx. apply Hmax. apply in_concat.
    exists (get_final_mos s). split; [now apply in_map | exact Hx].
Qed.

Lemma td_tail_orbitals_witness :
  exists rows,
    td_tail false None 0 None (Some 400) three_states
    = Done (rows, "88"%string, "91"%string)
    /\ length rows = 3%nat
    /\ String.ltb "9" "88" = false.
Proof.
  assert (Hrun : exists rows,
            td_tail false None 0 None (Some 400) three_states
            = Done (rows, "88"%string, "91"%string)
            /\ length rows = 3%nat).
  { eexists. split; reflexivity. }
  destruct Hrun as (rows & Hrun & Hlen).
  exists rows. split; [exact Hrun|]. split; [exact Hlen|].
  destruct (td_tail_orbitals _ _ _ _ _ _ _ _ _ Hrun)
    as (selected & Hsel & _ & _ & _ & Hleast & _).
  vm_compute in Hsel. inversion Hsel; subst selected; clear Hsel.
  eapply Hleast; [right; left; reflexivity | left; reflexivity].
Defined.

(** *** The three steps together *)

Lemma mapM_calculate_numeric b ts :
  Forall numeric_coeff ts ->
  exists ts', mapM (calculate_contribution b) ts = Ok ts'
              /\ map shape ts' = map shape ts
              /\ Forall contrib_set ts'.
Proof.
  induction 1 as [|t ts [c Hc] _ (ts' & Hm & Hs & Hset)]; simpl.
  - exists []. auto.
  - assert (Ht : exists t', calculate_contribution b t = Ok t'
                            /\ shape t' = shape t /\ contrib_set t').
    { unfold calculate_contribution. destruct (contrib t) as [c0|] eqn:E.
      - exists t. repeat split. now exists c0.
      - rewrite Hc. eexists. repeat split. eexists; reflexivity. }
    destruct Ht as (t' & -> & Hst & Ht'). rewrite Hm. simpl.
    exists (t' :: ts'). simpl. rewrite Hst, Hs. auto.
Qed.

Lemma numeric_coeff_shape ts ts' :
  map shape ts' = map shape ts -> Forall numeric_coeff ts ->
  Forall numeric_coeff ts'.
Proof.
  intros H Hn.
  assert (Hc : map ci_coeff ts' = map ci_coeff ts).
  { apply (f_equal (map ci_coeff)) in H. now rewrite !map_map in H. }
  change (Forall (fun t => (fun v => exists c, v = PyNum c) (ci_coeff t))
            ts').
  apply Forall_map. rewrite Hc. apply Forall_map. exact Hn.
Qed.

Lemma kept_from_map {A B} (g : A -> B) xs ys :
  kept_from xs ys -> kept_from (map g xs) (map g ys).
Proof. induction 1; simpl; constructor; auto. Qed.

(** X26.  On a state whose transitions all carry a number for a
    coefficient, as the Gaussian and the escf parser store it, the three
    steps of the pipeline never raise: the call returns the state with its
    energy, wavelength and the like unchanged, the transitions left are
    among those of the state, in their order and with only contributions
    changed, and every contribution left is set. *)
Theorem post_process_total (ci_coeff_arg : Q) (s : ExcitedState) :
  Forall numeric_coeff (mo_transitions s) ->
  exists s',
    post_process ci_coeff_arg s = Ok s'
    /\ header s' = header s
    /\ kept_from (map shape (mo_transitions s'))
                 (map shape (mo_transitions s))
    /\ Forall contrib_set (mo_transitions s').
Proof.
  intros Hnum. unfold post_process, calculate_contributions.
  destruct (mapM_calculate_numeric (is_singlet s) _ Hnum)
    as (ts1 & -> & Hs1 & Hset1). cbn [bind].
  pose proof (correct_backexcitation_loop_shape ts1
                (positions is_back 0 ts1)) as Hloop.
  assert (Hidx : forall i, In i (positions is_back 0 ts1) ->
                 exists bt0, nth_error ts1 i = Some bt0).
  { intros i Hi. apply positions_In in Hi as (t & Ht & _).
    rewrite Nat.sub_0_r in Ht. eauto. }
  specialize (Hloop Hidx ts1 eq_refl).
  unfold correct_backexcitations.
  change (mo_transitions (set_mo_transitions s ts1)) with ts1.
  destruct (foldM correct_backexcitation _ ts1) as [ts2|e];
    [|destruct Hloop as [_ Hn]; contradiction].
  destruct Hloop as [Hs2 Hset2]. specialize (Hset2 Hset1). cbn [bind].
  assert (Hsup : Forall suppressible ts2).
  { assert (Hn2 : Forall numeric_coeff ts2).
    { eapply numeric_coeff_shape; [|exact Hnum]. now rewrite Hs2, Hs1. }
    eapply Forall_impl; [|exact Hn2]. intros t Ht _. exact Ht. }
  rewrite suppress_low_ci_coeffs_filter by exact Hsup.
  eexists. split; [reflexivity|]. simpl. split; [reflexivity|]. split.
  - rewrite <- Hs1, <- Hs2. apply kept_from_map, kept_from_filter.
  - apply Forall_filter. exact Hset2.
Qed.

Lemma post_process_total_witness :
  exists s',
    post_process (1 # 5) netted_state = Ok s'
    /\ length (mo_transitions s') = 1%nat
    /\ Forall contrib_set (mo_transitions s').
Proof.
  destruct (post_process_total (1 # 5) netted_state)
    as (s' & Hrun & _ & _ & Hset).
  - repeat constructor; eexists; reflexivity.
  - exists s'. split; [exact Hrun|]. split; [|exact Hset].
    vm_compute in Hrun. inversion Hrun. reflexivity.
Defined.
